(** * The per-room client state machine (room.ts), embedded in Rocq

    The development follows [makeStateMachine] of the room module: the
    machine state is the record [State.t], every function of the machine is
    a computation in a state-and-exception monad [M], and every call of an
    injected effect ([effects.send], [effects.scheduleReconnect], a listener
    callback, [clearTimeout], ...) is appended to the [trace] of the state.

    What lives outside the room module is taken as a parameter:
    - the CRDT nodes ([LiveNode], with [_apply], [_attachChild],
      [_setChildKey], [mergeStorageUpdates]),
    - the environment ([Date.now], timer handles, [typeof window],
      [WebsocketCloseCodes.CLOSE_WITHOUT_RETRY]),
    - the room [Context].

    Conventions of the embedding:
    - a listener is an opaque [listener n]; calling it is an entry of the
      trace, and it does not call back into the machine;
    - [effects] is the injected interface, and a call of an effect is an
      entry of the trace: what the default effects do later ([authenticate]
      resolving, a timer firing, a socket event) is a call of its own in
      [Call], made by whoever runs the machine; what the default
      [authenticate] does before it returns (with a token that has not
      expired it calls [authenticationSuccess] at once) is
      [default_authenticate], to be run after the call that made the effect;
    - the methods of a node read and write the registry [items] only;
    - [console] output and the loading of the initial storage
      ([INITIAL_STORAGE_STATE]) are left out: no statement below is about
      them. *)

From Stdlib Require Import ZArith List Bool Lia.
From stdpp Require Import base option list gmap strings pretty fin_maps.
Import ListNotations.
Local Open Scope string_scope.
Local Open Scope Z_scope.

(** ** JavaScript values *)

(** [Json] of [types/Json]; numbers are kept as integers, no arithmetic is
    done on them by the machine. *)
#[local] Unset Elimination Schemes.
Inductive Json : Type :=
| JNull
| JBool (b : bool)
| JNumber (n : Z)
| JString (s : string)
| JArray (l : list Json)
| JObject (l : list (string * Json)).
#[local] Set Elimination Schemes.

(** A JS object used as a record of presence keys.  A key can be present
    with the value [undefined] (this is what [reverse.data[key] =
    state.me[key]] stores for a key [me] does not have): the values are
    [option Json], [None] standing for [undefined]. *)
Abbreviation JsonObject := (gmap string (option Json)).

(** [obj[key]]: [undefined] when the key is absent. *)
Definition js_get (obj : JsonObject) (key : string) : option Json :=
  match obj !! key with
  | Some v => v
  | None => None
  end.

(** [{ ...a, ...b }]: the keys of [b] win. *)
Definition spread (a b : JsonObject) : JsonObject := b ∪ a.

(** A field that a well-typed state holds as [T | null], but that the code
    also compares with [undefined]. *)
Inductive Nullable (A : Type) : Type :=
| undefined
| null
| value (a : A).
Arguments undefined {A}.
Arguments null {A}.
Arguments value {A} a.

(** [x !== undefined] and [x !== null] *)
Definition strict_ne_undefined {A} (x : Nullable A) : bool :=
  match x with undefined => false | _ => true end.
Definition strict_ne_null {A} (x : Nullable A) : bool :=
  match x with null => false | _ => true end.

(** The text of [`${x}`] for a connection id. *)
Definition template_of_id (x : Nullable Z) : string :=
  match x with
  | undefined => "undefined"
  | null => "null"
  | value n => pretty n
  end.

(** ** A JS [Map] with string keys

    Insertion order is observable ([Array.from(map.values())]), so the
    entries are kept as a list: [set] on an existing key keeps its place. *)
Module JsMap.
Section WithValue.
Context {V : Type}.

Definition t := list (string * V).

Fixpoint get (m : t) (k : string) : option V :=
  match m with
  | [] => None
  | (k', v) :: m' => if String.eqb k' k then Some v else get m' k
  end.

Fixpoint set (m : t) (k : string) (v : V) : t :=
  match m with
  | [] => [(k, v)]
  | (k', v') :: m' =>
      if String.eqb k' k then (k', v) :: m' else (k', v') :: set m' k v
  end.

(** [map.delete(k)] returns whether the key was there. *)
Fixpoint delete (m : t) (k : string) : bool * t :=
  match m with
  | [] => (false, [])
  | (k', v') :: m' =>
      if String.eqb k' k then (true, m')
      else let '(b, m'') := delete m' k in (b, (k', v') :: m'')
  end.

Definition values (m : t) : list V := map snd m.
Definition size (m : t) : nat := length m.
End WithValue.
Arguments t : clear implicits.
End JsMap.

(** ** Operations and history entries *)

Module OpCode.
Inductive t :=
| CREATE_OBJECT | CREATE_LIST | CREATE_MAP | CREATE_REGISTER
| UPDATE_OBJECT | DELETE_OBJECT_KEY | DELETE_CRDT | SET_PARENT_KEY.
End OpCode.

(** An [Op] is a JS object whose fields depend on its [type]; the fields a
    kind does not carry are [None]. *)
Module Op.
Record t := mk {
  opId : option string;
  type : OpCode.t;
  id : string;
  parentId : option string;
  parentKey : option string;
  key : option string;
  data : option Json
}.

(** [op.opId = v] *)
Definition with_opId (v : option string) (o : t) : t :=
  mk v (type o) (id o) (parentId o) (parentKey o) (key o) (data o).
End Op.

(** [!op.opId]: the id is missing or the empty string. *)
Definition not_truthy_string (o : option string) : bool :=
  match o with
  | None => true
  | Some s => String.eqb s ""
  end.

(** An element of a [HistoryItem]. *)
Inductive HistoryOp :=
| HOp (op : Op.t)
| HPresence (data : JsonObject).

Abbreviation HistoryItem := (list HistoryOp).

Module OpSource.
Inductive t := UNDOREDO_RECONNECT | REMOTE | ACK.
Definition eqb (a b : t) : bool :=
  match a, b with
  | UNDOREDO_RECONNECT, UNDOREDO_RECONNECT | REMOTE, REMOTE | ACK, ACK => true
  | _, _ => false
  end.
End OpSource.

(** ** Connection *)

Module Connection.
Inductive state_name :=
| closed | authenticating | connecting | open | unavailable | failed.

Inductive t :=
| Closed
| Authenticating
| Connecting (id : Z) (userId : option string) (userInfo : option Json)
| Open (id : Z) (userId : option string) (userInfo : option Json)
| Unavailable
| Failed.

Definition state (c : t) : state_name :=
  match c with
  | Closed => closed
  | Authenticating => authenticating
  | Connecting _ _ _ => connecting
  | Open _ _ _ => open
  | Unavailable => unavailable
  | Failed => failed
  end.
End Connection.

Module ReadyState.
Inductive t := CONNECTING | OPEN | CLOSING | CLOSED.
End ReadyState.

(** The socket as the machine sees it: its [readyState], which the
    environment changes between two calls of the machine. *)
Module WebSocket.
Record t := mk { readyState : ReadyState.t }.
Definition is_open (w : t) : bool :=
  match readyState w with ReadyState.OPEN => true | _ => false end.
End WebSocket.

(** ** Users *)

Module User.
Record t := mk {
  connectionId : Z;
  id : option string;
  info : option Json;
  presence : option JsonObject;
  _hasReceivedInitialPresence : option bool
}.
End User.

(** [!user._hasReceivedInitialPresence] is false only for [true]. *)
Definition hasReceivedInitialPresence (u : User.t) : bool :=
  match User._hasReceivedInitialPresence u with
  | Some true => true
  | _ => false
  end.

(** What [makeOthers] keeps of a user: everything but the flag. *)
Module PublicUser.
Record t := mk {
  connectionId : Z;
  id : option string;
  info : option Json;
  presence : option JsonObject
}.
End PublicUser.

Definition publicKeys (u : User.t) : PublicUser.t :=
  PublicUser.mk (User.connectionId u) (User.id u) (User.info u) (User.presence u).

Abbreviation Others := (gmap Z PublicUser.t).

(** [makeOthers(userMap)] as a view indexed by connection id. *)
Definition makeOthers (userMap : gmap Z User.t) : Others :=
  publicKeys <$> userMap.

Inductive OthersEvent :=
| OE_enter (user : User.t)
| OE_leave (user : User.t)
| OE_update (updates : JsonObject) (user : User.t)
| OE_reset.

(** ** Messages to the server *)

Inductive ClientMsg :=
| UPDATE_PRESENCE (data : JsonObject) (targetActor : option Z)
| BROADCAST_EVENT (event : Json)
| FETCH_STORAGE
| UPDATE_STORAGE (ops : list Op.t).

Module UpdatePresenceServerMsg.
Record t := mk {
  actor : Z;
  data : JsonObject;
  targetActor : option Z
}.
End UpdatePresenceServerMsg.

(** The server messages the router handles with the room module's own
    code.  [INITIAL_STORAGE_STATE] is left out: its handler builds the root
    with [LiveObject._deserialize] and [getTreesDiffOperations], which are
    not part of the room module. *)
Module ServerMsg.
Inductive t :=
| USER_JOINED (actor : Z) (id : option string) (info : option Json)
| UPDATE_PRESENCE (message : UpdatePresenceServerMsg.t)
| BROADCASTED_EVENT (actor : Z) (event : Json)
| USER_LEFT (actor : Z)
| ROOM_STATE (users : list (Z * (option string * option Json)))
| UPDATE_STORAGE (ops : list Op.t).
End ServerMsg.

(** A text frame, as [onMessage] tells them apart: the text ["pong"], a
    text [parseServerMessages] makes nothing of, or the messages it holds. *)
Module Frame.
Inductive t :=
| pong
| unknown
| messages (l : list ServerMsg.t).
End Frame.

(** ** The buffer of queued data *)

Module PresenceBuffer.
Inductive kind := partial | full.
(** [sharesMe] records that [data] is the very object [state.me] (as after
    [defaultState] with an initial presence, and after [onOpen]): a write
    to [buffer.presence.data] is then a write to [state.me] too. *)
Record t := mk {
  type : kind;
  data : JsonObject;
  sharesMe : bool
}.
End PresenceBuffer.

Module Buffer.
Record t := mk {
  presence : option PresenceBuffer.t;
  messages : list ClientMsg;
  storageOperations : list Op.t
}.

Definition with_presence (v : option PresenceBuffer.t) (s : t) : t :=
  mk v (messages s) (storageOperations s).
Definition with_messages (v : list ClientMsg) (s : t) : t :=
  mk (presence s) v (storageOperations s).
Definition with_storageOperations (v : list Op.t) (s : t) : t :=
  mk (presence s) (messages s) v.

(** [{ messages: [], storageOperations: [], presence: null }] *)
Definition empty : t := mk None [] [].
End Buffer.

Module TimeoutHandles.
Record t := mk {
  flush : option Z;
  reconnect : Z;
  pongTimeout : Z
}.

Definition with_flush (v : option Z) (s : t) : t :=
  mk v (reconnect s) (pongTimeout s).
Definition with_reconnect (v : Z) (s : t) : t :=
  mk (flush s) v (pongTimeout s).
Definition with_pongTimeout (v : Z) (s : t) : t :=
  mk (flush s) (reconnect s) v.

End TimeoutHandles.

Module IntervalHandles.
Record t := mk {
  heartbeat : Z
}.

End IntervalHandles.

(** A registered callback is opaque; calling it is recorded in the trace. *)
Inductive Listener := listener (n : nat).

Module Listeners.
Record t := mk {
  event : list Listener;
  others : list Listener;
  my_presence : list Listener;
  error : list Listener;
  connection : list Listener;
  storage : list Listener;
  history : list Listener
}.

Definition empty : t := mk [] [] [] [] [] [] [].
End Listeners.

(** ** The room context and the host environment *)

(** A function of the host (a [fetch], a [WebSocket] constructor, a user
    callback), known by name only. *)
Inductive HostFunction := host_function (name : string).

Module Authentication.
Inductive t :=
| public (url publicApiKey : string)
| private (url : string)
| custom (callback : HostFunction).
End Authentication.

Module Polyfills.
Record t := mk {
  fetch : option HostFunction;
  WebSocket : option HostFunction
}.
End Polyfills.

Module Context.
Record t := mk {
  roomId : string;
  throttleDelay : Z;
  authentication : Authentication.t;
  liveblocksServer : string;
  polyfills : option Polyfills.t;
  fetchPolyfill : option HostFunction;
  WebSocketPolyfill : option HostFunction
}.
End Context.

(** What the machine reads from its host: the clock, the handles the timer
    functions return (the [n]-th question to the host is answered by
    [Date_now n], [timer_handle n]), whether [window] exists, and the
    constant [WebsocketCloseCodes.CLOSE_WITHOUT_RETRY] of [./types]. *)
Module Env.
Record t := mk {
  Date_now : nat -> Z;
  timer_handle : nat -> Z;
  window_defined : bool;
  CLOSE_WITHOUT_RETRY : Z
}.
End Env.

(** The two closures [connect] hands to [effects.authenticate], as data. *)
Inductive AuthEndpoint :=
| auth_public (fetch : HostFunction) (url publicApiKey : string)
| auth_private (fetch : HostFunction) (url : string)
| auth_custom (callback : HostFunction).

Module SocketFactory.
Record t := mk { liveblocksServer : string; ws : HostFunction }.
End SocketFactory.

(** ** Effects *)

Module Effect.
Section WithUpdate.
Context {StorageUpdate : Type}.

Inductive t :=
| authenticate (auth : AuthEndpoint) (createWebSocket : SocketFactory.t)
| send (messages : list ClientMsg)
| delayFlush (delay : Z)
| startHeartbeatInterval
| schedulePongTimeout
| scheduleReconnect (delay : Z)
| clearTimeout (handle : Z)
| clearInterval (handle : Z)
| socket_send (text : string)
| socket_close
| socket_addEventListener (name : string)
| socket_removeEventListener (name : string)
| call_event (l : Listener) (connectionId : Z) (event : Json)
| call_others (l : Listener) (others : Others) (event : OthersEvent)
| call_my_presence (l : Listener) (me : JsonObject)
| call_error (l : Listener) (message : string) (code : Z)
| call_connection (l : Listener) (state : Connection.state_name)
| call_storage (l : Listener) (updates : list StorageUpdate)
| call_history (l : Listener) (canUndo canRedo : bool).
End WithUpdate.
Arguments t : clear implicits.
End Effect.

(** ** The machine state *)

Module BatchUpdates.
Section WithUpdate.
Context {StorageUpdate : Type}.
Record t := mk {
  others : list OthersEvent;
  presence : bool;
  storageUpdates : JsMap.t StorageUpdate
}.

Definition with_presence (v : bool) (s : t) : t :=
  mk (others s) v (storageUpdates s).
Definition with_storageUpdates (v : JsMap.t StorageUpdate) (s : t) : t :=
  mk (others s) (presence s) v.

Definition empty : t := mk [] false [].
End WithUpdate.
Arguments t : clear implicits.
End BatchUpdates.

Module Batch.
Section WithUpdate.
Context {StorageUpdate : Type}.
Record t := mk {
  ops : list Op.t;
  reverseOps : HistoryItem;
  updates : BatchUpdates.t StorageUpdate
}.

Definition with_ops (v : list Op.t) (s : t) : t :=
  mk v (reverseOps s) (updates s).
Definition with_reverseOps (v : HistoryItem) (s : t) : t :=
  mk (ops s) v (updates s).
Definition with_updates (v : BatchUpdates.t StorageUpdate) (s : t) : t :=
  mk (ops s) (reverseOps s) v.

Definition empty : t := mk [] [] BatchUpdates.empty.
End WithUpdate.
Arguments t : clear implicits.
End Batch.

Module IdFactory.
Record t := mk { connectionId : Z; count : nat }.
End IdFactory.

(** The fields of [State] in the order of the source, and two more that
    belong to the host: [trace], the effects performed so far (oldest
    first), and [env_tick], the number of questions asked to the host. *)
Module State.
Section WithNodes.
Context {LiveNode StorageUpdate : Type}.
Record t := mk {
  connection : Connection.t;
  token : option string;
  lastConnectionId : Nullable Z;
  socket : option WebSocket.t;
  lastFlushTime : Z;
  buffer : Buffer.t;
  timeoutHandles : TimeoutHandles.t;
  intervalHandles : IntervalHandles.t;
  listeners : Listeners.t;
  me : JsonObject;
  others : Others;
  users : gmap Z User.t;
  idFactory : option IdFactory.t;
  numberOfRetry : nat;
  defaultStorageRoot : option Json;
  clock : nat;
  opClock : nat;
  items : gmap string LiveNode;
  root : option LiveNode;
  undoStack : list HistoryItem;
  redoStack : list HistoryItem;
  isHistoryPaused : bool;
  pausedHistory : HistoryItem;
  isBatching : bool;
  batch : Batch.t StorageUpdate;
  offlineOperations : JsMap.t Op.t;
  trace : list (Effect.t StorageUpdate);
  env_tick : nat
}.

Definition with_connection (v : Connection.t) (s : t) : t :=
  mk v (token s) (lastConnectionId s) (socket s) (lastFlushTime s) (buffer s) (timeoutHandles s) (intervalHandles s) (listeners s) (me s) (others s) (users s) (idFactory s) (numberOfRetry s) (defaultStorageRoot s) (clock s) (opClock s) (items s) (root s) (undoStack s) (redoStack s) (isHistoryPaused s) (pausedHistory s) (isBatching s) (batch s) (offlineOperations s) (trace s) (env_tick s).
Definition with_token (v : option string) (s : t) : t :=
  mk (connection s) v (lastConnectionId s) (socket s) (lastFlushTime s) (buffer s) (timeoutHandles s) (intervalHandles s) (listeners s) (me s) (others s) (users s) (idFactory s) (numberOfRetry s) (defaultStorageRoot s) (clock s) (opClock s) (items s) (root s) (undoStack s) (redoStack s) (isHistoryPaused s) (pausedHistory s) (isBatching s) (batch s) (offlineOperations s) (trace s) (env_tick s).
Definition with_lastConnectionId (v : Nullable Z) (s : t) : t :=
  mk (connection s) (token s) v (socket s) (lastFlushTime s) (buffer s) (timeoutHandles s) (intervalHandles s) (listeners s) (me s) (others s) (users s) (idFactory s) (numberOfRetry s) (defaultStorageRoot s) (clock s) (opClock s) (items s) (root s) (undoStack s) (redoStack s) (isHistoryPaused s) (pausedHistory s) (isBatching s) (batch s) (offlineOperations s) (trace s) (env_tick s).
Definition with_socket (v : option WebSocket.t) (s : t) : t :=
  mk (connection s) (token s) (lastConnectionId s) v (lastFlushTime s) (buffer s) (timeoutHandles s) (intervalHandles s) (listeners s) (me s) (others s) (users s) (idFactory s) (numberOfRetry s) (defaultStorageRoot s) (clock s) (opClock s) (items s) (root s) (undoStack s) (redoStack s) (isHistoryPaused s) (pausedHistory s) (isBatching s) (batch s) (offlineOperations s) (trace s) (env_tick s).
Definition with_lastFlushTime (v : Z) (s : t) : t :=
  mk (connection s) (token s) (lastConnectionId s) (socket s) v (buffer s) (timeoutHandles s) (intervalHandles s) (listeners s) (me s) (others s) (users s) (idFactory s) (numberOfRetry s) (defaultStorageRoot s) (clock s) (opClock s) (items s) (root s) (undoStack s) (redoStack s) (isHistoryPaused s) (pausedHistory s) (isBatching s) (batch s) (offlineOperations s) (trace s) (env_tick s).
Definition with_buffer (v : Buffer.t) (s : t) : t :=
  mk (connection s) (token s) (lastConnectionId s) (socket s) (lastFlushTime s) v (timeoutHandles s) (intervalHandles s) (listeners s) (me s) (others s) (users s) (idFactory s) (numberOfRetry s) (defaultStorageRoot s) (clock s) (opClock s) (items s) (root s) (undoStack s) (redoStack s) (isHistoryPaused s) (pausedHistory s) (isBatching s) (batch s) (offlineOperations s) (trace s) (env_tick s).
Definition with_timeoutHandles (v : TimeoutHandles.t) (s : t) : t :=
  mk (connection s) (token s) (lastConnectionId s) (socket s) (lastFlushTime s) (buffer s) v (intervalHandles s) (listeners s) (me s) (others s) (users s) (idFactory s) (numberOfRetry s) (defaultStorageRoot s) (clock s) (opClock s) (items s) (root s) (undoStack s) (redoStack s) (isHistoryPaused s) (pausedHistory s) (isBatching s) (batch s) (offlineOperations s) (trace s) (env_tick s).
Definition with_intervalHandles (v : IntervalHandles.t) (s : t) : t :=
  mk (connection s) (token s) (lastConnectionId s) (socket s) (lastFlushTime s) (buffer s) (timeoutHandles s) v (listeners s) (me s) (others s) (users s) (idFactory s) (numberOfRetry s) (defaultStorageRoot s) (clock s) (opClock s) (items s) (root s) (undoStack s) (redoStack s) (isHistoryPaused s) (pausedHistory s) (isBatching s) (batch s) (offlineOperations s) (trace s) (env_tick s).
Definition with_listeners (v : Listeners.t) (s : t) : t :=
  mk (connection s) (token s) (lastConnectionId s) (socket s) (lastFlushTime s) (buffer s) (timeoutHandles s) (intervalHandles s) v (me s) (others s) (users s) (idFactory s) (numberOfRetry s) (defaultStorageRoot s) (clock s) (opClock s) (items s) (root s) (undoStack s) (redoStack s) (isHistoryPaused s) (pausedHistory s) (isBatching s) (batch s) (offlineOperations s) (trace s) (env_tick s).
Definition with_me (v : JsonObject) (s : t) : t :=
  mk (connection s) (token s) (lastConnectionId s) (socket s) (lastFlushTime s) (buffer s) (timeoutHandles s) (intervalHandles s) (listeners s) v (others s) (users s) (idFactory s) (numberOfRetry s) (defaultStorageRoot s) (clock s) (opClock s) (items s) (root s) (undoStack s) (redoStack s) (isHistoryPaused s) (pausedHistory s) (isBatching s) (batch s) (offlineOperations s) (trace s) (env_tick s).
Definition with_others (v : Others) (s : t) : t :=
  mk (connection s) (token s) (lastConnectionId s) (socket s) (lastFlushTime s) (buffer s) (timeoutHandles s) (intervalHandles s) (listeners s) (me s) v (users s) (idFactory s) (numberOfRetry s) (defaultStorageRoot s) (clock s) (opClock s) (items s) (root s) (undoStack s) (redoStack s) (isHistoryPaused s) (pausedHistory s) (isBatching s) (batch s) (offlineOperations s) (trace s) (env_tick s).
Definition with_users (v : gmap Z User.t) (s : t) : t :=
  mk (connection s) (token s) (lastConnectionId s) (socket s) (lastFlushTime s) (buffer s) (timeoutHandles s) (intervalHandles s) (listeners s) (me s) (others s) v (idFactory s) (numberOfRetry s) (defaultStorageRoot s) (clock s) (opClock s) (items s) (root s) (undoStack s) (redoStack s) (isHistoryPaused s) (pausedHistory s) (isBatching s) (batch s) (offlineOperations s) (trace s) (env_tick s).
Definition with_idFactory (v : option IdFactory.t) (s : t) : t :=
  mk (connection s) (token s) (lastConnectionId s) (socket s) (lastFlushTime s) (buffer s) (timeoutHandles s) (intervalHandles s) (listeners s) (me s) (others s) (users s) v (numberOfRetry s) (defaultStorageRoot s) (clock s) (opClock s) (items s) (root s) (undoStack s) (redoStack s) (isHistoryPaused s) (pausedHistory s) (isBatching s) (batch s) (offlineOperations s) (trace s) (env_tick s).
Definition with_numberOfRetry (v : nat) (s : t) : t :=
  mk (connection s) (token s) (lastConnectionId s) (socket s) (lastFlushTime s) (buffer s) (timeoutHandles s) (intervalHandles s) (listeners s) (me s) (others s) (users s) (idFactory s) v (defaultStorageRoot s) (clock s) (opClock s) (items s) (root s) (undoStack s) (redoStack s) (isHistoryPaused s) (pausedHistory s) (isBatching s) (batch s) (offlineOperations s) (trace s) (env_tick s).
Definition with_clock (v : nat) (s : t) : t :=
  mk (connection s) (token s) (lastConnectionId s) (socket s) (lastFlushTime s) (buffer s) (timeoutHandles s) (intervalHandles s) (listeners s) (me s) (others s) (users s) (idFactory s) (numberOfRetry s) (defaultStorageRoot s) v (opClock s) (items s) (root s) (undoStack s) (redoStack s) (isHistoryPaused s) (pausedHistory s) (isBatching s) (batch s) (offlineOperations s) (trace s) (env_tick s).
Definition with_opClock (v : nat) (s : t) : t :=
  mk (connection s) (token s) (lastConnectionId s) (socket s) (lastFlushTime s) (buffer s) (timeoutHandles s) (intervalHandles s) (listeners s) (me s) (others s) (users s) (idFactory s) (numberOfRetry s) (defaultStorageRoot s) (clock s) v (items s) (root s) (undoStack s) (redoStack s) (isHistoryPaused s) (pausedHistory s) (isBatching s) (batch s) (offlineOperations s) (trace s) (env_tick s).
Definition with_items (v : gmap string LiveNode) (s : t) : t :=
  mk (connection s) (token s) (lastConnectionId s) (socket s) (lastFlushTime s) (buffer s) (timeoutHandles s) (intervalHandles s) (listeners s) (me s) (others s) (users s) (idFactory s) (numberOfRetry s) (defaultStorageRoot s) (clock s) (opClock s) v (root s) (undoStack s) (redoStack s) (isHistoryPaused s) (pausedHistory s) (isBatching s) (batch s) (offlineOperations s) (trace s) (env_tick s).
Definition with_root (v : option LiveNode) (s : t) : t :=
  mk (connection s) (token s) (lastConnectionId s) (socket s) (lastFlushTime s) (buffer s) (timeoutHandles s) (intervalHandles s) (listeners s) (me s) (others s) (users s) (idFactory s) (numberOfRetry s) (defaultStorageRoot s) (clock s) (opClock s) (items s) v (undoStack s) (redoStack s) (isHistoryPaused s) (pausedHistory s) (isBatching s) (batch s) (offlineOperations s) (trace s) (env_tick s).
Definition with_undoStack (v : list HistoryItem) (s : t) : t :=
  mk (connection s) (token s) (lastConnectionId s) (socket s) (lastFlushTime s) (buffer s) (timeoutHandles s) (intervalHandles s) (listeners s) (me s) (others s) (users s) (idFactory s) (numberOfRetry s) (defaultStorageRoot s) (clock s) (opClock s) (items s) (root s) v (redoStack s) (isHistoryPaused s) (pausedHistory s) (isBatching s) (batch s) (offlineOperations s) (trace s) (env_tick s).
Definition with_redoStack (v : list HistoryItem) (s : t) : t :=
  mk (connection s) (token s) (lastConnectionId s) (socket s) (lastFlushTime s) (buffer s) (timeoutHandles s) (intervalHandles s) (listeners s) (me s) (others s) (users s) (idFactory s) (numberOfRetry s) (defaultStorageRoot s) (clock s) (opClock s) (items s) (root s) (undoStack s) v (isHistoryPaused s) (pausedHistory s) (isBatching s) (batch s) (offlineOperations s) (trace s) (env_tick s).
Definition with_isHistoryPaused (v : bool) (s : t) : t :=
  mk (connection s) (token s) (lastConnectionId s) (socket s) (lastFlushTime s) (buffer s) (timeoutHandles s) (intervalHandles s) (listeners s) (me s) (others s) (users s) (idFactory s) (numberOfRetry s) (defaultStorageRoot s) (clock s) (opClock s) (items s) (root s) (undoStack s) (redoStack s) v (pausedHistory s) (isBatching s) (batch s) (offlineOperations s) (trace s) (env_tick s).
Definition with_pausedHistory (v : HistoryItem) (s : t) : t :=
  mk (connection s) (token s) (lastConnectionId s) (socket s) (lastFlushTime s) (buffer s) (timeoutHandles s) (intervalHandles s) (listeners s) (me s) (others s) (users s) (idFactory s) (numberOfRetry s) (defaultStorageRoot s) (clock s) (opClock s) (items s) (root s) (undoStack s) (redoStack s) (isHistoryPaused s) v (isBatching s) (batch s) (offlineOperations s) (trace s) (env_tick s).
Definition with_isBatching (v : bool) (s : t) : t :=
  mk (connection s) (token s) (lastConnectionId s) (socket s) (lastFlushTime s) (buffer s) (timeoutHandles s) (intervalHandles s) (listeners s) (me s) (others s) (users s) (idFactory s) (numberOfRetry s) (defaultStorageRoot s) (clock s) (opClock s) (items s) (root s) (undoStack s) (redoStack s) (isHistoryPaused s) (pausedHistory s) v (batch s) (offlineOperations s) (trace s) (env_tick s).
Definition with_batch (v : Batch.t StorageUpdate) (s : t) : t :=
  mk (connection s) (token s) (lastConnectionId s) (socket s) (lastFlushTime s) (buffer s) (timeoutHandles s) (intervalHandles s) (listeners s) (me s) (others s) (users s) (idFactory s) (numberOfRetry s) (defaultStorageRoot s) (clock s) (opClock s) (items s) (root s) (undoStack s) (redoStack s) (isHistoryPaused s) (pausedHistory s) (isBatching s) v (offlineOperations s) (trace s) (env_tick s).
Definition with_offlineOperations (v : JsMap.t Op.t) (s : t) : t :=
  mk (connection s) (token s) (lastConnectionId s) (socket s) (lastFlushTime s) (buffer s) (timeoutHandles s) (intervalHandles s) (listeners s) (me s) (others s) (users s) (idFactory s) (numberOfRetry s) (defaultStorageRoot s) (clock s) (opClock s) (items s) (root s) (undoStack s) (redoStack s) (isHistoryPaused s) (pausedHistory s) (isBatching s) (batch s) v (trace s) (env_tick s).
Definition with_trace (v : list (Effect.t StorageUpdate)) (s : t) : t :=
  mk (connection s) (token s) (lastConnectionId s) (socket s) (lastFlushTime s) (buffer s) (timeoutHandles s) (intervalHandles s) (listeners s) (me s) (others s) (users s) (idFactory s) (numberOfRetry s) (defaultStorageRoot s) (clock s) (opClock s) (items s) (root s) (undoStack s) (redoStack s) (isHistoryPaused s) (pausedHistory s) (isBatching s) (batch s) (offlineOperations s) v (env_tick s).
Definition with_env_tick (v : nat) (s : t) : t :=
  mk (connection s) (token s) (lastConnectionId s) (socket s) (lastFlushTime s) (buffer s) (timeoutHandles s) (intervalHandles s) (listeners s) (me s) (others s) (users s) (idFactory s) (numberOfRetry s) (defaultStorageRoot s) (clock s) (opClock s) (items s) (root s) (undoStack s) (redoStack s) (isHistoryPaused s) (pausedHistory s) (isBatching s) (batch s) (offlineOperations s) (trace s) v.
End WithNodes.
Arguments t : clear implicits.
End State.

(** ** The CRDT nodes

    The node classes ([LiveObject], [LiveList], ...) are not part of the room
    module.  The machine reads a node's [_id] and [parent], asks whether a
    node is a [LiveList], and calls three methods; by their contract (they
    update their own state and register or remove children with [addItem]
    and [deleteItem]) these methods transform the registry [state.items]. *)

Inductive Parent (LiveNode : Type) :=
| HasParent (node : LiveNode) (key : string)
| NotHasParent.
Arguments HasParent {LiveNode} node key.
Arguments NotHasParent {LiveNode}.

Inductive ApplyResult (StorageUpdate : Type) :=
| NotModified
| Modified (modified : StorageUpdate) (reverse : list Op.t).
Arguments NotModified {StorageUpdate}.
Arguments Modified {StorageUpdate} modified reverse.

Class CrdtNodes (LiveNode StorageUpdate : Type) := {
  node__id : LiveNode -> option string;
  node_parent : LiveNode -> Parent LiveNode;
  isLiveList : LiveNode -> bool;
(** [item._apply(op, isLocal)] *)
node__apply :
  LiveNode -> Op.t -> bool -> gmap string LiveNode ->
  ApplyResult StorageUpdate * gmap string LiveNode;
(** [parent._attachChild(op, source)] *)
node__attachChild :
  LiveNode -> Op.t -> OpSource.t -> gmap string LiveNode ->
  ApplyResult StorageUpdate * gmap string LiveNode;
(** [list._setChildKey(key, child, source)] *)
node__setChildKey :
  LiveNode -> option string -> LiveNode -> OpSource.t -> gmap string LiveNode ->
  ApplyResult StorageUpdate * gmap string LiveNode;
(** [update.node] of a [StorageUpdate] *)
update_node : StorageUpdate -> LiveNode;
(** [mergeStorageUpdates(first, second)] of [./utils] *)
mergeStorageUpdates : option StorageUpdate -> StorageUpdate -> StorageUpdate
}.

(** ** The monad of the machine

    A call of a machine function either returns or throws; in both cases the
    mutations done so far stay in the state. *)

Inductive Outcome (St A : Type) :=
| Returns (a : A) (s : St)
| Throws (e : string) (s : St).
Arguments Returns {St A} a s.
Arguments Throws {St A} e s.

(** The state a call leaves behind. *)
Definition final {St A} (o : Outcome St A) : St :=
  match o with
  | Returns _ s => s
  | Throws _ s => s
  end.

Definition returned {St A} (o : Outcome St A) : option A :=
  match o with
  | Returns a _ => Some a
  | Throws _ _ => None
  end.

Definition M (St A : Type) : Type := St -> Outcome St A.

Definition ret {St A} (a : A) : M St A := fun s => Returns a s.

Definition bind {St A B} (c : M St A) (k : A -> M St B) : M St B :=
  fun s =>
    match c s with
    | Returns a s' => k a s'
    | Throws e s' => Throws e s'
    end.

Definition throw {St A} (e : string) : M St A := fun s => Throws e s.
Definition get {St} : M St St := fun s => Returns s s.
Definition gets {St A} (f : St -> A) : M St A := fun s => Returns (f s) s.
Definition modify {St} (f : St -> St) : M St unit := fun s => Returns tt (f s).

(** [try { c } finally { f }] *)
Definition try_finally {St A} (c : M St A) (f : M St unit) : M St A :=
  fun s =>
    match c s with
    | Returns a s1 =>
        match f s1 with
        | Returns _ s2 => Returns a s2
        | Throws e s2 => Throws e s2
        end
    | Throws e s1 =>
        match f s1 with
        | Returns _ s2 => Throws e s2
        | Throws e' s2 => Throws e' s2
        end
    end.

Declare Scope machine_scope.
Delimit Scope machine_scope with machine.
Notation "'let*' x := c 'in' k" := (bind c (fun x => k))
  (at level 10, x name, c at level 100, k at level 200) : machine_scope.
Notation "'let*' ' p := c 'in' k" := (bind c (fun x => match x with p => k end))
  (at level 10, p pattern, c at level 100, k at level 200) : machine_scope.
Notation "c >> k" := (bind c (fun _ => k))
  (at level 100, k at level 200, right associativity) : machine_scope.

(** [for (const a of l) body(a)] *)
Fixpoint for_each {St A} (l : list A) (body : A -> M St unit) : M St unit :=
  match l with
  | [] => ret tt
  | a :: l' => bind (body a) (fun _ => for_each l' body)
  end.

Definition when {St} (b : bool) (c : M St unit) : M St unit :=
  if b then c else ret tt.

(** Modelled from the spec: [nn] of [./assert] is not among the sources; it
    is the internal assertion of section 7 that raises on a missing value
    and returns the value otherwise. *)
Definition nn {St A} (v : option A) (message : string) : M St A :=
  match v with
  | Some a => ret a
  | None => throw message
  end.

Definition BACKOFF_RETRY_DELAYS : list Z := [250; 500; 1000; 2000; 4000; 8000; 10000].
Definition BACKOFF_RETRY_DELAYS_SLOW : list Z := [2000; 30000; 60000; 300000].

(** ** The machine *)

Section Machine.
Context {LiveNode StorageUpdate : Type} `{!CrdtNodes LiveNode StorageUpdate}.
Variable env : Env.t.
Variable context : Context.t.

Local Open Scope machine_scope.
Local Abbreviation St := (State.t LiveNode StorageUpdate).
Local Abbreviation Eff := (Effect.t StorageUpdate).

(** *** The host *)

Definition emit (e : Eff) : M St unit :=
  modify (fun s => State.with_trace (State.trace s ++ [e]) s).

(** [Date.now()] *)
Definition Date_now : M St Z :=
  fun s =>
    Returns (Env.Date_now env (State.env_tick s))
            (State.with_env_tick (S (State.env_tick s)) s).

(** The handle a timer function of the host returns. *)
Definition timer_handle : M St Z :=
  fun s =>
    Returns (Env.timer_handle env (State.env_tick s))
            (State.with_env_tick (S (State.env_tick s)) s).

Definition clearTimeout (handle : Z) : M St unit := emit (Effect.clearTimeout handle).
Definition clearInterval (handle : Z) : M St unit := emit (Effect.clearInterval handle).

Definition effects_send (messages : list ClientMsg) : M St unit :=
  emit (Effect.send messages).
Definition effects_delayFlush (delay : Z) : M St Z :=
  emit (Effect.delayFlush delay) >> timer_handle.
Definition effects_startHeartbeatInterval : M St Z :=
  emit Effect.startHeartbeatInterval >> timer_handle.
Definition effects_schedulePongTimeout : M St Z :=
  emit Effect.schedulePongTimeout >> timer_handle.
Definition effects_scheduleReconnect (delay : Z) : M St Z :=
  emit (Effect.scheduleReconnect delay) >> timer_handle.
Definition effects_authenticate (auth : AuthEndpoint) (createWebSocket : SocketFactory.t)
  : M St unit :=
  emit (Effect.authenticate auth createWebSocket).

(** *** Field updates *)

Definition modify_buffer (f : Buffer.t -> Buffer.t) : M St unit :=
  modify (fun s => State.with_buffer (f (State.buffer s)) s).
Definition modify_timeoutHandles (f : TimeoutHandles.t -> TimeoutHandles.t) : M St unit :=
  modify (fun s => State.with_timeoutHandles (f (State.timeoutHandles s)) s).
Definition modify_batch (f : Batch.t StorageUpdate -> Batch.t StorageUpdate) : M St unit :=
  modify (fun s => State.with_batch (f (State.batch s)) s).

(** *** History *)

Definition canUndo : M St bool :=
  gets (fun s => (0 <? length (State.undoStack s))%nat).

Definition canRedo : M St bool :=
  gets (fun s => (0 <? length (State.redoStack s))%nat).

Definition onHistoryChange : M St unit :=
  let* ls := gets (fun s => Listeners.history (State.listeners s)) in
  for_each ls (fun l =>
    let* cu := canUndo in
    let* cr := canRedo in
    emit (Effect.call_history l cu cr)).

Definition addToUndoStack (historyItem : HistoryItem) : M St unit :=
  (* If undo stack is too large, we remove the older item *)
  (let* n := gets (fun s => length (State.undoStack s)) in
   when (50 <=? n)%nat
     (modify (fun s => State.with_undoStack (tail (State.undoStack s)) s))) >>
  let* paused := gets State.isHistoryPaused in
  if paused then
    modify (fun s => State.with_pausedHistory (historyItem ++ State.pausedHistory s) s)
  else
    modify (fun s => State.with_undoStack (State.undoStack s ++ [historyItem]) s) >>
    onHistoryChange.

Definition pauseHistory : M St unit :=
  modify (State.with_pausedHistory []) >>
  modify (State.with_isHistoryPaused true).

Definition resumeHistory : M St unit :=
  modify (State.with_isHistoryPaused false) >>
  (let* paused := gets State.pausedHistory in
   when (0 <? length paused)%nat (addToUndoStack paused)) >>
  modify (State.with_pausedHistory []).

(** *** Notifications *)

Definition notify (storageUpdates : JsMap.t StorageUpdate) (presence : bool)
    (otherEvents : list OthersEvent) : M St unit :=
  when (0 <? length otherEvents)%nat
    (modify (fun s => State.with_others (makeOthers (State.users s)) s) >>
     for_each otherEvents (fun event =>
       let* ls := gets (fun s => Listeners.others (State.listeners s)) in
       for_each ls (fun l =>
         let* o := gets State.others in
         emit (Effect.call_others l o event)))) >>
  when presence
    (let* ls := gets (fun s => Listeners.my_presence (State.listeners s)) in
     for_each ls (fun l =>
       let* me := gets State.me in
       emit (Effect.call_my_presence l me))) >>
  when (0 <? JsMap.size storageUpdates)%nat
    (let updates := JsMap.values storageUpdates in
     let* ls := gets (fun s => Listeners.storage (State.listeners s)) in
     for_each ls (fun l => emit (Effect.call_storage l updates))).

(** *** Flushing *)

Definition flushDataToMessages (state : St) : list ClientMsg :=
  let buffer := State.buffer state in
  (match Buffer.presence buffer with
   | Some p =>
       match PresenceBuffer.type p with
       | PresenceBuffer.full => [UPDATE_PRESENCE (PresenceBuffer.data p) (Some (-1))]
       | PresenceBuffer.partial => [UPDATE_PRESENCE (PresenceBuffer.data p) None]
       end
   | None => []
   end)
  ++ Buffer.messages buffer
  ++ (if (0 <? length (Buffer.storageOperations buffer))%nat
      then [UPDATE_STORAGE (Buffer.storageOperations buffer)]
      else []).

(** [state.socket == null || state.socket.readyState !== state.socket.OPEN] *)
Definition socket_not_open (state : St) : bool :=
  match State.socket state with
  | None => true
  | Some w => negb (WebSocket.is_open w)
  end.

Definition tryFlushing : M St unit :=
  let* storageOps := gets (fun s => Buffer.storageOperations (State.buffer s)) in
  when (0 <? length storageOps)%nat
    (for_each storageOps (fun op =>
       let* opId := nn (Op.opId op) "Expected non-null value" in
       modify (fun s =>
         State.with_offlineOperations (JsMap.set (State.offlineOperations s) opId op) s))) >>
  let* closed := gets socket_not_open in
  if closed then
    modify_buffer (Buffer.with_storageOperations [])
  else
    let* now := Date_now in
    let* lastFlushTime := gets State.lastFlushTime in
    let elapsedTime := now - lastFlushTime in
    if Context.throttleDelay context <? elapsedTime then
      let* messages := gets flushDataToMessages in
      if (length messages =? 0)%nat then ret tt
      else
        effects_send messages >>
        modify (State.with_buffer Buffer.empty) >>
        modify (State.with_lastFlushTime now)
    else
      (let* flush := gets (fun s => TimeoutHandles.flush (State.timeoutHandles s)) in
       match flush with
       | Some handle => clearTimeout handle
       | None => ret tt
       end) >>
      let* lastFlushTime := gets State.lastFlushTime in
      let* handle :=
        effects_delayFlush (Context.throttleDelay context - (now - lastFlushTime)) in
      modify_timeoutHandles (TimeoutHandles.with_flush (Some handle)).

Definition dispatch (ops : list Op.t) : M St unit :=
  modify_buffer (fun b =>
    Buffer.with_storageOperations (Buffer.storageOperations b ++ ops) b) >>
  tryFlushing.

(** [storageUpdates.forEach((value, key) => target.set(key,
    mergeStorageUpdates(target.get(key), value)))] *)
Definition merge_into (target updates : JsMap.t StorageUpdate) : JsMap.t StorageUpdate :=
  fold_left
    (fun acc kv => JsMap.set acc (fst kv) (mergeStorageUpdates (JsMap.get acc (fst kv)) (snd kv)))
    updates target.

Definition storageDispatch (ops reverse : list Op.t)
    (storageUpdates : JsMap.t StorageUpdate) : M St unit :=
  let* isBatching := gets State.isBatching in
  if isBatching then
    modify_batch (fun b => Batch.with_ops (Batch.ops b ++ ops) b) >>
    modify_batch (fun b =>
      Batch.with_updates
        (BatchUpdates.with_storageUpdates
           (merge_into (BatchUpdates.storageUpdates (Batch.updates b)) storageUpdates)
           (Batch.updates b)) b) >>
    modify_batch (fun b => Batch.with_reverseOps (Batch.reverseOps b ++ map HOp reverse) b)
  else
    addToUndoStack (map HOp reverse) >>
    modify (State.with_redoStack []) >>
    dispatch ops >>
    notify storageUpdates false [].

(** *** Ids *)

Definition getConnectionId : M St (Nullable Z) :=
  let* connection := gets State.connection in
  match connection with
  | Connection.Open id _ _ | Connection.Connecting id _ _ => ret (value id)
  | _ =>
      let* lastConnectionId := gets State.lastConnectionId in
      if strict_ne_null lastConnectionId then ret lastConnectionId
      else throw "Internal. Tried to get connection id but connection was never open"
  end.

Definition generateId : M St string :=
  let* connectionId := getConnectionId in
  let* clock := gets State.clock in
  modify (State.with_clock (S clock)) >>
  ret (template_of_id connectionId +:+ ":" +:+ pretty clock).

Definition generateOpId : M St string :=
  let* connectionId := getConnectionId in
  let* opClock := gets State.opClock in
  modify (State.with_opClock (S opClock)) >>
  ret (template_of_id connectionId +:+ ":" +:+ pretty opClock).

(** *** The op engine *)

(** A call of a node method: it runs on the registry and leaves the
    registry it returns. *)
Definition call_node
    (method : gmap string LiveNode -> ApplyResult StorageUpdate * gmap string LiveNode)
  : M St (ApplyResult StorageUpdate) :=
  fun s =>
    let '(result, items) := method (State.items s) in
    Returns result (State.with_items items s).

Definition applyOp (op : Op.t) (source : OpSource.t) : M St (ApplyResult StorageUpdate) :=
  match Op.type op with
  | OpCode.DELETE_OBJECT_KEY | OpCode.UPDATE_OBJECT | OpCode.DELETE_CRDT =>
      let* item := gets (fun s => State.items s !! Op.id op) in
      match item with
      | None => ret NotModified
      | Some item =>
          call_node (node__apply item op (OpSource.eqb source OpSource.UNDOREDO_RECONNECT))
      end
  | OpCode.SET_PARENT_KEY =>
      let* item := gets (fun s => State.items s !! Op.id op) in
      match item with
      | None => ret NotModified
      | Some item =>
          match node_parent item with
          | HasParent parent _ =>
              if isLiveList parent
              then call_node (node__setChildKey parent (Op.parentKey op) item source)
              else ret NotModified
          | NotHasParent => ret NotModified
          end
      end
  | OpCode.CREATE_OBJECT | OpCode.CREATE_LIST | OpCode.CREATE_MAP
  | OpCode.CREATE_REGISTER =>
      match Op.parentId op with
      | None => ret NotModified
      | Some parentId =>
          let* parent := gets (fun s => State.items s !! parentId) in
          match parent with
          | None => ret NotModified
          | Some parent => call_node (node__attachChild parent op source)
          end
      end
  end.

(** *** The apply loop *)

(** The local variables of [apply]: [result] and [createdNodeIds]. *)
Record ApplyLocals := mkApplyLocals {
  reverse : HistoryItem;
  storageUpdates : JsMap.t StorageUpdate;
  presence : bool;
  createdNodeIds : gset string
}.

Definition apply_locals_init : ApplyLocals := mkApplyLocals [] [] false ∅.

(** [for (const key in data) reverse.data[key] = me[key]] *)
Definition pick (me data : JsonObject) : JsonObject :=
  map_imap (fun key _ => Some (js_get me key)) data.

(** The body of the loop for a presence item. *)
Definition apply_presence (data : JsonObject) (acc : ApplyLocals) : M St ApplyLocals :=
  let* me := gets State.me in
  let reverse_item := HPresence (pick me data) in
  (* state.me becomes a new object: the buffer keeps the old one *)
  modify (State.with_me (spread me data)) >>
  modify_buffer (fun b =>
    match Buffer.presence b with
    | None =>
        Buffer.with_presence
          (Some (PresenceBuffer.mk PresenceBuffer.partial data false)) b
    | Some p =>
        Buffer.with_presence
          (Some (PresenceBuffer.mk (PresenceBuffer.type p)
                   (spread (PresenceBuffer.data p) data) false)) b
    end) >>
  ret (mkApplyLocals (reverse_item :: reverse acc) (storageUpdates acc) true
         (createdNodeIds acc)).

Definition is_create_with_children (type : OpCode.t) : bool :=
  match type with
  | OpCode.CREATE_LIST | OpCode.CREATE_MAP | OpCode.CREATE_OBJECT => true
  | _ => false
  end.

(** [!parentId || !createdNodeIds.has(parentId)] *)
Definition parent_not_created (parentId : option string) (created : gset string) : bool :=
  not_truthy_string parentId ||
  match parentId with
  | Some p => negb (bool_decide (p ∈ created))
  | None => true
  end.

(** Ops applied after undo/redo don't have an opId: [if (!op.opId) op.opId =
    generateOpId()].  The op comes back with the [opId] written into it. *)
Definition assign_opId (op : Op.t) : M St Op.t :=
  if not_truthy_string (Op.opId op) then
    let* opId := generateOpId in ret (Op.with_opId (Some opId) op)
  else ret op.

(** The source of the op; a remote op that is in [offlineOperations] is
    removed from it and is an acknowledgement. *)
Definition op_source (op : Op.t) (isLocal : bool) : M St OpSource.t :=
  if isLocal then ret OpSource.UNDOREDO_RECONNECT
  else
    let* opId := nn (Op.opId op) "Expected non-null value" in
    let* offline := gets State.offlineOperations in
    let '(deleted, offline') := JsMap.delete offline opId in
    modify (State.with_offlineOperations offline') >>
    ret (if deleted then OpSource.ACK else OpSource.REMOTE).

(** The body of [if (applyOpResult.modified)]. *)
Definition record_modified (op : Op.t) (modified : StorageUpdate)
    (engine_reverse : list Op.t) (acc : ApplyLocals) : M St ApplyLocals :=
  let node := update_node modified in
  let* parentId :=
    match node_parent node with
    | HasParent parent _ =>
        let* p := nn (node__id parent) "Expected parent node to have an ID" in
        ret (Some p)
    | NotHasParent => ret None
    end in
  (* If the parent is the root (undefined) or was created in the same batch,
     we don't want to notify storage updates for the children. *)
  let* acc :=
    if parent_not_created parentId (createdNodeIds acc) then
      let* id := nn (node__id node) "Expected non-null value" in
      ret (mkApplyLocals
             (map HOp engine_reverse ++ reverse acc)
             (JsMap.set (storageUpdates acc) id
                (mergeStorageUpdates (JsMap.get (storageUpdates acc) id) modified))
             (presence acc) (createdNodeIds acc))
    else ret acc in
  if is_create_with_children (Op.type op) then
    let* id := nn (node__id node) "Expected non-null value" in
    ret (mkApplyLocals (reverse acc) (storageUpdates acc) (presence acc)
           ({[ id ]} ∪ createdNodeIds acc))
  else ret acc.

(** The body of the loop for an op. *)
Definition apply_op (op : Op.t) (isLocal : bool) (acc : ApplyLocals)
  : M St (ApplyLocals * Op.t) :=
  let* op := assign_opId op in
  let* source := op_source op isLocal in
  let* applyOpResult := applyOp op source in
  match applyOpResult with
  | NotModified => ret (acc, op)
  | Modified modified engine_reverse =>
      let* acc := record_modified op modified engine_reverse acc in
      ret (acc, op)
  end.

Definition apply_item (item : HistoryOp) (isLocal : bool) (acc : ApplyLocals)
  : M St (ApplyLocals * HistoryOp) :=
  match item with
  | HPresence data =>
      let* acc := apply_presence data acc in ret (acc, item)
  | HOp op =>
      let* '(acc, op) := apply_op op isLocal acc in ret (acc, HOp op)
  end.

Fixpoint apply_loop (items : HistoryItem) (isLocal : bool) (acc : ApplyLocals)
  : M St (ApplyLocals * HistoryItem) :=
  match items with
  | [] => ret (acc, [])
  | item :: rest =>
      let* '(acc, item) := apply_item item isLocal acc in
      let* '(acc, rest) := apply_loop rest isLocal acc in
      ret (acc, item :: rest)
  end.

(** [apply(item, isLocal)]: the result, and the entry as the loop leaves
    it (its ops now carry an [opId]). *)
Definition apply (item : HistoryItem) (isLocal : bool)
  : M St (ApplyLocals * HistoryItem) :=
  apply_loop item isLocal apply_locals_init.

(** *** Connection *)

Definition updateConnection (connection : Connection.t) : M St unit :=
  modify (State.with_connection connection) >>
  let* ls := gets (fun s => Listeners.connection (State.listeners s)) in
  for_each ls (fun l => emit (Effect.call_connection l (Connection.state connection))).

(** [polyfills?.fetch ?? fetchPolyfill] and its [WebSocket] twin *)
Definition context_fetch : option HostFunction :=
  match Context.polyfills context with
  | Some p =>
      match Polyfills.fetch p with
      | Some f => Some f
      | None => Context.fetchPolyfill context
      end
  | None => Context.fetchPolyfill context
  end.

Definition context_WebSocket : option HostFunction :=
  match Context.polyfills context with
  | Some p =>
      match Polyfills.WebSocket p with
      | Some f => Some f
      | None => Context.WebSocketPolyfill context
      end
  | None => Context.WebSocketPolyfill context
  end.

(** [typeof window === "undefined" && polyfill == null] *)
Definition no_dom_and_no (polyfill : option HostFunction) : bool :=
  negb (Env.window_defined env) &&
  match polyfill with None => true | Some _ => false end.

(** [polyfill || global] *)
Definition or_global (polyfill : option HostFunction) (global : string) : HostFunction :=
  match polyfill with
  | Some f => f
  | None => host_function global
  end.

Definition prepareCreateWebSocket (liveblocksServer : string)
    (WebSocketPolyfill : option HostFunction) : M St SocketFactory.t :=
  if no_dom_and_no WebSocketPolyfill then
    throw "To use Liveblocks client in a non-dom environment, you need to provide a WebSocket polyfill."
  else
    ret (SocketFactory.mk liveblocksServer (or_global WebSocketPolyfill "WebSocket")).

Definition prepareAuthEndpoint (authentication : Authentication.t)
    (fetchPolyfill : option HostFunction) : M St AuthEndpoint :=
  match authentication with
  | Authentication.public url publicApiKey =>
      if no_dom_and_no fetchPolyfill then
        throw "To use Liveblocks client in a non-dom environment with a publicApiKey, you need to provide a fetch polyfill."
      else ret (auth_public (or_global fetchPolyfill "fetch") url publicApiKey)
  | Authentication.private url =>
      if no_dom_and_no fetchPolyfill then
        throw "To use Liveblocks client in a non-dom environment with a url as auth endpoint, you need to provide a fetch polyfill."
      else ret (auth_private (or_global fetchPolyfill "fetch") url)
  | Authentication.custom callback => ret (auth_custom callback)
  end.

(** [connect()] returns [null] when it does nothing and [undefined]
    otherwise: [Some tt] stands for [null], [None] for [undefined]. *)
Definition connect : M St (option unit) :=
  let* connection := gets State.connection in
  match Connection.state connection with
  | Connection.closed | Connection.unavailable =>
      let* auth := prepareAuthEndpoint (Context.authentication context) context_fetch in
      let* createWebSocket :=
        prepareCreateWebSocket (Context.liveblocksServer context) context_WebSocket in
      updateConnection Connection.Authenticating >>
      effects_authenticate auth createWebSocket >>
      ret None
  | _ => ret (Some tt)
  end.

Definition getRetryDelay (slow : bool) : M St Z :=
  let* numberOfRetry := gets State.numberOfRetry in
  if slow then
    ret (nth (if (numberOfRetry <? length BACKOFF_RETRY_DELAYS_SLOW)%nat
              then numberOfRetry
              else (length BACKOFF_RETRY_DELAYS_SLOW - 1)%nat)
             BACKOFF_RETRY_DELAYS_SLOW 0)
  else
    ret (nth (if (numberOfRetry <? length BACKOFF_RETRY_DELAYS)%nat
              then numberOfRetry
              else (length BACKOFF_RETRY_DELAYS - 1)%nat)
             BACKOFF_RETRY_DELAYS 0).

(** What [authenticationSuccess] reads of a [RoomAuthToken]. *)
Record RoomAuthToken := mkRoomAuthToken {
  token_actor : Z;
  token_id : option string;
  token_info : option Json
}.

Definition authenticationSuccess (token : RoomAuthToken) (socket : WebSocket.t)
  : M St unit :=
  emit (Effect.socket_addEventListener "message") >>
  emit (Effect.socket_addEventListener "open") >>
  emit (Effect.socket_addEventListener "close") >>
  emit (Effect.socket_addEventListener "error") >>
  updateConnection
    (Connection.Connecting (token_actor token) (token_id token) (token_info token)) >>
  modify (State.with_idFactory (Some (IdFactory.mk (token_actor token) 0))) >>
  modify (State.with_socket (Some socket)).

Definition authenticationFailure : M St unit :=
  modify (State.with_token None) >>
  updateConnection Connection.Unavailable >>
  modify (fun s => State.with_numberOfRetry (S (State.numberOfRetry s)) s) >>
  let* delay := getRetryDelay false in
  let* handle := effects_scheduleReconnect delay in
  modify_timeoutHandles (TimeoutHandles.with_reconnect handle).

(** The default [effects.authenticate], up to the point where the call
    returns.  [parseRoomAuthToken] and [isTokenExpired] belong to another
    module and [new ws(...)] to the host, so they are parameters
    ([state.token] only ever holds a token that [parseRoomAuthToken]
    accepted).  With a token that has not expired, the socket is made and
    [authenticationSuccess] runs before the call returns; otherwise the auth
    endpoint is asked and the call returns: the promise settles later, in a
    call of [authenticationSuccess] or of [authenticationFailure]. *)
Definition default_authenticate (parseRoomAuthToken : string -> RoomAuthToken)
    (isTokenExpired : RoomAuthToken -> bool) (createWebSocket : string -> WebSocket.t)
  : M St unit :=
  let* rawToken := gets State.token in
  match rawToken with
  | Some rawToken =>
      let parsedToken := parseRoomAuthToken rawToken in
      if negb (isTokenExpired parsedToken) then
        authenticationSuccess parsedToken (createWebSocket rawToken)
      else ret tt
  | None => ret tt
  end.

(** [if (state.timeoutHandles.flush)]: neither [null] nor [0] *)
Definition truthy_handle (h : option Z) : option Z :=
  match h with
  | Some n => if (n =? 0)%Z then None else Some n
  | None => None
  end.

Definition clear_flush_if_set : M St unit :=
  let* flush := gets (fun s => TimeoutHandles.flush (State.timeoutHandles s)) in
  match truthy_handle flush with
  | Some handle => clearTimeout handle
  | None => ret tt
  end.

Definition onClose (code : Z) (wasClean : bool) (reason : string) : M St unit :=
  modify (State.with_socket None) >>
  (let* h := gets (fun s => TimeoutHandles.pongTimeout (State.timeoutHandles s)) in
   clearTimeout h) >>
  (let* h := gets (fun s => IntervalHandles.heartbeat (State.intervalHandles s)) in
   clearInterval h) >>
  clear_flush_if_set >>
  (let* h := gets (fun s => TimeoutHandles.reconnect (State.timeoutHandles s)) in
   clearTimeout h) >>
  modify (State.with_users ∅) >>
  notify [] false [OE_reset] >>
  if (4000 <=? code)%Z && (code <=? 4100)%Z then
    updateConnection Connection.Failed >>
    (let* ls := gets (fun s => Listeners.error (State.listeners s)) in
     for_each ls (fun l => emit (Effect.call_error l reason code))) >>
    let* delay := getRetryDelay true in
    modify (fun s => State.with_numberOfRetry (S (State.numberOfRetry s)) s) >>
    updateConnection Connection.Unavailable >>
    let* handle := effects_scheduleReconnect delay in
    modify_timeoutHandles (TimeoutHandles.with_reconnect handle)
  else if (code =? Env.CLOSE_WITHOUT_RETRY env)%Z then
    updateConnection Connection.Closed
  else
    let* delay := getRetryDelay false in
    modify (fun s => State.with_numberOfRetry (S (State.numberOfRetry s)) s) >>
    updateConnection Connection.Unavailable >>
    let* handle := effects_scheduleReconnect delay in
    modify_timeoutHandles (TimeoutHandles.with_reconnect handle).

Definition onOpen : M St unit :=
  (let* h := gets (fun s => IntervalHandles.heartbeat (State.intervalHandles s)) in
   clearInterval h) >>
  (let* handle := effects_startHeartbeatInterval in
   modify (State.with_intervalHandles (IntervalHandles.mk handle))) >>
  let* connection := gets State.connection in
  match connection with
  | Connection.Connecting id userId userInfo =>
      updateConnection (Connection.Open id userId userInfo) >>
      modify (State.with_numberOfRetry 0%nat) >>
      (* Re-broadcast the user presence during a reconnect. *)
      (let* lastConnectionId := gets State.lastConnectionId in
       when (strict_ne_undefined lastConnectionId)
         (modify (fun s =>
            State.with_buffer
              (Buffer.with_presence
                 (Some (PresenceBuffer.mk PresenceBuffer.full (State.me s) true))
                 (State.buffer s)) s) >>
          tryFlushing)) >>
      modify (State.with_lastConnectionId (value id)) >>
      (let* root := gets State.root in
       when (match root with Some _ => true | None => false end)
         (modify_buffer (fun b =>
            Buffer.with_messages (Buffer.messages b ++ [FETCH_STORAGE]) b))) >>
      tryFlushing
  | _ => ret tt
  end.
(** [state.socket.removeEventListener] for the four handlers, then
    [state.socket.close()] and [state.socket = null], when there is a
    socket. *)
Definition drop_socket : M St unit :=
  let* socket := gets State.socket in
  match socket with
  | Some _ =>
      emit (Effect.socket_removeEventListener "open") >>
      emit (Effect.socket_removeEventListener "message") >>
      emit (Effect.socket_removeEventListener "close") >>
      emit (Effect.socket_removeEventListener "error") >>
      emit Effect.socket_close >>
      modify (State.with_socket None)
  | None => ret tt
  end.

Definition heartbeat : M St unit :=
  let* socket := gets State.socket in
  match socket with
  | None => ret tt
  | Some w =>
      (let* h := gets (fun s => TimeoutHandles.pongTimeout (State.timeoutHandles s)) in
       clearTimeout h) >>
      (let* handle := effects_schedulePongTimeout in
       modify_timeoutHandles (TimeoutHandles.with_pongTimeout handle)) >>
      when (WebSocket.is_open w) (emit (Effect.socket_send "ping"))
  end.

Definition reconnect : M St unit :=
  drop_socket >>
  updateConnection Connection.Unavailable >>
  (let* h := gets (fun s => TimeoutHandles.pongTimeout (State.timeoutHandles s)) in
   clearTimeout h) >>
  clear_flush_if_set >>
  (let* h := gets (fun s => TimeoutHandles.reconnect (State.timeoutHandles s)) in
   clearTimeout h) >>
  (let* h := gets (fun s => IntervalHandles.heartbeat (State.intervalHandles s)) in
   clearInterval h) >>
  let* _ := connect in ret tt.

Definition pongTimeout : M St unit := reconnect.

Definition onNavigatorOnline : M St unit :=
  let* connection := gets State.connection in
  match Connection.state connection with
  | Connection.unavailable => reconnect
  | _ => ret tt
  end.

(** [onVisibilityChange(visibilityState)]; [visible] says whether the
    argument is ["visible"]. *)
Definition onVisibilityChange (visible : bool) : M St unit :=
  let* connection := gets State.connection in
  match Connection.state connection with
  | Connection.open => when visible heartbeat
  | _ => ret tt
  end.

Definition clearListeners : M St unit :=
  modify (State.with_listeners Listeners.empty).

Definition disconnect : M St unit :=
  drop_socket >>
  updateConnection Connection.Closed >>
  clear_flush_if_set >>
  (let* h := gets (fun s => TimeoutHandles.reconnect (State.timeoutHandles s)) in
   clearTimeout h) >>
  (let* h := gets (fun s => TimeoutHandles.pongTimeout (State.timeoutHandles s)) in
   clearTimeout h) >>
  (let* h := gets (fun s => IntervalHandles.heartbeat (State.intervalHandles s)) in
   clearInterval h) >>
  modify (State.with_users ∅) >>
  notify [] false [OE_reset] >>
  clearListeners.

(** [simulateSocketClose] *)
Definition simulateSocketClose : M St unit :=
  modify (State.with_socket None).

(** *** Presence *)

(** The keys of [overrides] whose value is not [undefined]. *)
Definition defined_keys (overrides : JsonObject) : JsonObject :=
  filter (fun kv => is_Some (snd kv)) overrides.

(** [options] is [{ addToHistory }] or absent; [options?.addToHistory]. *)
Definition addToHistory_set (options : option bool) : bool :=
  match options with
  | Some b => b
  | None => false
  end.

Definition updatePresence (overrides : JsonObject) (options : option bool) : M St unit :=
  (let* p := gets (fun s => Buffer.presence (State.buffer s)) in
   match p with
   | None =>
       modify_buffer
         (Buffer.with_presence (Some (PresenceBuffer.mk PresenceBuffer.partial ∅ false)))
   | Some _ => ret tt
   end) >>
  (* the loop over the keys of [overrides]: each key with a value is written
     into the buffer, then its value in [state.me] is read; when the buffer
     data is the object [state.me], the value read is the one just written *)
  let* me := gets State.me in
  let* shares :=
    gets (fun s =>
      match Buffer.presence (State.buffer s) with
      | Some p => PresenceBuffer.sharesMe p
      | None => false
      end) in
  let written := defined_keys overrides in
  let me_object := if shares then spread me written else me in
  let oldValues := pick me_object written in
  modify_buffer (fun b =>
    match Buffer.presence b with
    | Some p =>
        Buffer.with_presence
          (Some (PresenceBuffer.mk (PresenceBuffer.type p)
                   (spread (PresenceBuffer.data p) written) false)) b
    | None => b
    end) >>
  modify (State.with_me (spread me_object overrides)) >>
  let* isBatching := gets State.isBatching in
  if isBatching then
    when (addToHistory_set options)
      (modify_batch (fun b =>
         Batch.with_reverseOps (Batch.reverseOps b ++ [HPresence oldValues]) b)) >>
    modify_batch (fun b =>
      Batch.with_updates (BatchUpdates.with_presence true (Batch.updates b)) b)
  else
    tryFlushing >>
    when (addToHistory_set options) (addToUndoStack [HPresence oldValues]) >>
    notify [] true [].

(** [{ ...user.presence, ...data }]: spreading [undefined] adds nothing. *)
Definition merge_presence (old : option JsonObject) (data : JsonObject) : JsonObject :=
  match old with
  | Some p => spread p data
  | None => spread ∅ data
  end.

Definition onUpdatePresenceMessage (message : UpdatePresenceServerMsg.t)
  : M St (option OthersEvent) :=
  let actor := UpdatePresenceServerMsg.actor message in
  let data := UpdatePresenceServerMsg.data message in
  let* user := gets (fun s => State.users s !! actor) in
  (* If the other user initial presence hasn't been received yet, we discard
     the presence update. The initial presence update message contains the
     property "targetActor". *)
  match UpdatePresenceServerMsg.targetActor message, user with
  | None, Some u =>
      if negb (hasReceivedInitialPresence u) then ret None
      else
        let user' :=
          User.mk actor (User.id u) (User.info u)
            (Some (merge_presence (User.presence u) data)) (Some true) in
        modify (fun s => State.with_users (<[actor := user']> (State.users s)) s) >>
        ret (Some (OE_update data user'))
  | _, Some u =>
      let user' :=
        User.mk actor (User.id u) (User.info u)
          (Some (merge_presence (User.presence u) data)) (Some true) in
      modify (fun s => State.with_users (<[actor := user']> (State.users s)) s) >>
      ret (Some (OE_update data user'))
  | _, None =>
      let user' := User.mk actor None None (Some data) (Some true) in
      modify (fun s => State.with_users (<[actor := user']> (State.users s)) s) >>
      ret (Some (OE_update data user'))
  end.

(** [onRoomStateMessage]: the users of the message, as pairs of the
    connection id parsed from the key and the user's [id] and [info]. *)
Definition onRoomStateMessage (users : list (Z * (option string * option Json)))
  : M St OthersEvent :=
  let newUsers : gmap Z User.t :=
    fold_left
      (fun acc entry =>
         <[fst entry := User.mk (fst entry) (fst (snd entry)) (snd (snd entry)) None None]> acc)
      users ∅ in
  modify (State.with_users newUsers) >>
  ret OE_reset.

(** [onUserJoinedMessage]; [state.me] is an object, so the branch that
    queues the current presence for the newcomer is always taken.  The
    queued message holds [state.me] as it reads when the message is queued;
    in the source it holds the object itself, which a later
    [updatePresence] can still write, through [buffer.presence.data],
    before the message is sent: no statement below reads a queued message
    after such a write. *)
Definition onUserJoinedMessage (actor : Z) (id : option string) (info : option Json)
  : M St OthersEvent :=
  let user := User.mk actor id info None (Some true) in
  modify (fun s => State.with_users (<[actor := user]> (State.users s)) s) >>
  (let* me := gets State.me in
   modify_buffer (fun b =>
     Buffer.with_messages (Buffer.messages b ++ [UPDATE_PRESENCE me (Some actor)]) b)) >>
  tryFlushing >>
  ret (OE_enter user).

Definition onUserLeftMessage (actor : Z) : M St (option OthersEvent) :=
  let* user := gets (fun s => State.users s !! actor) in
  match user with
  | Some user =>
      modify (fun s => State.with_users (delete actor (State.users s)) s) >>
      ret (Some (OE_leave user))
  | None => ret None
  end.

Definition onEvent (actor : Z) (event : Json) : M St unit :=
  let* ls := gets (fun s => Listeners.event (State.listeners s)) in
  for_each ls (fun l => emit (Effect.call_event l actor event)).

(** [broadcastEvent(event, options)], [shouldQueueEventIfNotReady] being
    [false] when no options are given. *)
Definition broadcastEvent (event : Json) (shouldQueueEventIfNotReady : bool) : M St unit :=
  let* socket := gets State.socket in
  match socket, shouldQueueEventIfNotReady with
  | None, false => ret tt
  | _, _ =>
      modify_buffer (fun b =>
        Buffer.with_messages (Buffer.messages b ++ [BROADCAST_EVENT event]) b) >>
      tryFlushing
  end.

(** *** Undo, redo and batches *)

(** [for (const op of historyItem) if (op.type !== "presence") push(op)] *)
Definition storage_ops (historyItem : HistoryItem) : list Op.t :=
  omap (fun item => match item with HOp op => Some op | HPresence _ => None end) historyItem.

Definition undo : M St unit :=
  let* isBatching := gets State.isBatching in
  if isBatching then throw "undo is not allowed during a batch"
  else
    let* undoStack := gets State.undoStack in
    match last undoStack with
    | None => ret tt
    | Some historyItem =>
        modify (State.with_undoStack (removelast undoStack)) >>
        modify (State.with_isHistoryPaused false) >>
        let* '(result, historyItem) := apply historyItem true in
        notify (storageUpdates result) (presence result) [] >>
        modify (fun s => State.with_redoStack (State.redoStack s ++ [reverse result]) s) >>
        onHistoryChange >>
        modify_buffer (fun b =>
          Buffer.with_storageOperations
            (Buffer.storageOperations b ++ storage_ops historyItem) b) >>
        tryFlushing
    end.

Definition redo : M St unit :=
  let* isBatching := gets State.isBatching in
  if isBatching then throw "redo is not allowed during a batch"
  else
    let* redoStack := gets State.redoStack in
    match last redoStack with
    | None => ret tt
    | Some historyItem =>
        modify (State.with_redoStack (removelast redoStack)) >>
        modify (State.with_isHistoryPaused false) >>
        let* '(result, historyItem) := apply historyItem true in
        notify (storageUpdates result) (presence result) [] >>
        modify (fun s => State.with_undoStack (State.undoStack s ++ [reverse result]) s) >>
        onHistoryChange >>
        modify_buffer (fun b =>
          Buffer.with_storageOperations
            (Buffer.storageOperations b ++ storage_ops historyItem) b) >>
        tryFlushing
    end.

(** The [finally] block of [batch]. *)
Definition batch_finally : M St unit :=
  modify (State.with_isBatching false) >>
  (let* reverseOps := gets (fun s => Batch.reverseOps (State.batch s)) in
   when (0 <? length reverseOps)%nat (addToUndoStack reverseOps)) >>
  (let* ops := gets (fun s => Batch.ops (State.batch s)) in
   (* Only clear the redo stack if something has changed during a batch *)
   when (0 <? length ops)%nat (modify (State.with_redoStack []))) >>
  (let* ops := gets (fun s => Batch.ops (State.batch s)) in
   when (0 <? length ops)%nat (dispatch ops)) >>
  (let* updates := gets (fun s => Batch.updates (State.batch s)) in
   notify (BatchUpdates.storageUpdates updates) (BatchUpdates.presence updates)
     (BatchUpdates.others updates)) >>
  modify (State.with_batch Batch.empty) >>
  tryFlushing.

(** [batch(callback)]; the callback is any computation on the machine. *)
Definition batch (callback : M St unit) : M St unit :=
  let* isBatching := gets State.isBatching in
  if isBatching then throw "batch should not be called during a batch"
  else
    modify (State.with_isBatching true) >>
    try_finally callback batch_finally.
(** *** The message router *)

(** The body of the loop of [onMessage]: [others] and [storageUpdates] are
    the two fields of its local [updates]. *)
Definition route (message : ServerMsg.t)
    (updates : list OthersEvent * JsMap.t StorageUpdate)
  : M St (list OthersEvent * JsMap.t StorageUpdate) :=
  let '(others, storage) := updates in
  match message with
  | ServerMsg.USER_JOINED actor id info =>
      let* event := onUserJoinedMessage actor id info in
      ret ((others ++ [event])%list, storage)
  | ServerMsg.UPDATE_PRESENCE m =>
      let* othersPresenceUpdate := onUpdatePresenceMessage m in
      match othersPresenceUpdate with
      | Some event => ret ((others ++ [event])%list, storage)
      | None => ret (others, storage)
      end
  | ServerMsg.BROADCASTED_EVENT actor event =>
      onEvent actor event >> ret (others, storage)
  | ServerMsg.USER_LEFT actor =>
      let* event := onUserLeftMessage actor in
      match event with
      | Some event => ret ((others ++ [event])%list, storage)
      | None => ret (others, storage)
      end
  | ServerMsg.ROOM_STATE users =>
      let* event := onRoomStateMessage users in
      ret ((others ++ [event])%list, storage)
  | ServerMsg.UPDATE_STORAGE ops =>
      let* '(applyResult, _) := apply (map HOp ops) false in
      ret (others, merge_into storage (storageUpdates applyResult))
  end.

Fixpoint route_all (messages : list ServerMsg.t)
    (updates : list OthersEvent * JsMap.t StorageUpdate)
  : M St (list OthersEvent * JsMap.t StorageUpdate) :=
  match messages with
  | [] => ret updates
  | message :: rest =>
      let* updates := route message updates in
      route_all rest updates
  end.

Definition onMessage (frame : Frame.t) : M St unit :=
  match frame with
  | Frame.pong =>
      let* h := gets (fun s => TimeoutHandles.pongTimeout (State.timeoutHandles s)) in
      clearTimeout h
  | Frame.unknown => ret tt
  | Frame.messages messages =>
      if (length messages =? 0)%nat then ret tt
      else
        let* '(others, storage) := route_all messages ([], []) in
        notify storage false others
  end.

(** *** Selectors and the replay of offline ops *)

Definition getConnectionState : M St Connection.state_name :=
  gets (fun s => Connection.state (State.connection s)).

Definition getPresence : M St JsonObject := gets State.me.

Definition getOthers : M St Others := gets State.others.

(** [getSelf()]; [None] stands for [null]. *)
Definition getSelf : M St (option PublicUser.t) :=
  let* connection := gets State.connection in
  match connection with
  | Connection.Open id userId userInfo | Connection.Connecting id userId userInfo =>
      let* presence := getPresence in
      ret (Some (PublicUser.mk id userId userInfo (Some presence)))
  | _ => ret None
  end.

(** [applyAndSendOfflineOps(offlineOps)]: the ops of the message are the
    objects [apply] went through, so they carry the [opId] it gave them. *)
Definition applyAndSendOfflineOps (offlineOps : JsMap.t Op.t) : M St unit :=
  if (JsMap.size offlineOps =? 0)%nat then ret tt
  else
    let ops := JsMap.values offlineOps in
    let* '(result, ops) := apply (map HOp ops) true in
    notify (storageUpdates result) (presence result) [] >>
    effects_send [UPDATE_STORAGE (storage_ops ops)].

Definition simulateSendCloseEvent (code : Z) (wasClean : bool) (reason : string)
  : M St unit :=
  onClose code wasClean reason.

(** *** Calls

    What can happen to a machine: a call of its interface by the user, an
    event of the socket or of a timer, a mutation through a node (which
    ends in [storageDispatch]), and user code that throws.  A batch runs a
    callback made of such calls. *)

Inductive Call :=
| call_connect
| call_disconnect
| call_updatePresence (overrides : JsonObject) (options : option bool)
| call_broadcastEvent (event : Json) (shouldQueueEventIfNotReady : bool)
| call_undo
| call_redo
| call_pauseHistory
| call_resumeHistory
| call_node_mutation (items : gmap string LiveNode) (ops reverse : list Op.t)
    (storageUpdates : JsMap.t StorageUpdate)
| call_authenticationSuccess (token : RoomAuthToken) (socket : WebSocket.t)
| call_authenticationFailure
| call_onOpen
| call_onClose (code : Z) (wasClean : bool) (reason : string)
| call_onMessage (frame : Frame.t)
| call_heartbeat
| call_pongTimeout
| call_onNavigatorOnline
| call_onVisibilityChange (visible : bool)
| call_flush_timer
| call_simulateSocketClose
| call_readyState (r : ReadyState.t)
| call_throw (e : string).

Inductive TopCall :=
| top (c : Call)
| top_batch (callback : list Call).

Definition exec_call (c : Call) : M St unit :=
  match c with
  | call_connect => let* _ := connect in ret tt
  | call_disconnect => disconnect
  | call_updatePresence overrides options => updatePresence overrides options
  | call_broadcastEvent event queue => broadcastEvent event queue
  | call_undo => undo
  | call_redo => redo
  | call_pauseHistory => pauseHistory
  | call_resumeHistory => resumeHistory
  | call_node_mutation items ops reverse storageUpdates =>
      modify (State.with_items items) >> storageDispatch ops reverse storageUpdates
  | call_authenticationSuccess token socket => authenticationSuccess token socket
  | call_authenticationFailure => authenticationFailure
  | call_onOpen => onOpen
  | call_onClose code wasClean reason => onClose code wasClean reason
  | call_onMessage frame => onMessage frame
  | call_heartbeat => heartbeat
  | call_pongTimeout => pongTimeout
  | call_onNavigatorOnline => onNavigatorOnline
  | call_onVisibilityChange visible => onVisibilityChange visible
  | call_flush_timer => tryFlushing
  | call_simulateSocketClose => simulateSocketClose
  | call_readyState r =>
      modify (fun s =>
        match State.socket s with
        | Some _ => State.with_socket (Some (WebSocket.mk r)) s
        | None => s
        end)
  | call_throw e => throw e
  end.

Definition exec (c : TopCall) : M St unit :=
  match c with
  | top c => exec_call c
  | top_batch callback => batch (for_each callback exec_call)
  end.

(** The state after a list of calls, each run whatever the one before
    returned. *)
Fixpoint run (calls : list TopCall) (s : St) : St :=
  match calls with
  | [] => s
  | c :: rest => run rest (final (exec c s))
  end.
End Machine.

(** [defaultState(initialPresence, initialStorage)]; the trace is empty and
    the host has been asked nothing. *)
Definition defaultState {LiveNode StorageUpdate : Type}
    (initialPresence : option JsonObject) (initialStorage : option Json)
  : State.t LiveNode StorageUpdate :=
  let presence :=
    match initialPresence with
    | None => ∅
    | Some p => p
    end in
  State.mk
    Connection.Closed                      (* connection *)
    None                                   (* token *)
    null                                   (* lastConnectionId *)
    None                                   (* socket *)
    0                                      (* lastFlushTime *)
    (Buffer.mk
       (* Queue up the initial presence message as a Full Presence update;
          its data is the object [me] when a presence is given *)
       (Some (PresenceBuffer.mk PresenceBuffer.full presence
                (match initialPresence with Some _ => true | None => false end)))
       [] [])
    (TimeoutHandles.mk None 0 0)
    (IntervalHandles.mk 0)
    Listeners.empty
    presence                               (* me *)
    (makeOthers ∅)                         (* others *)
    ∅                                      (* users *)
    None                                   (* idFactory *)
    0%nat                                  (* numberOfRetry *)
    initialStorage                         (* defaultStorageRoot *)
    0%nat 0%nat                            (* clock, opClock *)
    ∅                                      (* items *)
    None                                   (* root *)
    [] []                                  (* undoStack, redoStack *)
    false []                               (* isHistoryPaused, pausedHistory *)
    false Batch.empty                      (* isBatching, batch *)
    []                                     (* offlineOperations *)
    [] 0%nat.

(** ** A small node engine

    The node classes ([LiveObject], [LiveList], ...) are imported by the room
    module and are no part of it.  The concrete runs need one instance of
    [CrdtNodes]; this one has nodes that know their id, their parent and
    whether they are a list, and nothing else. *)
Module Toy.
#[local] Unset Elimination Schemes.
Inductive Node :=
| node (id : option string) (parent : option Node) (key : string) (is_list : bool).
#[local] Set Elimination Schemes.

Definition id_of (n : Node) : option string := let 'node i _ _ _ := n in i.

Definition parent_of (n : Node) : Parent Node :=
  match n with
  | node _ (Some p) key _ => HasParent p key
  | node _ None _ _ => NotHasParent
  end.

Definition is_list (n : Node) : bool := let 'node _ _ _ l := n in l.

Definition delete_op (id : string) : Op.t :=
  Op.mk None OpCode.DELETE_CRDT id None None None None.

(** Modelled from the spec: [_attachChild] of the node classes, which are
    not in this source.  On [attachChild] a node registers the child in the
    registry, generates the reverse op(s) and returns
    [{modified: {node, ...}, reverse}], or [{modified: false}]; here the
    modified node is the parent, the reverse is the deletion of the child,
    and a child whose id is registered already is not attached twice. *)
Definition attachChild (parent : Node) (op : Op.t) (source : OpSource.t)
    (items : gmap string Node) : ApplyResult Node * gmap string Node :=
  match items !! Op.id op with
  | Some _ => (NotModified, items)
  | None =>
      let key := match Op.parentKey op with Some k => k | None => "" end in
      let child :=
        node (Some (Op.id op)) (Some parent) key
          (match Op.type op with OpCode.CREATE_LIST => true | _ => false end) in
      (Modified parent [delete_op (Op.id op)], <[Op.id op := child]> items)
  end.

(** Modelled from the spec: [_apply] of the node classes, which are not in
    this source; it returns the node as modified, and one reverse op. *)
Definition apply_node (item : Node) (op : Op.t) (isLocal : bool)
    (items : gmap string Node) : ApplyResult Node * gmap string Node :=
  (Modified item [Op.with_opId None op], items).

(** Modelled from the spec: [_setChildKey] of the list class, which is not
    in this source; it returns the list as modified. *)
Definition setChildKey (parent : Node) (key : option string) (child : Node)
    (source : OpSource.t) (items : gmap string Node)
  : ApplyResult Node * gmap string Node :=
  (Modified parent [], items).

#[global] Instance nodes : CrdtNodes Node Node := {|
  node__id := id_of;
  node_parent := parent_of;
  isLiveList := is_list;
  node__apply := apply_node;
  node__attachChild := attachChild;
  node__setChildKey := setChildKey;
  update_node := fun u => u;
  mergeStorageUpdates := fun _ second => second
|}.

(** A browser whose clock stands still at [1000] and whose timers all get
    the handle [7]; [4999] is the value given here to
    [WebsocketCloseCodes.CLOSE_WITHOUT_RETRY], a constant declared outside
    the room module. *)
Definition env : Env.t := Env.mk (fun _ => 1000) (fun _ => 7) true 4999.

Definition context : Context.t :=
  Context.mk "room" 100 (Authentication.public "/api/auth" "pk_test") "wss://liveblocks.net/v5"
    None None None.

Abbreviation State := (State.t Node Node).

End Toy.

(** * What the theorems speak about

    Views of the state, frames, and the pieces of the machine a statement
    has to name. *)

Section Statements.
Context {LiveNode StorageUpdate : Type} `{!CrdtNodes LiveNode StorageUpdate}.
Variable env : Env.t.

Local Open Scope machine_scope.
Local Abbreviation St := (State.t LiveNode StorageUpdate).
Local Abbreviation Eff := (Effect.t StorageUpdate).

(** [connect] proceeds from these two states only. *)
Definition may_connect (s : St) : Prop :=
  Connection.state (State.connection s) = Connection.closed \/
  Connection.state (State.connection s) = Connection.unavailable.

(** A backoff schedule indexed by the number of retries, clamped to its
    last entry. *)
Definition backoff (delays : list Z) (numberOfRetry : nat) : Z :=
  nth (Nat.min numberOfRetry (length delays - 1)) delays 0.

(** What every close does first: the timers are cleared and the others
    listeners are told of the reset, with an empty view. *)
Definition close_prelude (s : St) : list Eff :=
  [Effect.clearTimeout (TimeoutHandles.pongTimeout (State.timeoutHandles s));
   Effect.clearInterval (IntervalHandles.heartbeat (State.intervalHandles s))]
  ++ match truthy_handle (TimeoutHandles.flush (State.timeoutHandles s)) with
     | Some handle => [Effect.clearTimeout handle]
     | None => []
     end
  ++ [Effect.clearTimeout (TimeoutHandles.reconnect (State.timeoutHandles s))]
  ++ map (fun l => Effect.call_others l (makeOthers ∅) OE_reset)
         (Listeners.others (State.listeners s)).

Definition connection_calls (s : St) (name : Connection.state_name) : list Eff :=
  map (fun l => Effect.call_connection l name) (Listeners.connection (State.listeners s)).

Definition is_scheduleReconnect (e : Eff) : bool :=
  match e with
  | Effect.scheduleReconnect _ => true
  | _ => false
  end.

(** The state every close goes through before it looks at the code. *)
Definition after_reset (s : St) : St :=
  State.with_trace (State.trace s ++ close_prelude s)
    (State.with_others (makeOthers ∅)
       (State.with_users ∅ (State.with_socket None s))).

(** What [onClose] does on a code from 4000 to 4100 once the connection is
    [failed]. *)
Definition once_failed (code : Z) (reason : string) : M St unit :=
  (let* ls := gets (fun s => Listeners.error (State.listeners s)) in
   for_each ls (fun l => emit (Effect.call_error l reason code))) >>
  let* delay := getRetryDelay true in
  modify (fun s => State.with_numberOfRetry (S (State.numberOfRetry s)) s) >>
  updateConnection Connection.Unavailable >>
  let* handle := effects_scheduleReconnect env delay in
  modify_timeoutHandles (TimeoutHandles.with_reconnect handle).

(** What one turn of the loop of [tryFlushing] does to [offlineOperations]. *)
Definition record_offline (offline : JsMap.t Op.t) (op : Op.t) : JsMap.t Op.t :=
  match Op.opId op with
  | Some opId => JsMap.set offline opId op
  | None => offline
  end.

(** The op carries an [opId], as every op the machine buffers does. *)
Definition has_opId (op : Op.t) : Prop := is_Some (Op.opId op).

(** [preserves f c]: the view [f] of the state is the same after [c] as
    before, whether [c] returns or throws. *)
Definition preserves {A X} (f : St -> X) (c : M St A) : Prop :=
  forall s, f (final (c s)) = f s.

(** A view that does not look at the fields the I/O side of the machine
    writes: the trace, the buffer, the timers, the clocks, the registry. *)
Record io_blind {X} (f : St -> X) : Prop := {
  blind_trace : forall v s, f (State.with_trace v s) = f s;
  blind_env_tick : forall v s, f (State.with_env_tick v s) = f s;
  blind_me : forall v s, f (State.with_me v s) = f s;
  blind_others : forall v s, f (State.with_others v s) = f s;
  blind_buffer : forall v s, f (State.with_buffer v s) = f s;
  blind_timeoutHandles : forall v s, f (State.with_timeoutHandles v s) = f s;
  blind_lastFlushTime : forall v s, f (State.with_lastFlushTime v s) = f s;
  blind_opClock : forall v s, f (State.with_opClock v s) = f s;
  blind_items : forall v s, f (State.with_items v s) = f s;
  blind_offlineOperations : forall v s, f (State.with_offlineOperations v s) = f s
}.

(** [c] never throws. *)
Definition always_returns {A} (c : M St A) : Prop :=
  forall s, exists a s', c s = Returns a s'.

(** What [undo] must leave alone but for its pop. *)
Definition undo_view (s : St) : list HistoryItem * bool * HistoryItem :=
  (State.undoStack s, State.isHistoryPaused s, State.pausedHistory s).

Definition redo_view (s : St) : list HistoryItem * bool * HistoryItem :=
  (State.redoStack s, State.isHistoryPaused s, State.pausedHistory s).

(** The state in which [undo] applies the entry it popped. *)
Definition undo_popped (s : St) : St :=
  State.with_isHistoryPaused false
    (State.with_undoStack (removelast (State.undoStack s)) s).

Definition redo_popped (s : St) : St :=
  State.with_isHistoryPaused false
    (State.with_redoStack (removelast (State.redoStack s)) s).

(** The per-node storage update is suppressed: the modified node has a
    parent, and the parent's id is among [createdNodeIds]. *)
Definition update_suppressed (modified : StorageUpdate) (created : gset string) : bool :=
  match node_parent (update_node modified) with
  | HasParent parent _ =>
      match node__id parent with
      | Some p => negb (parent_not_created (Some p) created)
      | None => false
      end
  | NotHasParent => false
  end.

(** The history bound. *)
Definition history_bounded (s : St) : Prop :=
  (length (State.undoStack s) <= 50)%nat.

(** Inside the callback of a batch. *)
Definition in_batch (s : St) : Prop :=
  history_bounded s /\ State.isBatching s = true.

(** [keeps P c]: from a state where [P] holds, [c] ends, returning or
    throwing, in a state where [P] holds. *)
Definition keeps {A} (P : St -> Prop) (c : M St A) : Prop :=
  forall s, P s -> P (final (c s)).

(** The undo stack once [addToUndoStack] has made room for an entry. *)
Definition capped (stack : list HistoryItem) : list HistoryItem :=
  if (50 <=? length stack)%nat then tail stack else stack.

(** Two presence objects a reader cannot tell apart: [a[k] === b[k]] for
    every key (a key held with the value [undefined] reads as a missing
    one). *)
Definition same_presence (a b : JsonObject) : Prop :=
  forall k, js_get a k = js_get b k.

(** No key of the object holds [undefined]. *)
Definition all_defined (o : JsonObject) : Prop :=
  map_Forall (fun _ v => is_Some v) o.

(** [state.buffer.presence.data] is the object [state.me]. *)
Definition buffer_shares_me (s : St) : bool :=
  match Buffer.presence (State.buffer s) with
  | Some p => PresenceBuffer.sharesMe p
  | None => false
  end.

(** [state.me] after presence items were applied one after the other. *)
Definition replay (ds : list JsonObject) (me : JsonObject) : JsonObject :=
  fold_left spread ds me.

(** The reverse items the loop of [apply] builds for presence items applied
    from [me]: each is unshifted, so the one of the last item comes first. *)
Fixpoint reverses (ds : list JsonObject) (me : JsonObject) : list JsonObject :=
  match ds with
  | [] => []
  | d :: rest => reverses rest (spread me d) ++ [pick me d]
  end.

(** The reverse items a batch collects for presence updates made from [me]:
    each is pushed, so the one of the first update comes first. *)
Fixpoint pushed_reverses (ds : list JsonObject) (me : JsonObject) : list JsonObject :=
  match ds with
  | [] => []
  | d :: rest => pick me d :: pushed_reverses rest (spread me d)
  end.

(** What the history functions read and write, and nothing of the I/O. *)
Definition history_view (s : St)
  : JsonObject * list HistoryItem * list HistoryItem * bool * HistoryItem * bool :=
  (State.me s, State.undoStack s, State.redoStack s, State.isHistoryPaused s,
   State.pausedHistory s, State.isBatching s).

(** The keys of an insertion-ordered map are distinct. *)
Definition distinct_keys {V} (m : JsMap.t V) : Prop := NoDup (map fst m).

(** [state.others] is the view of [state.users]. *)
Definition others_in_sync (s : St) : Prop :=
  State.others s = makeOthers (State.users s).

(** Every buffered storage op carries an [opId]: the loop of [tryFlushing]
    will not throw. *)
Definition flush_ready (s : St) : Prop :=
  Forall has_opId (Buffer.storageOperations (State.buffer s)).

(** The history, and the buffer beside it. *)
Definition buffered_history_view (s : St)
  : Buffer.t * (JsonObject * list HistoryItem * list HistoryItem * bool * HistoryItem * bool) :=
  (State.buffer s, history_view s).

(** The users a [ROOM_STATE] message lists, as [onRoomStateMessage] builds
    them on top of [acc]: a later entry for a connection id replaces an
    earlier one. *)
Definition listed_users (users : list (Z * (option string * option Json)))
    (acc : gmap Z User.t) : gmap Z User.t :=
  fold_left
    (fun acc entry =>
       <[fst entry := User.mk (fst entry) (fst (snd entry)) (snd (snd entry)) None None]> acc)
    users acc.

(** An op as [apply] leaves it: itself, or itself with the [opId] it was
    given because it had none. *)
Definition with_assigned_opId (op op' : Op.t) : Prop :=
  op' = op \/
  (not_truthy_string (Op.opId op) = true /\
   exists opId, op' = Op.with_opId (Some opId) op).

Definition item_with_assigned_opId (item item' : HistoryOp) : Prop :=
  match item, item' with
  | HPresence data, HPresence data' => data' = data
  | HOp op, HOp op' => with_assigned_opId op op'
  | _, _ => False
  end.

(** The storage ops waiting in the buffer. *)
Definition buffered_ops (s : St) : list Op.t :=
  Buffer.storageOperations (State.buffer s).

(** The ops that wait to be sent: in the buffer, and in the batch. *)
Definition ops_view (s : St) : list Op.t * list Op.t :=
  (buffered_ops s, Batch.ops (State.batch s)).

(** Every op that waits to be sent carries an [opId]. *)
Definition ops_ready (s : St) : Prop :=
  flush_ready s /\ Forall has_opId (Batch.ops (State.batch s)).

(** A mutation made through a node dispatches ops that carry an [opId]. *)
Definition mutation_with_opIds (c : @Call LiveNode StorageUpdate) : Prop :=
  match c with
  | call_node_mutation _ ops _ _ => Forall has_opId ops
  | _ => True
  end.

Definition top_with_opIds (c : @TopCall LiveNode StorageUpdate) : Prop :=
  match c with
  | top c => mutation_with_opIds c
  | top_batch callback => Forall mutation_with_opIds callback
  end.

(** The connection id as [getConnectionId] reads it: the id of the
    connection when it is open or connecting, [lastConnectionId]
    otherwise. *)
Definition connection_id (s : St) : Nullable Z :=
  match State.connection s with
  | Connection.Open id _ _ | Connection.Connecting id _ _ => value id
  | _ => State.lastConnectionId s
  end.

(** The id [generateOpId] makes for a connection id at a clock. *)
Definition opId_at (connectionId : Nullable Z) (opClock : nat) : string :=
  template_of_id connectionId +:+ ":" +:+ pretty opClock.

(** The number of ops of an entry that come without an [opId]. *)
Fixpoint missing_opIds (items : HistoryItem) : nat :=
  match items with
  | [] => 0
  | HOp op :: rest =>
      if not_truthy_string (Op.opId op) then S (missing_opIds rest) else missing_opIds rest
  | HPresence _ :: rest => missing_opIds rest
  end.

(** An entry in which each op without an [opId] is given, in the order of
    the entry, the id of the connection at the next clock, counting from
    [opClock]. *)
Fixpoint assign_opIds (connectionId : Nullable Z) (opClock : nat) (items : HistoryItem)
  : HistoryItem :=
  match items with
  | [] => []
  | HOp op :: rest =>
      if not_truthy_string (Op.opId op) then
        HOp (Op.with_opId (Some (opId_at connectionId opClock)) op)
        :: assign_opIds connectionId (S opClock) rest
      else HOp op :: assign_opIds connectionId opClock rest
  | HPresence data :: rest => HPresence data :: assign_opIds connectionId opClock rest
  end.

(** The ids given to the ops of an entry that come without one. *)
Definition given_opIds (connectionId : Nullable Z) (opClock : nat) (items : HistoryItem)
  : list string :=
  map (opId_at connectionId) (seq opClock (missing_opIds items)).

(** The [opId]s that the ops of [item'] carry where the ops of [item] had
    none, in the order of the entry. *)
Fixpoint opIds_given (item item' : HistoryItem) : list (option string) :=
  match item, item' with
  | HOp op :: rest, HOp op' :: rest' =>
      if not_truthy_string (Op.opId op) then Op.opId op' :: opIds_given rest rest'
      else opIds_given rest rest'
  | _ :: rest, _ :: rest' => opIds_given rest rest'
  | _, _ => []
  end.

(** What an id is made of. *)
Definition id_view (s : St) : Connection.t * Nullable Z * nat :=
  (State.connection s, State.lastConnectionId s, State.opClock s).

(** What the loop of [apply] puts in front of the reverse list for an op
    the engine answered with [applyOpResult], [created] being
    [createdNodeIds] when the op is reached: the engine's reverse ops when
    the op is reported as modified and its update is not suppressed. *)
Definition reverse_added (applyOpResult : ApplyResult StorageUpdate) (created : gset string)
  : HistoryItem :=
  match applyOpResult with
  | Modified modified engine_reverse =>
      if update_suppressed modified created then [] else map HOp engine_reverse
  | NotModified => []
  end.

(** [createdNodeIds] once the loop is through with the op: the id of the
    node the engine reports as modified is added when the op is a
    [CREATE_OBJECT], a [CREATE_LIST] or a [CREATE_MAP]. *)
Definition created_after (op : Op.t) (applyOpResult : ApplyResult StorageUpdate)
    (created : gset string) : gset string :=
  match applyOpResult with
  | Modified modified _ =>
      if is_create_with_children (Op.type op) then
        match node__id (update_node modified) with
        | Some id => {[ id ]} ∪ created
        | None => created
        end
      else created
  | NotModified => created
  end.

(** [storageUpdates] once the loop is through with the op. *)
Definition updates_after (applyOpResult : ApplyResult StorageUpdate) (created : gset string)
    (updates : JsMap.t StorageUpdate) : JsMap.t StorageUpdate :=
  match applyOpResult with
  | Modified modified _ =>
      if update_suppressed modified created then updates
      else
        match node__id (update_node modified) with
        | Some id =>
            JsMap.set updates id (mergeStorageUpdates (JsMap.get updates id) modified)
        | None => updates
        end
  | NotModified => updates
  end.
End Statements.

(** * The inputs of the concrete runs *)

Module Inputs.
Import Toy.

Definition x_is (n : Z) : JsonObject := {[ "x" := Some (JNumber n) ]}.

Definition fresh : State := defaultState None None.

(** Fifty presence updates with history, an undo, one more update, a redo. *)
Definition fifty_one_entries : list (@TopCall Node Node) :=
  replicate 50 (top (call_updatePresence (x_is 1) (Some true)))
  ++ [top call_undo;
      top (call_updatePresence (x_is 2) (Some true));
      top call_redo].

(** A state with one entry on the redo stack. *)
Definition one_to_redo : State :=
  run env context [top (call_updatePresence (x_is 1) (Some true)); top call_undo] fresh.

Definition update_root : Op.t :=
  Op.mk (Some "1:0") OpCode.UPDATE_OBJECT "0:0" None None None (Some (JNumber 1)).

(** Actor 7 is known from a [ROOM_STATE] message only: no presence yet. *)
Definition with_actor_7 : State :=
  final (onRoomStateMessage [(7, (Some "user-7", None))] fresh).

Definition cursor_is (n : Z) : JsonObject := {[ "cursor" := Some (JNumber n) ]}.

Definition untargeted : UpdatePresenceServerMsg.t :=
  UpdatePresenceServerMsg.mk 7 (cursor_is 1) None.

Definition targeted : UpdatePresenceServerMsg.t :=
  UpdatePresenceServerMsg.mk 7 (cursor_is 2) (Some 1).

(** An open connection with one listener of each kind and two retries
    behind it. *)
Definition listening : State :=
  State.with_numberOfRetry 2%nat
    (State.with_socket (Some (WebSocket.mk ReadyState.OPEN))
       (State.with_connection (Connection.Open 1 None None)
          (State.with_listeners
             (Listeners.mk [] [listener 1] [] [listener 2] [listener 3] [] [])
             fresh))).

Definition op_a : Op.t :=
  Op.mk (Some "1:0") OpCode.UPDATE_OBJECT "0:0" None None None (Some (JNumber 1)).

Definition op_b : Op.t :=
  Op.mk (Some "1:1") OpCode.DELETE_OBJECT_KEY "0:0" None None (Some "k") None.

(** Two ops wait in the buffer and there is no socket. *)
Definition two_buffered : State :=
  State.with_buffer (Buffer.mk None [] [op_a; op_b]) fresh.

(** The same room on a host without [window] and without polyfills. *)
Definition no_dom : Env.t := Env.mk (fun _ => 1000) (fun _ => 7) false 4999.

Definition root_node : Node := node (Some "0:0") None "" false.

(** An open connection over a storage that holds the root only. *)
Definition with_root : State :=
  State.with_items {[ "0:0" := root_node ]}
    (State.with_root (Some root_node)
       (State.with_connection (Connection.Open 1 None None) fresh)).

(** A remote entry: a new object under the root, and a new object in it. *)
Definition create_outer : Op.t :=
  Op.mk (Some "2:0") OpCode.CREATE_OBJECT "2:1" (Some "0:0") (Some "a") None None.

Definition create_inner : Op.t :=
  Op.mk (Some "2:1") OpCode.CREATE_OBJECT "2:2" (Some "2:1") (Some "b") None None.

Definition outer_node : Node := node (Some "2:1") (Some root_node) "a" false.

(** The first connection of a room: [connect], then the token arrives with
    actor 1 and a socket that is open. *)
Definition first_connecting : State :=
  run env context
    [top call_connect;
     top (call_authenticationSuccess (mkRoomAuthToken 1 None None)
            (WebSocket.mk ReadyState.OPEN))]
    (defaultState (Some (x_is 1)) None).

(** One entry on the undo stack, then a pause during which one presence
    update with history was made. *)
Definition paused_with_item : State :=
  run env context
    [top (call_updatePresence (x_is 1) (Some true));
     top call_pauseHistory;
     top (call_updatePresence (x_is 2) (Some true))] fresh.

Definition fifty_entries : State :=
  run env context (replicate 50 (top (call_updatePresence (x_is 1) (Some true)))) fresh.

(** Sixty presence updates with history, two undos, and a batch that
    updates the presence twice and tries a redo. *)
Definition busy_without_redo : list (@TopCall Node Node) :=
  replicate 60 (top (call_updatePresence (x_is 1) (Some true)))
  ++ [top call_undo; top call_undo;
      top_batch [call_updatePresence (x_is 3) (Some true);
                 call_updatePresence (x_is 4) (Some true);
                 call_redo]].

(** One presence update with history, made on a fresh room. *)
Definition one_update : State :=
  run env context [top (call_updatePresence (x_is 1) (Some true))] fresh.


Definition two_updates : list JsonObject := [x_is 1; x_is 2].

(** An open socket behind which two ops wait. *)
Definition open_with_two_buffered : State :=
  State.with_buffer (Buffer.mk None [] [op_a; op_b]) listening.

(** The two ops were sent while the socket was down: they wait for their
    acknowledgement. *)
Definition two_unacknowledged : State := final (tryFlushing env context two_buffered).

(** An update of the root made locally: it has no [opId] yet. *)
Definition unsent : Op.t :=
  Op.mk None OpCode.UPDATE_OBJECT "0:0" None None None (Some (JNumber 1)).

(** A mutation through a node, its undo, and a batch of a mutation and a
    presence update. *)
Definition mutations : list (@TopCall Node Node) :=
  [top (call_node_mutation {[ "0:0" := root_node ]} [op_a] [op_b] []);
   top call_undo;
   top_batch [call_node_mutation {[ "0:0" := root_node ]} [op_b] [op_a] [];
              call_updatePresence (x_is 1) (Some true)]].
(** The same room holding the token of an earlier authentication. *)
Definition with_token : State := State.with_token (Some "token") listening.
(** A node that is in the storage before the entry is applied: a child of
    the root. *)
Definition child_node : Node := node (Some "1:5") (Some root_node) "c" false.

Definition with_child : State :=
  State.with_items {[ "0:0" := root_node; "1:5" := child_node ]}
    (State.with_root (Some root_node)
       (State.with_connection (Connection.Open 1 None None) fresh)).

Definition update_child : Op.t :=
  Op.mk (Some "2:3") OpCode.UPDATE_OBJECT "1:5" None None None (Some (JNumber 1)).
End Inputs.

(** * Properties *)

Section Properties.
Context {LiveNode StorageUpdate : Type} `{!CrdtNodes LiveNode StorageUpdate}.
Variable env : Env.t.
Variable context : Context.t.

Local Open Scope machine_scope.
Local Abbreviation St := (State.t LiveNode StorageUpdate).
Local Abbreviation Eff := (Effect.t StorageUpdate).

(** ** Running the monad *)

Lemma bind_assoc {A B C} (c : M St A) (k1 : A -> M St B) (k2 : B -> M St C) s :
  bind (bind c k1) k2 s = bind c (fun a => bind (k1 a) k2) s.
Proof. unfold bind. destruct (c s); reflexivity. Qed.

Lemma with_trace_same (s : St) : State.with_trace (State.trace s) s = s.
Proof. destruct s; reflexivity. Qed.

(** A loop that only calls listeners adds one call per listener to the trace. *)
Lemma for_each_read_emit {A X} (f : St -> X) (g : A -> X -> Eff) (ls : list A) :
  (forall t s, f (State.with_trace t s) = f s) ->
  forall s,
    for_each ls (fun a => let* x := gets f in emit (g a x)) s
    = Returns tt (State.with_trace (State.trace s ++ map (fun a => g a (f s)) ls) s).
Proof.
  intros Hf. induction ls as [|a ls IH]; intros s; simpl.
  - rewrite app_nil_r, with_trace_same. reflexivity.
  - unfold bind at 1. unfold gets, emit, modify, bind at 1.
    rewrite IH. simpl. rewrite Hf, <- app_assoc. reflexivity.
Qed.

Lemma for_each_emit {A} (g : A -> Eff) (ls : list A) (s : St) :
  for_each ls (fun a => emit (g a)) s
  = Returns tt (State.with_trace (State.trace s ++ map g ls) s).
Proof.
  revert s. induction ls as [|a ls IH]; intros s; simpl.
  - rewrite app_nil_r, with_trace_same. reflexivity.
  - unfold bind, emit, modify. rewrite IH. simpl. rewrite <- app_assoc. reflexivity.
Qed.

(** ** Undo and redo on an empty stack (C9) *)

(** C9. With [isBatching] false, [undo()] on an empty undo stack returns
    and leaves the state as it was, every field of it, the trace of effects
    included: nothing is notified and nothing is sent; and so does [redo()]
    on an empty redo stack. *)
Theorem undo_redo_on_empty_stack (s : St) :
  State.isBatching s = false ->
  (State.undoStack s = [] -> undo env context s = Returns tt s) /\
  (State.redoStack s = [] -> redo env context s = Returns tt s).
Proof.
  intros Hb. split; intros Hempty.
  - unfold undo, bind, gets. rewrite Hb, Hempty. reflexivity.
  - unfold redo, bind, gets. rewrite Hb, Hempty. reflexivity.
Qed.

(** ** Connecting (C7) *)

Lemma updateConnection_run (connection : Connection.t) (s : St) :
  updateConnection connection s
  = Returns tt
      (State.with_trace
         (State.trace s ++
          map (fun l => Effect.call_connection l (Connection.state connection))
              (Listeners.connection (State.listeners s)))
         (State.with_connection connection s)).
Proof.
  unfold updateConnection, bind, modify, gets.
  rewrite for_each_emit. reflexivity.
Qed.

(** C7, as amended. In a state other than [closed] and [unavailable],
    [connect()] returns [null] and leaves the whole state unchanged.  In
    [closed] or [unavailable], when the auth endpoint and the socket factory
    can be prepared, it sets the connection to [authenticating], tells the
    connection listeners, and then calls [effects.authenticate] with the two;
    when one of them cannot be prepared, [connect()] throws and the state is
    unchanged. *)
Theorem connect_spec (s : St) :
  (~ may_connect s -> connect env context s = Returns (Some tt) s) /\
  (may_connect s ->
   forall auth createWebSocket,
     prepareAuthEndpoint env (Context.authentication context) (context_fetch context) s
       = Returns auth s ->
     prepareCreateWebSocket env (Context.liveblocksServer context) (context_WebSocket context) s
       = Returns createWebSocket s ->
     connect env context s
     = Returns None
         (State.with_trace
            (State.trace s
             ++ map (fun l => Effect.call_connection l Connection.authenticating)
                    (Listeners.connection (State.listeners s))
             ++ [Effect.authenticate auth createWebSocket])
            (State.with_connection Connection.Authenticating s))) /\
  (may_connect s ->
   forall e,
     (prepareAuthEndpoint env (Context.authentication context) (context_fetch context) s
        = Throws e s \/
      (exists auth,
         prepareAuthEndpoint env (Context.authentication context) (context_fetch context) s
           = Returns auth s /\
         prepareCreateWebSocket env (Context.liveblocksServer context)
           (context_WebSocket context) s = Throws e s)) ->
     connect env context s = Throws e s).
Proof.
  unfold may_connect. split; [|split].
  - intros Hno. unfold connect, bind, gets.
    destruct (Connection.state (State.connection s)); try reflexivity;
      exfalso; apply Hno; auto.
  - intros Hc auth cws Ha Hw. unfold connect.
    unfold bind at 1. unfold gets at 1.
    assert (Hgo :
      forall k1 k2 : M St (option unit),
        match Connection.state (State.connection s) with
        | Connection.closed | Connection.unavailable => k1
        | _ => k2
        end = k1) by (intros; destruct Hc as [-> | ->]; reflexivity).
    rewrite Hgo. unfold bind at 1. rewrite Ha. unfold bind at 1. rewrite Hw.
    unfold bind at 1. rewrite updateConnection_run.
    unfold bind, effects_authenticate, emit, modify, ret. simpl.
    rewrite <- app_assoc. reflexivity.
  - intros Hc e Hthrow. unfold connect.
    unfold bind at 1. unfold gets at 1.
    assert (Hgo :
      forall k1 k2 : M St (option unit),
        match Connection.state (State.connection s) with
        | Connection.closed | Connection.unavailable => k1
        | _ => k2
        end = k1) by (intros; destruct Hc as [-> | ->]; reflexivity).
    rewrite Hgo. unfold bind at 1.
    destruct Hthrow as [Ha | (auth & Ha & Hw)]; rewrite Ha; [reflexivity|].
    unfold bind at 1. rewrite Hw. reflexivity.
Qed.

(** In a browser, or with both polyfills, the preparation succeeds. *)
Lemma prepare_succeeds (s : St) :
  no_dom_and_no env (context_fetch context) = false ->
  no_dom_and_no env (context_WebSocket context) = false ->
  exists auth createWebSocket,
    prepareAuthEndpoint env (Context.authentication context) (context_fetch context) s
      = Returns auth s /\
    prepareCreateWebSocket env (Context.liveblocksServer context) (context_WebSocket context) s
      = Returns createWebSocket s.
Proof.
  intros Hf Hw. unfold prepareAuthEndpoint, prepareCreateWebSocket.
  rewrite Hw. destruct (Context.authentication context); rewrite ?Hf; eauto.
Qed.

(** ** Presence of the others (C3) *)

Lemma merge_presence_lookup (old : option JsonObject) (data : JsonObject) (k : string) :
  merge_presence old data !! k
  = match data !! k with
    | Some v => Some v
    | None => match old with Some p => p !! k | None => None end
    end.
Proof.
  unfold merge_presence, spread.
  destruct old as [p|]; rewrite lookup_union;
    destruct (data !! k) as [v|] eqn:E; simpl.
  - destruct (p !! k); reflexivity.
  - destruct (p !! k); reflexivity.
  - rewrite lookup_empty. reflexivity.
  - rewrite lookup_empty. reflexivity.
Qed.

(** C3. An [UPDATE_PRESENCE] without [targetActor] for an actor whose record
    has not received its initial presence is dropped: the handler returns no
    event and leaves the state (so the users) unchanged, and a frame that
    holds this message alone leaves the state unchanged, trace included: no
    others listener is called.  In every other case the record of the actor
    becomes: a new record with the message's data as presence when there was
    none, or the old record with the data merged into its presence; the flag
    is set, and an [update] event carrying the data and the new record is
    returned. *)
Theorem onUpdatePresenceMessage_spec (message : UpdatePresenceServerMsg.t) (s : St) :
  let actor := UpdatePresenceServerMsg.actor message in
  let data := UpdatePresenceServerMsg.data message in
  let targetActor := UpdatePresenceServerMsg.targetActor message in
  (forall u,
     targetActor = None -> State.users s !! actor = Some u ->
     hasReceivedInitialPresence u = false ->
     onUpdatePresenceMessage message s = Returns None s /\
     onMessage env context (Frame.messages [ServerMsg.UPDATE_PRESENCE message]) s
     = Returns tt s) /\
  (State.users s !! actor = None ->
   let user' := User.mk actor None None (Some data) (Some true) in
   onUpdatePresenceMessage message s
   = Returns (Some (OE_update data user'))
       (State.with_users (<[actor := user']> (State.users s)) s)) /\
  (forall u,
     State.users s !! actor = Some u ->
     targetActor <> None \/ hasReceivedInitialPresence u = true ->
     let user' :=
       User.mk actor (User.id u) (User.info u)
         (Some (merge_presence (User.presence u) data)) (Some true) in
     onUpdatePresenceMessage message s
     = Returns (Some (OE_update data user'))
         (State.with_users (<[actor := user']> (State.users s)) s) /\
     forall k,
       merge_presence (User.presence u) data !! k
       = match data !! k with
         | Some v => Some v
         | None => match User.presence u with Some p => p !! k | None => None end
         end).
Proof.
  intros actor data targetActor. subst actor data targetActor.
  split; [|split]; [| unfold onUpdatePresenceMessage, bind, gets ..].
  - intros u Ht Hu Hflag.
    assert (Hdrop : onUpdatePresenceMessage message s = Returns None s).
    { unfold onUpdatePresenceMessage, bind, gets. rewrite Ht, Hu, Hflag. reflexivity. }
    split; [exact Hdrop|].
    unfold onMessage, route_all, route. simpl.
    rewrite bind_assoc, bind_assoc. unfold bind at 1. rewrite Hdrop. reflexivity.
  - intros Hu. rewrite Hu.
    destruct (UpdatePresenceServerMsg.targetActor message); reflexivity.
  - intros u Hu Hcase. split; [|intros k; apply merge_presence_lookup].
    rewrite Hu.
    destruct (UpdatePresenceServerMsg.targetActor message) as [t|]; [reflexivity|].
    destruct Hcase as [Ht | Hflag]; [congruence|]. rewrite Hflag. reflexivity.
Qed.

(** ** Closing of the socket (C4) *)

Lemma bind_modify {B} (f : St -> St) (k : unit -> M St B) s :
  bind (modify f) k s = k tt (f s).
Proof. reflexivity. Qed.

Lemma bind_gets {A B} (f : St -> A) (k : A -> M St B) s :
  bind (gets f) k s = k (f s) s.
Proof. reflexivity. Qed.

Lemma bind_ret {A B} (a : A) (k : A -> M St B) s :
  bind (ret a) k s = k a s.
Proof. reflexivity. Qed.

Lemma bind_emit {B} (e : Eff) (k : unit -> M St B) s :
  bind (emit e) k s = k tt (State.with_trace (State.trace s ++ [e]) s).
Proof. reflexivity. Qed.

Lemma bind_Date_now {B} (k : Z -> M St B) s :
  bind (Date_now env) k s
  = k (Env.Date_now env (State.env_tick s))
      (State.with_env_tick (S (State.env_tick s)) s).
Proof. reflexivity. Qed.

Lemma bind_timer_handle {B} (k : Z -> M St B) s :
  bind (timer_handle env) k s
  = k (Env.timer_handle env (State.env_tick s))
      (State.with_env_tick (S (State.env_tick s)) s).
Proof. reflexivity. Qed.

Lemma bind_updateConnection {B} (connection : Connection.t) (k : unit -> M St B) s :
  bind (updateConnection connection) k s
  = k tt
      (State.with_trace
         (State.trace s ++
          map (fun l => Effect.call_connection l (Connection.state connection))
              (Listeners.connection (State.listeners s)))
         (State.with_connection connection s)).
Proof. unfold bind at 1. rewrite updateConnection_run. reflexivity. Qed.

Lemma getRetryDelay_run (slow : bool) (s : St) :
  getRetryDelay slow s
  = Returns
      (backoff (if slow then BACKOFF_RETRY_DELAYS_SLOW else BACKOFF_RETRY_DELAYS)
         (State.numberOfRetry s)) s.
Proof.
  unfold getRetryDelay, bind, gets, ret, backoff.
  destruct slow.
  - change (length BACKOFF_RETRY_DELAYS_SLOW) with 4%nat.
    destruct (Nat.ltb_spec (State.numberOfRetry s) 4);
      [rewrite Nat.min_l by lia | rewrite Nat.min_r by lia]; reflexivity.
  - change (length BACKOFF_RETRY_DELAYS) with 7%nat.
    destruct (Nat.ltb_spec (State.numberOfRetry s) 7);
      [rewrite Nat.min_l by lia | rewrite Nat.min_r by lia]; reflexivity.
Qed.

Lemma bind_for_each_emit {A B} (g : A -> Eff) (ls : list A) (k : unit -> M St B) s :
  bind (for_each ls (fun a => emit (g a))) k s
  = k tt (State.with_trace (State.trace s ++ map g ls) s).
Proof. unfold bind at 1. rewrite for_each_emit. reflexivity. Qed.

Lemma bind_getRetryDelay {B} (slow : bool) (k : Z -> M St B) s :
  bind (getRetryDelay slow) k s
  = k (backoff (if slow then BACKOFF_RETRY_DELAYS_SLOW else BACKOFF_RETRY_DELAYS)
         (State.numberOfRetry s)) s.
Proof. unfold bind at 1. rewrite getRetryDelay_run. reflexivity. Qed.

(** One step of a computation that starts with a primitive. *)
Ltac mstep :=
  first [ rewrite bind_assoc | rewrite bind_modify | rewrite bind_gets
        | rewrite bind_ret | rewrite bind_emit | rewrite bind_timer_handle
        | rewrite bind_Date_now
        | rewrite bind_updateConnection | rewrite bind_for_each_emit
        | rewrite bind_getRetryDelay ];
  cbv beta.

(** [notify({ others: [event] })] *)
Lemma notify_one_other (event : OthersEvent) (s : St) :
  notify [] false [event] s
  = Returns tt
      (State.with_trace
         (State.trace s ++
          map (fun l => Effect.call_others l (makeOthers (State.users s)) event)
              (Listeners.others (State.listeners s)))
         (State.with_others (makeOthers (State.users s)) s)).
Proof.
  unfold notify, when. simpl. repeat mstep.
  unfold bind at 1.
  rewrite (for_each_read_emit State.others
             (fun l o => Effect.call_others l o event)) by reflexivity.
  reflexivity.
Qed.

Lemma onClose_prelude {B} (k : unit -> M St B) (s : St) :
  bind (modify (State.with_socket None))
    (fun _ =>
     bind (let* h := gets (fun s => TimeoutHandles.pongTimeout (State.timeoutHandles s)) in
           clearTimeout h)
       (fun _ =>
        bind (let* h := gets (fun s => IntervalHandles.heartbeat (State.intervalHandles s)) in
              clearInterval h)
          (fun _ =>
           bind clear_flush_if_set
             (fun _ =>
              bind (let* h := gets (fun s => TimeoutHandles.reconnect (State.timeoutHandles s)) in
                    clearTimeout h)
                (fun _ =>
                 bind (modify (State.with_users ∅))
                   (fun _ => bind (notify [] false [OE_reset]) k)))))) s
  = k tt (after_reset s).
Proof.
  unfold clear_flush_if_set, clearTimeout, clearInterval, after_reset, close_prelude.
  repeat mstep. simpl.
  destruct (truthy_handle (TimeoutHandles.flush (State.timeoutHandles s))) as [h|].
  - repeat mstep. unfold bind at 1. rewrite notify_one_other. simpl.
    repeat rewrite <- app_assoc. reflexivity.
  - repeat mstep. unfold bind at 1. rewrite notify_one_other. simpl.
    repeat rewrite <- app_assoc. reflexivity.
Qed.

(** Both sides of an equation between traces, brought to one shape. *)
Ltac trace_norm := repeat (progress (rewrite <- ?app_assoc; simpl)).

Lemma forallb_map_true {A B} (f : B -> bool) (g : A -> B) (l : list A) :
  (forall a, f (g a) = true) -> forallb f (map g l) = true.
Proof. intros Hf. induction l as [|a l IH]; simpl; [reflexivity|]. rewrite Hf, IH. reflexivity. Qed.

Lemma no_reconnect_in_prelude (s : St) (name : Connection.state_name) :
  forallb (fun e => negb (is_scheduleReconnect e))
    (close_prelude s ++ connection_calls s name) = true.
Proof.
  unfold close_prelude, connection_calls.
  rewrite !forallb_app, !forallb_map_true by reflexivity.
  destruct (truthy_handle (TimeoutHandles.flush (State.timeoutHandles s))); reflexivity.
Qed.

Lemma onClose_through_failed (code : Z) (wasClean : bool) (reason : string) (s : St) :
  (4000 <=? code) && (code <=? 4100) = true ->
  onClose env code wasClean reason s
  = once_failed env code reason
      (State.with_trace
         (State.trace s ++ close_prelude s ++ connection_calls s Connection.failed)
         (State.with_connection Connection.Failed (after_reset s))).
Proof.
  intros Hrange. unfold onClose. rewrite onClose_prelude, Hrange.
  rewrite bind_updateConnection. unfold once_failed, connection_calls. simpl.
  rewrite <- app_assoc. reflexivity.
Qed.

(** C4. Every close first resets the users and tells the others listeners
    of the reset.  Then, on a code from 4000 to 4100: the connection becomes
    [failed] and the connection listeners hear it, every error listener is
    called with the reason and the code, the connection becomes
    [unavailable], and a reconnect is scheduled with the slow backoff for the
    retries so far; on any other code equal to [CLOSE_WITHOUT_RETRY]: the
    connection is [closed] and no reconnect is scheduled; on every other
    code: the connection is [unavailable] and a reconnect is scheduled with
    the fast backoff. *)
Theorem onClose_spec (code : Z) (wasClean : bool) (reason : string) (s : St) :
  let outcome := onClose env code wasClean reason s in
  let s' := final outcome in
  returned outcome = Some tt /\
  State.users s' = ∅ /\
  (4000 <= code <= 4100 ->
   (exists s_failed,
      State.connection s_failed = Connection.Failed /\
      outcome = once_failed env code reason s_failed) /\
   State.connection s' = Connection.Unavailable /\
   State.numberOfRetry s' = S (State.numberOfRetry s) /\
   State.trace s'
   = (State.trace s ++ close_prelude s
      ++ connection_calls s Connection.failed
      ++ map (fun l => Effect.call_error l reason code) (Listeners.error (State.listeners s))
      ++ connection_calls s Connection.unavailable
      ++ [Effect.scheduleReconnect
            (backoff BACKOFF_RETRY_DELAYS_SLOW (State.numberOfRetry s))])%list) /\
  (~ 4000 <= code <= 4100 -> code = Env.CLOSE_WITHOUT_RETRY env ->
   State.connection s' = Connection.Closed /\
   State.trace s'
   = (State.trace s ++ close_prelude s ++ connection_calls s Connection.closed)%list /\
   forallb (fun e => negb (is_scheduleReconnect e))
     (close_prelude s ++ connection_calls s Connection.closed) = true) /\
  (~ 4000 <= code <= 4100 -> code <> Env.CLOSE_WITHOUT_RETRY env ->
   State.connection s' = Connection.Unavailable /\
   State.numberOfRetry s' = S (State.numberOfRetry s) /\
   State.trace s'
   = (State.trace s ++ close_prelude s
      ++ connection_calls s Connection.unavailable
      ++ [Effect.scheduleReconnect
            (backoff BACKOFF_RETRY_DELAYS (State.numberOfRetry s))])%list).
Proof.
  intros outcome s'. subst s' outcome.
  pose proof (onClose_through_failed code wasClean reason s) as Hfailed.
  unfold onClose in *. rewrite onClose_prelude in *.
  destruct ((4000 <=? code) && (code <=? 4100)) eqn:Hrange.
  - specialize (Hfailed eq_refl). revert Hfailed.
    unfold effects_scheduleReconnect, modify_timeoutHandles, connection_calls.
    repeat mstep. simpl. intros Hfailed.
    split; [reflexivity|]. split; [reflexivity|]. split; [|split]; try (intros; lia).
    intros _. split; [eexists; split; [|exact Hfailed]; reflexivity|].
    split; [reflexivity|]. split; [reflexivity|].
    unfold close_prelude. trace_norm. reflexivity.
  - assert (Hout : ~ 4000 <= code <= 4100) by lia.
    destruct (code =? Env.CLOSE_WITHOUT_RETRY env) eqn:Hcode.
    + unfold connection_calls. rewrite updateConnection_run. simpl.
      split; [reflexivity|]. split; [reflexivity|]. split; [|split]; try (intros; lia).
      intros _ _. split; [reflexivity|]. split.
      * unfold close_prelude. trace_norm. reflexivity.
      * apply no_reconnect_in_prelude.
    + unfold effects_scheduleReconnect, modify_timeoutHandles, connection_calls.
      repeat mstep. simpl.
      split; [reflexivity|]. split; [reflexivity|]. split; [|split]; try (intros; lia).
      intros _ _. split; [reflexivity|]. split; [reflexivity|].
      unfold close_prelude. trace_norm. reflexivity.
Qed.

(** ** Flushing (C6) *)

Lemma JsMap_get_set_eq {V} (m : JsMap.t V) (k : string) (v : V) :
  JsMap.get (JsMap.set m k v) k = Some v.
Proof.
  induction m as [|[k' v'] m IH]; simpl.
  - rewrite String.eqb_refl. reflexivity.
  - destruct (String.eqb_spec k' k) as [->|Hne]; simpl.
    + rewrite String.eqb_refl. reflexivity.
    + destruct (String.eqb_spec k' k); [congruence|]. exact IH.
Qed.

Lemma JsMap_get_set_ne {V} (m : JsMap.t V) (k k' : string) (v : V) :
  k <> k' -> JsMap.get (JsMap.set m k v) k' = JsMap.get m k'.
Proof.
  intros Hne. induction m as [|[k0 v0] m IH]; simpl.
  - destruct (String.eqb_spec k k'); [congruence|reflexivity].
  - destruct (String.eqb_spec k0 k) as [->|Hk]; simpl.
    + destruct (String.eqb_spec k k'); [congruence|reflexivity].
    + destruct (String.eqb_spec k0 k'); [reflexivity|exact IH].
Qed.

Lemma with_offlineOperations_same (s : St) :
  State.with_offlineOperations (State.offlineOperations s) s = s.
Proof. destruct s; reflexivity. Qed.

Lemma record_loop_run (ops : list Op.t) (s : St) :
  Forall has_opId ops ->
  for_each ops (fun op =>
    let* opId := nn (Op.opId op) "Expected non-null value" in
    modify (fun s =>
      State.with_offlineOperations (JsMap.set (State.offlineOperations s) opId op) s)) s
  = Returns tt
      (State.with_offlineOperations
         (fold_left record_offline ops (State.offlineOperations s)) s).
Proof.
  intros Hall. revert s. induction Hall as [|op ops [opId Hop] _ IH]; intros s; simpl.
  - rewrite with_offlineOperations_same. reflexivity.
  - unfold bind at 1. rewrite Hop. simpl. unfold bind at 1, modify at 1.
    rewrite IH.
    replace (record_offline (State.offlineOperations s) op)
      with (JsMap.set (State.offlineOperations s) opId op)
      by (unfold record_offline; rewrite Hop; reflexivity).
    reflexivity.
Qed.

Lemma fold_record_other (ops : list Op.t) (m : JsMap.t Op.t) (k : string) :
  Forall (fun op => Op.opId op <> Some k) ops ->
  JsMap.get (fold_left record_offline ops m) k = JsMap.get m k.
Proof.
  intros Hall. revert m. induction Hall as [|op ops Hop _ IH]; intros m; simpl.
  - reflexivity.
  - rewrite IH. unfold record_offline.
    destruct (Op.opId op) as [k'|]; [|reflexivity].
    apply JsMap_get_set_ne. congruence.
Qed.

(** After the loop, the entry at the [opId] of a buffered op is a buffered
    op with this [opId] (the last one, should several share it). *)
Lemma fold_record_present (ops : list Op.t) (m : JsMap.t Op.t) (op : Op.t) (k : string) :
  In op ops -> Op.opId op = Some k ->
  exists op',
    JsMap.get (fold_left record_offline ops m) k = Some op' /\
    In op' ops /\ Op.opId op' = Some k.
Proof.
  revert m op. induction ops as [|a ops IH]; intros m op Hin Hk; [destruct Hin|].
  simpl.
  destruct (decide (Exists (fun o => Op.opId o = Some k) ops)) as [Hex | Hno].
  - apply Exists_exists in Hex as (o & Ho & Hok). apply list_elem_of_In in Ho.
    destruct (IH (record_offline m a) o Ho Hok) as (op' & Hget & Hin' & Hk').
    exists op'. split; [exact Hget|]. split; [right; exact Hin'|exact Hk'].
  - assert (Hnone : Forall (fun o => Op.opId o <> Some k) ops).
    { apply Forall_forall. intros o Ho Hok. apply Hno.
      apply Exists_exists. exists o. split; assumption. }
    destruct Hin as [-> | Hin].
    + exists op. rewrite fold_record_other by exact Hnone.
      unfold record_offline. rewrite Hk. rewrite JsMap_get_set_eq.
      split; [reflexivity|]. split; [left; reflexivity|congruence].
    + exfalso. apply Hno. apply Exists_exists. exists op.
      split; [apply list_elem_of_In; exact Hin|exact Hk].
Qed.

Lemma NoDup_map_eq {A B} (f : A -> B) (l : list A) (x y : A) :
  NoDup (map f l) -> In x l -> In y l -> f x = f y -> x = y.
Proof.
  induction l as [|a l IH]; simpl; intros Hnd Hx Hy Hf; [destruct Hx|].
  apply NoDup_cons in Hnd as [Hnotin Hnd].
  destruct Hx as [-> | Hx], Hy as [-> | Hy].
  - reflexivity.
  - exfalso. apply Hnotin. apply list_elem_of_In. rewrite Hf. apply in_map. exact Hy.
  - exfalso. apply Hnotin. apply list_elem_of_In. rewrite <- Hf. apply in_map. exact Hx.
  - apply IH; assumption.
Qed.

(** [tryFlushing] returns when every buffered op has an [opId], and leaves
    [offlineOperations] as the loop made it, whatever the socket. *)
Lemma bind_record_loop {B} (k : unit -> M St B) (s : St) :
  Forall has_opId (Buffer.storageOperations (State.buffer s)) ->
  bind (when (0 <? length (Buffer.storageOperations (State.buffer s)))%nat
          (for_each (Buffer.storageOperations (State.buffer s)) (fun op =>
             let* opId := nn (Op.opId op) "Expected non-null value" in
             modify (fun s =>
               State.with_offlineOperations
                 (JsMap.set (State.offlineOperations s) opId op) s)))) k s
  = k tt (State.with_offlineOperations
            (fold_left record_offline (Buffer.storageOperations (State.buffer s))
               (State.offlineOperations s)) s).
Proof.
  intros Hall. unfold bind at 1.
  destruct (Buffer.storageOperations (State.buffer s)) as [|op ops] eqn:Hops.
  - simpl. rewrite with_offlineOperations_same. reflexivity.
  - change (0 <? length (op :: ops))%nat with true. unfold when.
    rewrite record_loop_run by exact Hall. reflexivity.
Qed.

(** With the socket down, [tryFlushing] records the buffered ops, empties
    the buffer of storage ops and does nothing else. *)
Lemma tryFlushing_socket_down (s : St) :
  Forall has_opId (Buffer.storageOperations (State.buffer s)) ->
  socket_not_open s = true ->
  tryFlushing env context s
  = Returns tt
      (State.with_buffer (Buffer.with_storageOperations [] (State.buffer s))
         (State.with_offlineOperations
            (fold_left record_offline (Buffer.storageOperations (State.buffer s))
               (State.offlineOperations s)) s)).
Proof.
  intros Hall Hdown. unfold tryFlushing.
  rewrite bind_gets, bind_record_loop by exact Hall. rewrite bind_gets.
  match goal with
  | |- context [socket_not_open ?s1] =>
      replace (socket_not_open s1) with (socket_not_open s) by reflexivity
  end.
  rewrite Hdown. reflexivity.
Qed.

(** [tryFlushing] returns when every buffered op has an [opId], and leaves
    [offlineOperations] as the loop made it, whatever the socket. *)
Lemma tryFlushing_offline (s : St) :
  Forall has_opId (Buffer.storageOperations (State.buffer s)) ->
  exists s',
    tryFlushing env context s = Returns tt s' /\
    State.offlineOperations s'
    = fold_left record_offline (Buffer.storageOperations (State.buffer s))
        (State.offlineOperations s).
Proof.
  intros Hall. unfold tryFlushing.
  rewrite bind_gets, bind_record_loop by exact Hall. rewrite bind_gets.
  match goal with
  | |- context [socket_not_open ?s1] =>
      replace (socket_not_open s1) with (socket_not_open s) by reflexivity
  end.
  destruct (socket_not_open s).
  - eexists. split; reflexivity.
  - rewrite bind_Date_now, bind_gets.
    destruct (Context.throttleDelay context <? _).
    + rewrite bind_gets.
      destruct (length _ =? 0)%nat; [eexists; split; reflexivity|].
      unfold effects_send. repeat mstep. eexists; split; reflexivity.
    + unfold clearTimeout, effects_delayFlush, modify_timeoutHandles.
      rewrite bind_assoc, bind_gets. simpl.
      destruct (TimeoutHandles.flush (State.timeoutHandles s));
        repeat mstep; eexists; split; reflexivity.
Qed.

Lemma for_each_app {A} (l1 l2 : list A) (body : A -> M St unit) (s : St) :
  for_each (l1 ++ l2) body s = bind (for_each l1 body) (fun _ => for_each l2 body) s.
Proof.
  revert s. induction l1 as [|a l1 IH]; intros s; simpl.
  - reflexivity.
  - rewrite bind_assoc. unfold bind at 1. symmetry. unfold bind at 1. symmetry.
    destruct (body a s) as [[] s1 | e s1]; [apply IH | reflexivity].
Qed.

(** The assertion on [op.opId] is what stops the loop: at the first
    buffered op without an [opId], [tryFlushing] throws, having recorded
    the ops before it and none after it. *)
Lemma tryFlushing_throws_without_opId (s : St) (before after : list Op.t) (op : Op.t) :
  Buffer.storageOperations (State.buffer s) = (before ++ op :: after)%list ->
  Forall has_opId before ->
  Op.opId op = None ->
  tryFlushing env context s
  = Throws "Expected non-null value"
      (State.with_offlineOperations
         (fold_left record_offline before (State.offlineOperations s)) s).
Proof.
  intros Hops Hbefore Hop. unfold tryFlushing. rewrite bind_gets, Hops.
  replace (0 <? length (before ++ op :: after))%nat with true
    by (rewrite length_app; simpl; symmetry; apply Nat.ltb_lt; lia).
  unfold when, bind at 1. rewrite for_each_app. unfold bind at 1.
  rewrite record_loop_run by exact Hbefore.
  simpl. unfold bind at 1. rewrite Hop. reflexivity.
Qed.

(** C6. Let every buffered storage op carry an [opId] (the call throws at
    the first one that does not).  After [tryFlushing], whatever the socket,
    [offlineOperations] has at the [opId] of each op of the buffer an op of
    the buffer with that [opId], and the op itself when the [opId]s of the
    buffer are distinct; and when the socket is [null] or not [OPEN], the
    buffer of storage ops is empty afterwards and the trace is unchanged:
    nothing was sent. *)
Theorem tryFlushing_records_offline (s : St) :
  let ops := Buffer.storageOperations (State.buffer s) in
  let outcome := tryFlushing env context s in
  let s' := final outcome in
  Forall has_opId ops ->
  returned outcome = Some tt /\
  (forall op opId,
     In op ops -> Op.opId op = Some opId ->
     exists op',
       JsMap.get (State.offlineOperations s') opId = Some op' /\
       In op' ops /\ Op.opId op' = Some opId) /\
  (NoDup (map Op.opId ops) ->
   forall op opId,
     In op ops -> Op.opId op = Some opId ->
     JsMap.get (State.offlineOperations s') opId = Some op) /\
  (socket_not_open s = true ->
   Buffer.storageOperations (State.buffer s') = [] /\
   State.trace s' = State.trace s).
Proof.
  intros ops outcome s' Hall. subst outcome s' ops.
  destruct (tryFlushing_offline s Hall) as (s1 & Hrun & Hoff).
  rewrite Hrun. simpl.
  split; [reflexivity|]. split; [|split].
  - intros op opId Hin Hk. rewrite Hoff. apply (fold_record_present _ _ op); assumption.
  - intros Hnd op opId Hin Hk. rewrite Hoff.
    destruct (fold_record_present _ (State.offlineOperations s) op opId Hin Hk)
      as (op' & Hget & Hin' & Hk').
    rewrite Hget. f_equal.
    apply (NoDup_map_eq Op.opId (Buffer.storageOperations (State.buffer s)));
      try assumption.
    congruence.
  - intros Hdown.
    rewrite (tryFlushing_socket_down s Hall Hdown) in Hrun.
    injection Hrun as <-. split; reflexivity.
Qed.

(** ** Frames

    [preserves f c]: whatever [c] does, returning or throwing, it leaves the
    view [f] of the state as it was.  [io_blind f]: the view [f] does not
    look at the fields that flushing, notifying and applying ops write. *)

Lemma preserves_ret {A X} (f : St -> X) (a : A) : preserves f (ret a).
Proof. intros s. reflexivity. Qed.

Lemma preserves_throw {A X} (f : St -> X) (e : string) : preserves f (@throw St A e).
Proof. intros s. reflexivity. Qed.

Lemma preserves_gets {A X} (f : St -> X) (g : St -> A) : preserves f (gets g).
Proof. intros s. reflexivity. Qed.

Lemma preserves_modify {X} (f : St -> X) (g : St -> St) :
  (forall s, f (g s) = f s) -> preserves f (modify g).
Proof. intros Hg s. apply Hg. Qed.

Lemma preserves_bind {A B X} (f : St -> X) (c : M St A) (k : A -> M St B) :
  preserves f c -> (forall a, preserves f (k a)) -> preserves f (bind c k).
Proof.
  intros Hc Hk s. unfold bind. specialize (Hc s).
  destruct (c s) as [a s1 | e s1]; simpl in Hc.
  - rewrite Hk. exact Hc.
  - exact Hc.
Qed.

Lemma preserves_for_each {A X} (f : St -> X) (l : list A) (body : A -> M St unit) :
  (forall a, preserves f (body a)) -> preserves f (for_each l body).
Proof.
  intros Hbody. induction l as [|a l IH]; simpl.
  - apply preserves_ret.
  - apply preserves_bind; [apply Hbody | intros _; exact IH].
Qed.

Lemma preserves_when {X} (f : St -> X) (b : bool) (c : M St unit) :
  preserves f c -> preserves f (when b c).
Proof. intros Hc. destruct b; [exact Hc | apply preserves_ret]. Qed.

Lemma preserves_nn {A X} (f : St -> X) (v : option A) (message : string) :
  preserves f (nn v message).
Proof. destruct v; intros s; reflexivity. Qed.

Lemma preserves_try_finally {A X} (f : St -> X) (c : M St A) (h : M St unit) :
  preserves f c -> preserves f h -> preserves f (try_finally c h).
Proof.
  intros Hc Hh s. unfold try_finally. specialize (Hc s).
  destruct (c s) as [a s1 | e s1]; simpl in Hc; specialize (Hh s1);
    destruct (h s1); simpl in *; congruence.
Qed.

Section Blind.
Context {X : Type} (f : St -> X) (Hf : io_blind f).

Lemma preserves_emit (e : Eff) : preserves f (emit e).
Proof. intros s. apply (blind_trace f Hf). Qed.

Lemma preserves_Date_now : preserves f (Date_now env).
Proof. intros s. apply (blind_env_tick f Hf). Qed.

Lemma preserves_timer_handle : preserves f (timer_handle env).
Proof. intros s. apply (blind_env_tick f Hf). Qed.

Lemma preserves_call_node method : preserves f (call_node method).
Proof.
  intros s. unfold call_node. destruct (method (State.items s)). apply (blind_items f Hf).
Qed.

Lemma preserves_modify_buffer g : preserves f (modify_buffer g).
Proof. intros s. apply (blind_buffer f Hf). Qed.

Lemma preserves_modify_timeoutHandles g : preserves f (modify_timeoutHandles g).
Proof. intros s. apply (blind_timeoutHandles f Hf). Qed.
End Blind.

(** The frame of a computation, piece by piece. *)
Ltac frame_step Hf :=
  first
    [ apply preserves_ret | apply preserves_throw | apply preserves_gets
    | apply preserves_nn
    | apply (preserves_emit _ Hf) | apply (preserves_Date_now _ Hf)
    | apply (preserves_timer_handle _ Hf) | apply (preserves_call_node _ Hf)
    | apply (preserves_modify_buffer _ Hf)
    | apply (preserves_modify_timeoutHandles _ Hf)
    | apply preserves_modify; intros ?;
      first [ reflexivity | apply (blind_trace _ Hf) | apply (blind_env_tick _ Hf)
            | apply (blind_me _ Hf) | apply (blind_others _ Hf)
            | apply (blind_buffer _ Hf) | apply (blind_timeoutHandles _ Hf)
            | apply (blind_lastFlushTime _ Hf) | apply (blind_opClock _ Hf)
            | apply (blind_items _ Hf) | apply (blind_offlineOperations _ Hf) ]
    | apply preserves_bind; [| intros ?]
    | apply preserves_for_each; intros ?
    | apply preserves_when
    | match goal with
      | |- preserves _ (match ?x with _ => _ end) => destruct x
      end ].

Ltac frame Hf := repeat (frame_step Hf).

Section BlindMachine.
Context {X : Type} (f : St -> X) (Hf : io_blind f).

Lemma preserves_onHistoryChange : preserves f onHistoryChange.
Proof. unfold onHistoryChange, canUndo, canRedo. frame Hf. Qed.

Lemma preserves_notify storageUpdates presence otherEvents :
  preserves f (notify storageUpdates presence otherEvents).
Proof. unfold notify. frame Hf. Qed.

Lemma preserves_tryFlushing : preserves f (tryFlushing env context).
Proof.
  unfold tryFlushing, effects_send, effects_delayFlush, clearTimeout. frame Hf.
Qed.

Lemma preserves_dispatch ops : preserves f (dispatch env context ops).
Proof.
  unfold dispatch. apply preserves_bind; [frame Hf | intros _; apply preserves_tryFlushing].
Qed.

Lemma preserves_generateOpId : preserves f generateOpId.
Proof. unfold generateOpId, getConnectionId. frame Hf. Qed.

Lemma preserves_applyOp op source : preserves f (applyOp op source).
Proof. unfold applyOp. frame Hf. Qed.

Lemma preserves_apply_item item isLocal acc : preserves f (apply_item item isLocal acc).
Proof.
  unfold apply_item, apply_presence, apply_op, assign_opId, op_source, record_modified.
  destruct item as [op | data].
  - apply preserves_bind; [| intros [acc' op']; apply preserves_ret].
    apply preserves_bind.
    { destruct (not_truthy_string (Op.opId op)); [|apply preserves_ret].
      apply preserves_bind; [apply preserves_generateOpId | intros ?; apply preserves_ret]. }
    intros op1. apply preserves_bind.
    { destruct isLocal; [apply preserves_ret|].
      apply preserves_bind; [apply preserves_nn | intros opId].
      apply preserves_bind; [apply preserves_gets | intros offline].
      destruct (JsMap.delete offline opId). frame Hf. }
    intros source. apply preserves_bind; [apply preserves_applyOp | intros result].
    destruct result as [| modified engine_reverse]; [apply preserves_ret|].
    frame Hf.
  - frame Hf.
Qed.

Lemma preserves_apply_loop items isLocal acc : preserves f (apply_loop items isLocal acc).
Proof.
  revert acc. induction items as [|item rest IH]; intros acc; simpl.
  - apply preserves_ret.
  - apply preserves_bind; [apply preserves_apply_item | intros [acc1 item1]].
    apply preserves_bind; [apply IH | intros [acc2 rest2]; apply preserves_ret].
Qed.

Lemma preserves_apply item isLocal : preserves f (apply item isLocal).
Proof. apply preserves_apply_loop. Qed.
End BlindMachine.

(** The frame of a computation made of machine functions. *)
Ltac frame_machine Hf :=
  repeat first
    [ apply (preserves_apply _ Hf) | apply (preserves_notify _ Hf)
    | apply (preserves_tryFlushing _ Hf) | apply (preserves_onHistoryChange _ Hf)
    | apply (preserves_dispatch _ Hf) | frame_step Hf ].

(** ** Computations that cannot throw *)

Lemma returns_bind {A B} (c : M St A) (k : A -> M St B) :
  always_returns c -> (forall a, always_returns (k a)) -> always_returns (bind c k).
Proof.
  intros Hc Hk s. unfold bind. destruct (Hc s) as (a & s1 & ->). apply Hk.
Qed.

Lemma returns_for_each {A} (l : list A) (body : A -> M St unit) :
  (forall a, always_returns (body a)) -> always_returns (for_each l body).
Proof.
  intros Hbody. induction l as [|a l IH]; simpl.
  - intros s. eexists _, _. reflexivity.
  - apply returns_bind; [apply Hbody | intros _; exact IH].
Qed.

Lemma returns_when (b : bool) (c : M St unit) :
  always_returns c -> always_returns (when b c).
Proof. intros Hc. destruct b; [exact Hc|]. intros s. eexists _, _. reflexivity. Qed.

Ltac returns :=
  repeat first
    [ (intros ?s; eexists _, _; reflexivity)
    | apply returns_bind; [| intros ?]
    | apply returns_for_each; intros ?
    | apply returns_when
    | match goal with
      | |- always_returns (match ?x with _ => _ end) => destruct x
      end ].

Lemma notify_returns storageUpdates presence otherEvents :
  always_returns (notify storageUpdates presence otherEvents : M St unit).
Proof. unfold notify. returns. Qed.

Lemma onHistoryChange_returns : always_returns (onHistoryChange : M St unit).
Proof. unfold onHistoryChange, canUndo, canRedo. returns. Qed.

Lemma addToUndoStack_returns historyItem :
  always_returns (addToUndoStack historyItem : M St unit).
Proof.
  unfold addToUndoStack. apply returns_bind; [returns | intros _].
  apply returns_bind; [returns | intros paused]. destruct paused; [returns|].
  apply returns_bind; [returns | intros _; apply onHistoryChange_returns].
Qed.

(** ** Undo and redo while history is paused (C10) *)

Lemma undo_view_blind : io_blind (@undo_view LiveNode StorageUpdate).
Proof. constructor; reflexivity. Qed.

Lemma redo_view_blind : io_blind (@redo_view LiveNode StorageUpdate).
Proof. constructor; reflexivity. Qed.

Lemma undoStack_blind : io_blind (@State.undoStack LiveNode StorageUpdate).
Proof. constructor; reflexivity. Qed.

Lemma redoStack_blind : io_blind (@State.redoStack LiveNode StorageUpdate).
Proof. constructor; reflexivity. Qed.

Lemma batch_blind : io_blind (@State.batch LiveNode StorageUpdate).
Proof. constructor; reflexivity. Qed.

Lemma last_is_Some {A} (l : list A) : l <> [] -> exists a, last l = Some a.
Proof.
  intros Hl. destruct (last l) as [a|] eqn:E; [eauto|].
  apply last_None in E. contradiction.
Qed.

(** After its pop, [undo] leaves the undo stack, the pause flag and the
    paused items alone. *)
Lemma undo_view_after_pop (s : St) (item : HistoryItem) :
  State.isBatching s = false ->
  last (State.undoStack s) = Some item ->
  undo_view (final (undo env context s)) = undo_view (undo_popped s).
Proof.
  intros Hb Hlast. unfold undo. rewrite bind_gets, Hb, bind_gets, Hlast.
  rewrite bind_modify, bind_modify.
  fold (undo_popped s).
  match goal with
  | |- undo_view (final (?c ?s1)) = _ =>
      assert (Hrest : preserves undo_view c); [| exact (Hrest s1)]
  end.
  apply preserves_bind; [apply (preserves_apply _ undo_view_blind) | intros [result item']].
  frame_machine undo_view_blind.
Qed.

(** C10. With [isBatching] false, an [undo()] on a non-empty undo stack
    ends, whether it returns or throws, with [isHistoryPaused] false and
    [pausedHistory] as it was, and the undo stack is the old one less its
    last entry: the paused items were not moved onto it.  A [redo()] on a
    non-empty redo stack ends with [isHistoryPaused] false, [pausedHistory]
    as it was, the redo stack less its last entry, and an undo stack that
    gained the reverse entry [apply] returned and nothing else (nothing at
    all when [apply] threw). *)
Theorem undo_redo_leave_pausedHistory (s : St) :
  State.isBatching s = false ->
  (State.undoStack s <> [] ->
   let s' := final (undo env context s) in
   State.isHistoryPaused s' = false /\
   State.pausedHistory s' = State.pausedHistory s /\
   State.undoStack s' = removelast (State.undoStack s)) /\
  (forall historyItem,
   last (State.redoStack s) = Some historyItem ->
   let s' := final (redo env context s) in
   State.isHistoryPaused s' = false /\
   State.pausedHistory s' = State.pausedHistory s /\
   State.redoStack s' = removelast (State.redoStack s) /\
   State.undoStack s'
   = match apply historyItem true (redo_popped s) with
     | Returns (result, _) _ => (State.undoStack s ++ [reverse result])%list
     | Throws _ _ => State.undoStack s
     end).
Proof.
  intros Hb. split.
  - intros Hne s'. subst s'.
    destruct (last_is_Some _ Hne) as (item & Hlast).
    pose proof (undo_view_after_pop s item Hb Hlast) as Hview.
    unfold undo_view in Hview. simpl in Hview.
    injection Hview as Hu Hp Hh. auto.
  - intros item Hlast s'. subst s'.
    assert (Hrun : redo env context s
      = (let* '(result, historyItem) := apply item true in
         notify (storageUpdates result) (presence result) [] >>
         modify (fun s => State.with_undoStack (State.undoStack s ++ [reverse result]) s) >>
         onHistoryChange >>
         modify_buffer (fun b =>
           Buffer.with_storageOperations
             (Buffer.storageOperations b ++ storage_ops historyItem) b) >>
         tryFlushing env context) (redo_popped s)).
    { unfold redo. rewrite bind_gets, Hb, bind_gets, Hlast.
      rewrite bind_modify, bind_modify. reflexivity. }
    assert (Hview : redo_view (final (redo env context s)) = redo_view (redo_popped s)).
    { rewrite Hrun.
      match goal with
      | |- redo_view (final (?c ?s1)) = _ =>
          assert (Hrest : preserves redo_view c); [| exact (Hrest s1)]
      end.
      apply preserves_bind; [apply (preserves_apply _ redo_view_blind) | intros [result item']].
      frame_machine redo_view_blind. }
    unfold redo_view in Hview. simpl in Hview.
    injection Hview as Hr Hp Hh.
    split; [exact Hp|]. split; [exact Hh|]. split; [exact Hr|].
    rewrite Hrun. unfold bind at 1.
    pose proof (preserves_apply _ undoStack_blind item true (redo_popped s)) as Happly.
    destruct (apply item true (redo_popped s)) as [[result item'] s1 | e s1];
      simpl in Happly; [|exact Happly].
    unfold bind at 1.
    pose proof (preserves_notify _ undoStack_blind
                  (storageUpdates result) (presence result) [] s1) as Hnotify.
    destruct (notify_returns (storageUpdates result) (presence result) [] s1)
      as ([] & s2 & Hn).
    rewrite Hn in *. simpl in Hnotify. rewrite bind_modify.
    match goal with
    | |- State.undoStack (final (?c ?s3)) = _ =>
        assert (Hrest : preserves State.undoStack c) by frame_machine undoStack_blind;
        rewrite (Hrest s3)
    end.
    simpl. rewrite Hnotify, Happly. reflexivity.
Qed.

(** ** The redo stack after a local mutation (C2) *)

Lemma addToUndoStack_keeps_redoStack historyItem :
  preserves (@State.redoStack LiveNode StorageUpdate) (addToUndoStack historyItem).
Proof. unfold addToUndoStack. frame_machine redoStack_blind. Qed.

Lemma addToUndoStack_keeps_batch historyItem :
  preserves (@State.batch LiveNode StorageUpdate) (addToUndoStack historyItem).
Proof. unfold addToUndoStack. frame_machine batch_blind. Qed.

Lemma updatePresence_keeps_redoStack overrides options :
  preserves (@State.redoStack LiveNode StorageUpdate)
    (updatePresence env context overrides options).
Proof.
  unfold updatePresence, modify_batch.
  repeat first
    [ apply addToUndoStack_keeps_redoStack
    | apply (preserves_apply _ redoStack_blind) | apply (preserves_notify _ redoStack_blind)
    | apply (preserves_tryFlushing _ redoStack_blind)
    | frame_step redoStack_blind ].
Qed.

Lemma final_try_finally {A} (c : M St A) (h : M St unit) (s : St) :
  final (try_finally c h s) = final (h (final (c s))).
Proof.
  unfold try_finally. destruct (c s) as [a s1 | e s1]; simpl; destruct (h s1); reflexivity.
Qed.

(** C2, as amended. Outside a batch, a storage mutation that goes through
    [storageDispatch] leaves the redo stack empty; a batch at whose end
    [batch.ops] is not empty leaves the redo stack empty; [updatePresence],
    with or without [addToHistory], leaves the redo stack as it was. *)
Theorem redoStack_after_local_mutation (s : St) :
  State.isBatching s = false ->
  (forall ops reverse storageUpdates,
     State.redoStack (final (storageDispatch env context ops reverse storageUpdates s)) = []) /\
  (forall callback,
     Batch.ops (State.batch (final (callback (State.with_isBatching true s)))) <> [] ->
     State.redoStack (final (batch env context callback s)) = []) /\
  (forall overrides options,
     State.redoStack (final (updatePresence env context overrides options s))
     = State.redoStack s).
Proof.
  intros Hb. split; [|split].
  - intros ops rev_ops updates. unfold storageDispatch. rewrite bind_gets, Hb.
    unfold bind at 1.
    destruct (addToUndoStack_returns (map HOp rev_ops) s) as ([] & s1 & ->).
    rewrite bind_modify.
    match goal with
    | |- State.redoStack (final (?c ?s2)) = _ =>
        assert (Hrest : preserves State.redoStack c) by frame_machine redoStack_blind;
        rewrite (Hrest s2)
    end.
    reflexivity.
  - intros callback Hops. unfold batch. rewrite bind_gets, Hb, bind_modify.
    rewrite final_try_finally.
    remember (final (callback (State.with_isBatching true s))) as s1 eqn:Hs1.
    clear Hs1. unfold batch_finally. rewrite bind_modify, bind_assoc, bind_gets.
    assert (Hb2 : State.batch (State.with_isBatching false s1) = State.batch s1)
      by reflexivity.
    revert Hb2. generalize (State.with_isBatching false s1). intros s2 Hb2.
    assert (Hstep : exists s3,
      when (0 <? length (Batch.reverseOps (State.batch s2)))%nat
        (addToUndoStack (Batch.reverseOps (State.batch s2))) s2 = Returns tt s3 /\
      State.batch s3 = State.batch s2).
    { destruct (0 <? length (Batch.reverseOps (State.batch s2)))%nat; unfold when.
      - pose proof (addToUndoStack_keeps_batch (Batch.reverseOps (State.batch s2)) s2) as Hk.
        destruct (addToUndoStack_returns (Batch.reverseOps (State.batch s2)) s2)
          as ([] & s3 & Hrun).
        rewrite Hrun in Hk. exists s3. split; [exact Hrun | exact Hk].
      - exists s2. split; reflexivity. }
    destruct Hstep as (s3 & Hrun & Hbatch).
    unfold bind at 1. rewrite Hrun. rewrite bind_assoc, bind_gets, Hbatch, Hb2.
    destruct (Batch.ops (State.batch s1)) as [|op ops] eqn:Hbops; [contradiction|].
    change (0 <? length (op :: ops))%nat with true. unfold when at 1.
    rewrite bind_modify.
    match goal with
    | |- State.redoStack (final (?c ?s4)) = _ =>
        assert (Hrest : preserves State.redoStack c) by frame_machine redoStack_blind;
        rewrite (Hrest s4)
    end.
    reflexivity.
  - intros overrides options. apply updatePresence_keeps_redoStack.
Qed.

(** ** Reverse ops in the apply loop (C5) *)

Lemma bind_returns_inv {A B} (c : M St A) (k : A -> M St B) s b s' :
  bind c k s = Returns b s' ->
  exists a s1, c s = Returns a s1 /\ k a s1 = Returns b s'.
Proof.
  unfold bind. destruct (c s) as [a s1 | e s1]; [eauto | discriminate].
Qed.

Lemma nn_returns_inv {A} (v : option A) (message : string) (s : St) a s' :
  nn v message s = Returns a s' -> v = Some a /\ s' = s.
Proof. destruct v; simpl; unfold ret, throw; intros H0; inversion H0; auto. Qed.

(** The body of [if (applyOpResult.modified)].  When it returns: if the
    per-node storage update is not suppressed, the engine's reverse ops are
    put in front of the accumulated reverse list and the update is merged
    into [storageUpdates] at the node's id; if it is suppressed, the reverse
    list is left as it was, with the storage updates. *)
Lemma record_modified_reverse (op : Op.t) (modified : StorageUpdate)
    (engine_reverse : list Op.t) (acc acc' : ApplyLocals) (s s' : St) :
  record_modified op modified engine_reverse acc s = Returns acc' s' ->
  s' = s /\
  if update_suppressed modified (createdNodeIds acc) then
    reverse acc' = reverse acc /\ storageUpdates acc' = storageUpdates acc
  else
    reverse acc' = (map HOp engine_reverse ++ reverse acc)%list /\
    exists id,
      node__id (update_node modified) = Some id /\
      storageUpdates acc'
      = JsMap.set (storageUpdates acc) id
          (mergeStorageUpdates (JsMap.get (storageUpdates acc) id) modified).
Proof.
  unfold record_modified, update_suppressed. intros Hrun.
  apply bind_returns_inv in Hrun as (parentId & s1 & Hparent & Hrun).
  apply bind_returns_inv in Hrun as (acc1 & s2 & Hacc & Hrun).
  assert (Hlast : s' = s2 /\ reverse acc' = reverse acc1 /\
                  storageUpdates acc' = storageUpdates acc1).
  { destruct (is_create_with_children (Op.type op)).
    - apply bind_returns_inv in Hrun as (id & s3 & Hid & Hrun).
      apply nn_returns_inv in Hid as [_ ->]. inversion Hrun; subst. auto.
    - inversion Hrun; subst. auto. }
  destruct Hlast as (-> & -> & ->). clear Hrun.
  destruct (node_parent (update_node modified)) as [parent key|].
  - apply bind_returns_inv in Hparent as (p & s3 & Hp & Hret).
    apply nn_returns_inv in Hp as [Hp ->]. inversion Hret; subst. rewrite Hp.
    destruct (parent_not_created (Some p) (createdNodeIds acc)); simpl.
    + apply bind_returns_inv in Hacc as (id & s3 & Hid & Hret').
      apply nn_returns_inv in Hid as [Hid ->]. inversion Hret'; subst. simpl.
      split; [reflexivity|]. split; [reflexivity|]. exists id. auto.
    + inversion Hacc; subst. auto.
  - inversion Hparent; subst. simpl in Hacc.
    apply bind_returns_inv in Hacc as (id & s3 & Hid & Hret').
    apply nn_returns_inv in Hid as [Hid ->]. inversion Hret'; subst. simpl.
    split; [reflexivity|]. split; [reflexivity|]. exists id. auto.
Qed.

(** Either way the old reverse list is a suffix of the new one. *)
Lemma record_modified_grows (op : Op.t) (modified : StorageUpdate)
    (engine_reverse : list Op.t) (acc acc' : ApplyLocals) (s s' : St) :
  record_modified op modified engine_reverse acc s = Returns acc' s' ->
  exists added, reverse acc' = (added ++ reverse acc)%list.
Proof.
  unfold record_modified. intros Hrun.
  apply bind_returns_inv in Hrun as (parentId & s1 & Hparent & Hrun).
  apply bind_returns_inv in Hrun as (acc1 & s2 & Hacc & Hrun).
  assert (Hlast : reverse acc' = reverse acc1).
  { destruct (is_create_with_children (Op.type op)).
    - apply bind_returns_inv in Hrun as (id & s3 & Hid & Hrun).
      inversion Hrun; subst. reflexivity.
    - inversion Hrun; subst. reflexivity. }
  rewrite Hlast.
  destruct (parent_not_created parentId (createdNodeIds acc)).
  - apply bind_returns_inv in Hacc as (id & s3 & Hid & Hret).
    inversion Hret; subst. simpl. eauto.
  - inversion Hacc; subst. exists []. reflexivity.
Qed.

(** Over the whole loop the reverse list only grows at its front: what a
    later item adds comes before what an earlier item added. *)
Lemma apply_loop_unshifts (items : HistoryItem) (isLocal : bool) :
  forall acc s acc' items' s',
    apply_loop items isLocal acc s = Returns (acc', items') s' ->
    exists added, reverse acc' = (added ++ reverse acc)%list.
Proof.
  induction items as [|item rest IH]; intros acc s acc' items' s' Hrun; simpl in Hrun.
  - inversion Hrun; subst. exists []. reflexivity.
  - apply bind_returns_inv in Hrun as ([acc1 item1] & s1 & Hitem & Hrun).
    apply bind_returns_inv in Hrun as ([acc2 rest2] & s2 & Hrest & Hret).
    inversion Hret; subst.
    destruct (IH _ _ _ _ _ Hrest) as (added2 & Hadded2).
    assert (Hone : exists added1, reverse acc1 = (added1 ++ reverse acc)%list).
    { destruct item as [op | data]; simpl in Hitem.
      - apply bind_returns_inv in Hitem as ([acc0 op0] & s0 & Hop & Hret0).
        inversion Hret0; subst. unfold apply_op in Hop.
        apply bind_returns_inv in Hop as (op1 & s3 & _ & Hop).
        apply bind_returns_inv in Hop as (source & s4 & _ & Hop).
        apply bind_returns_inv in Hop as (result & s5 & _ & Hop).
        destruct result as [|modified engine_reverse].
        + inversion Hop; subst. exists []. reflexivity.
        + apply bind_returns_inv in Hop as (acc3 & s6 & Hrec & Hret1).
          inversion Hret1; subst.
          apply record_modified_grows in Hrec. exact Hrec.
      - apply bind_returns_inv in Hitem as (acc0 & s0 & Hpres & Hret0).
        inversion Hret0; subst. unfold apply_presence in Hpres.
        apply bind_returns_inv in Hpres as (me & s3 & _ & Hpres).
        apply bind_returns_inv in Hpres as (u1 & s4 & _ & Hpres).
        apply bind_returns_inv in Hpres as (u2 & s5 & _ & Hpres).
        inversion Hpres; subst. simpl.
        exists [HPresence (pick me data)]. reflexivity. }
    destruct Hone as (added1 & Hadded1).
    exists (added2 ++ added1)%list. rewrite Hadded2, Hadded1, app_assoc. reflexivity.
Qed.

(** [createdNodeIds] gets the id of the node a [CREATE_OBJECT],
    [CREATE_LIST] or [CREATE_MAP] op is reported to modify, suppressed or
    not. *)
Lemma record_modified_created (op : Op.t) (modified : StorageUpdate)
    (engine_reverse : list Op.t) (acc acc' : ApplyLocals) (s s' : St) :
  record_modified op modified engine_reverse acc s = Returns acc' s' ->
  createdNodeIds acc'
  = created_after op (Modified modified engine_reverse) (createdNodeIds acc) /\
  presence acc' = presence acc.
Proof.
  unfold record_modified, created_after. intros Hrun.
  apply bind_returns_inv in Hrun as (parentId & s1 & Hparent & Hrun).
  apply bind_returns_inv in Hrun as (acc1 & s2 & Hacc & Hrun).
  assert (Hacc1 : createdNodeIds acc1 = createdNodeIds acc /\ presence acc1 = presence acc).
  { destruct (parent_not_created parentId (createdNodeIds acc)).
    - apply bind_returns_inv in Hacc as (id & s3 & Hid & Hret).
      inversion Hret; subst. split; reflexivity.
    - inversion Hacc; subst. split; reflexivity. }
  destruct Hacc1 as [Hcreated Hpresence].
  destruct (is_create_with_children (Op.type op)).
  - apply bind_returns_inv in Hrun as (id & s3 & Hid & Hret).
    apply nn_returns_inv in Hid as [Hid ->]. inversion Hret; subst. simpl.
    rewrite Hid, Hcreated. split; [reflexivity | exact Hpresence].
  - inversion Hrun; subst. split; assumption.
Qed.

(** The body of the loop for an op, step by step. *)
Lemma apply_op_steps (op : Op.t) (isLocal : bool) (acc acc' : ApplyLocals) (op' : Op.t)
    (s s' : St) :
  apply_op op isLocal acc s = Returns (acc', op') s' ->
  exists s1 source s2 applyOpResult,
    assign_opId op s = Returns op' s1 /\
    op_source op' isLocal s1 = Returns source s2 /\
    applyOp op' source s2 = Returns applyOpResult s' /\
    reverse acc' = (reverse_added applyOpResult (createdNodeIds acc) ++ reverse acc)%list /\
    createdNodeIds acc' = created_after op' applyOpResult (createdNodeIds acc) /\
    storageUpdates acc'
    = updates_after applyOpResult (createdNodeIds acc) (storageUpdates acc) /\
    presence acc' = presence acc.
Proof.
  unfold apply_op. intros Hrun.
  apply bind_returns_inv in Hrun as (op1 & s1 & Hassign & Hrun).
  apply bind_returns_inv in Hrun as (source & s2 & Hsource & Hrun).
  apply bind_returns_inv in Hrun as (result & s3 & Happly & Hrun).
  destruct result as [|modified engine_reverse].
  - inversion Hrun; subst. exists s1, source, s2, NotModified.
    repeat (split; [assumption || reflexivity|]). reflexivity.
  - apply bind_returns_inv in Hrun as (acc1 & s4 & Hrec & Hret).
    inversion Hret; subst. clear Hret.
    destruct (record_modified_reverse _ _ _ _ _ _ _ Hrec) as (-> & Hreverse).
    destruct (record_modified_created _ _ _ _ _ _ _ Hrec) as (Hcreated & Hpresence).
    exists s1, source, s2, (Modified modified engine_reverse).
    split; [exact Hassign|]. split; [exact Hsource|]. split; [exact Happly|].
    unfold reverse_added, updates_after.
    destruct (update_suppressed modified (createdNodeIds acc)).
    + destruct Hreverse as [-> ->]. repeat (split; [assumption || reflexivity|]).
      exact Hpresence.
    + destruct Hreverse as (-> & id & -> & ->).
      repeat (split; [assumption || reflexivity|]). exact Hpresence.
Qed.

(** The loop over two lists, one after the other. *)
Lemma apply_loop_app_inv (l1 l2 : HistoryItem) (isLocal : bool) :
  forall acc s acc' items' s',
    apply_loop (l1 ++ l2) isLocal acc s = Returns (acc', items') s' ->
    exists acc1 l1' s1 l2',
      apply_loop l1 isLocal acc s = Returns (acc1, l1') s1 /\
      apply_loop l2 isLocal acc1 s1 = Returns (acc', l2') s' /\
      items' = (l1' ++ l2')%list.
Proof.
  induction l1 as [|item rest IH]; intros acc s acc' items' s' Hrun; simpl in Hrun.
  - exists acc, [], s, items'. repeat split. exact Hrun.
  - apply bind_returns_inv in Hrun as ([acc1 item1] & s1 & Hitem & Hrun).
    apply bind_returns_inv in Hrun as ([acc2 rest2] & s2 & Hrest & Hret).
    inversion Hret; subst. clear Hret.
    destruct (IH _ _ _ _ _ Hrest) as (acc3 & l1' & s3 & l2' & Hfirst & Hsecond & ->).
    exists acc3, (item1 :: l1'), s3, l2'. split; [|split; [exact Hsecond | reflexivity]].
    simpl. unfold bind at 1. rewrite Hitem. unfold bind at 1. rewrite Hfirst. reflexivity.
Qed.

Lemma apply_loop_app (l1 l2 : HistoryItem) (isLocal : bool) :
  forall acc s acc1 l1' s1 acc2 l2' s2,
    apply_loop l1 isLocal acc s = Returns (acc1, l1') s1 ->
    apply_loop l2 isLocal acc1 s1 = Returns (acc2, l2') s2 ->
    apply_loop (l1 ++ l2) isLocal acc s = Returns (acc2, (l1' ++ l2')%list) s2.
Proof.
  induction l1 as [|item rest IH]; intros acc s acc1 l1' s1 acc2 l2' s2 Hfirst Hsecond;
    simpl in Hfirst.
  - inversion Hfirst; subst. exact Hsecond.
  - apply bind_returns_inv in Hfirst as ([acc0 item0] & s0 & Hitem & Hfirst).
    apply bind_returns_inv in Hfirst as ([acc3 rest3] & s3 & Hrest & Hret).
    inversion Hret; subst. clear Hret.
    simpl. unfold bind at 1. rewrite Hitem. unfold bind at 1.
    rewrite (IH _ _ _ _ _ _ _ _ Hrest Hsecond). reflexivity.
Qed.

(** C5, as amended.  Take any op of the entry given to [apply], which
    returns.  [apply] went through the items before the op, gave the op its
    [opId] and its source, and asked the engine.  The reverse list it has
    after the op is what the op added, in front of the reverse list it had
    before: the engine's reverse ops, when the engine reports the op as
    modified and the per-node storage update is not suppressed, that is
    when the modified node has no parent or its parent's id is not in
    [createdNodeIds]; nothing, when the update is suppressed or the op is
    not reported as modified.  The storage updates go the same way, and
    [createdNodeIds] gets the id of the node that a [CREATE_OBJECT],
    [CREATE_LIST] or [CREATE_MAP] op is reported to modify.  The items after
    the op only add in front of that list. *)
Theorem apply_reverse_of_op (before after : HistoryItem) (op : Op.t) (isLocal : bool)
    (s : St) result entry' s' :
  apply (before ++ HOp op :: after) isLocal s = Returns (result, entry') s' ->
  exists locals before' s1 op' s2 source s3 applyOpResult s4 locals' front,
    apply before isLocal s = Returns (locals, before') s1 /\
    assign_opId op s1 = Returns op' s2 /\
    op_source op' isLocal s2 = Returns source s3 /\
    applyOp op' source s3 = Returns applyOpResult s4 /\
    apply (before ++ [HOp op]) isLocal s
    = Returns (locals', (before' ++ [HOp op'])%list) s4 /\
    reverse locals'
    = (reverse_added applyOpResult (createdNodeIds locals) ++ reverse locals)%list /\
    storageUpdates locals'
    = updates_after applyOpResult (createdNodeIds locals) (storageUpdates locals) /\
    createdNodeIds locals' = created_after op' applyOpResult (createdNodeIds locals) /\
    reverse result = (front ++ reverse locals')%list /\
    (after = [] -> result = locals').
Proof.
  unfold apply. intros Hrun.
  apply apply_loop_app_inv in Hrun
    as (locals & before' & s1 & rest' & Hbefore & Hrest & ->).
  simpl in Hrest.
  apply bind_returns_inv in Hrest as ([locals' item'] & s4 & Hitem & Hrest).
  apply bind_returns_inv in Hrest as ([acc2 after'] & s5 & Hafter & Hret).
  inversion Hret; subst. clear Hret. simpl in Hitem.
  apply bind_returns_inv in Hitem as ([acc0 op'] & s0 & Hop & Hret).
  inversion Hret; subst. clear Hret.
  destruct (apply_op_steps _ _ _ _ _ _ _ Hop)
    as (s2 & source & s3 & applyOpResult & Hassign & Hsource & Hengine & Hreverse &
        Hcreated & Hupdates & _).
  destruct (apply_loop_unshifts _ _ _ _ _ _ _ Hafter) as (front & Hfront).
  exists locals, before', s1, op', s2, source, s3, applyOpResult, s4, locals', front.
  split; [exact Hbefore|]. split; [exact Hassign|]. split; [exact Hsource|].
  split; [exact Hengine|]. split.
  { apply (apply_loop_app _ _ _ _ _ _ _ _ _ _ _ Hbefore).
    simpl. unfold bind at 1. simpl. unfold bind at 1. rewrite Hop. reflexivity. }
  split; [exact Hreverse|]. split; [exact Hupdates|]. split; [exact Hcreated|].
  split; [exact Hfront|].
  intros ->. simpl in Hafter. inversion Hafter; subst. reflexivity.
Qed.

(** ** The open handler on a first connection (C8) *)

(** C8. On a socket open in state [connecting] with [lastConnectionId]
    still [null] (no connection was open before), the test
    [lastConnectionId !== undefined] succeeds: the handler installs a full
    presence buffer holding [state.me] and goes on from there with a first
    [tryFlushing], exactly as on a reconnection. *)
Theorem onOpen_when_lastConnectionId_null (s : St) id userId userInfo :
  State.connection s = Connection.Connecting id userId userInfo ->
  State.lastConnectionId s = null ->
  exists s1,
    State.buffer s1 = State.buffer s /\ State.me s1 = State.me s /\
    State.lastConnectionId s1 = null /\
    State.connection s1 = Connection.Open id userId userInfo /\
    onOpen env context s
    = (tryFlushing env context >>
       modify (State.with_lastConnectionId (value id)) >>
       (let* root := gets State.root in
        when (match root with Some _ => true | None => false end)
          (modify_buffer (fun b =>
             Buffer.with_messages (Buffer.messages b ++ [FETCH_STORAGE]) b))) >>
       tryFlushing env context)
        (State.with_buffer
           (Buffer.with_presence
              (Some (PresenceBuffer.mk PresenceBuffer.full (State.me s) true))
              (State.buffer s)) s1).
Proof.
  intros Hc Hl. unfold onOpen, clearInterval, effects_startHeartbeatInterval.
  repeat mstep. simpl. rewrite Hc. repeat mstep. simpl. rewrite Hl.
  unfold strict_ne_undefined, when. repeat mstep.
  eexists. split; [|split; [|split; [|split]]]; cycle 4.
  - reflexivity.
  - reflexivity.
  - reflexivity.
  - simpl. exact Hl.
  - reflexivity.
Qed.

(** ** The cap of the undo stack (C1) *)

Lemma addToUndoStack_keeps_bound (historyItem : HistoryItem) :
  keeps history_bounded (addToUndoStack historyItem : M St unit).
Proof.
  intros s Hlen. unfold history_bounded in *. unfold addToUndoStack.
  rewrite bind_assoc, bind_gets.
  destruct (Nat.leb_spec 50 (length (State.undoStack s))) as [Hfull | Hroom]; unfold when.
  - rewrite bind_modify, bind_gets. simpl.
    destruct (State.isHistoryPaused s).
    + simpl. rewrite length_tl. lia.
    + rewrite bind_modify.
      rewrite (preserves_onHistoryChange _ undoStack_blind). simpl.
      rewrite length_app, length_tl. simpl. lia.
  - rewrite bind_ret, bind_gets.
    destruct (State.isHistoryPaused s).
    + simpl. lia.
    + rewrite bind_modify.
      rewrite (preserves_onHistoryChange _ undoStack_blind). simpl.
      rewrite length_app. simpl. lia.
Qed.

(** [addToUndoStack] keeps the undo stack within 50 entries: called on a
    stack of at most fifty, it leaves at most fifty, paused or not. *)
Theorem addToUndoStack_bound (historyItem : HistoryItem) (s : St) :
  (length (State.undoStack s) <= 50)%nat ->
  (length (State.undoStack (final (addToUndoStack historyItem s))) <= 50)%nat.
Proof. exact (addToUndoStack_keeps_bound historyItem s). Qed.

(** ** The history bound along a run *)

Lemma keeps_bind {A B} (P : St -> Prop) (c : M St A) (k : A -> M St B) :
  keeps P c -> (forall a, keeps P (k a)) -> keeps P (bind c k).
Proof.
  intros Hc Hk s HP. unfold bind. specialize (Hc s HP).
  destruct (c s) as [a s1 | e s1]; simpl in Hc; [apply Hk; exact Hc | exact Hc].
Qed.

Lemma keeps_when (P : St -> Prop) (b : bool) (c : M St unit) :
  keeps P c -> keeps P (when b c).
Proof. intros Hc. destruct b; [exact Hc | intros s HP; exact HP]. Qed.

Lemma keeps_for_each {A} (P : St -> Prop) (l : list A) (body : A -> M St unit) :
  (forall a, keeps P (body a)) -> keeps P (for_each l body).
Proof.
  intros Hbody. induction l as [|a l IH]; simpl.
  - intros s HP. exact HP.
  - apply keeps_bind; [apply Hbody | intros _; exact IH].
Qed.

Lemma bounded_of_preserves {A} (c : M St A) :
  preserves State.undoStack c -> keeps history_bounded c.
Proof. intros Hc s HP. unfold history_bounded. rewrite Hc. exact HP. Qed.

Lemma preserves_route_all {X} (f : St -> X) (Hf : io_blind f) messages updates :
  (forall v s, f (State.with_users v s) = f s) ->
  preserves f (route_all env context messages updates).
Proof.
  intros Husers. revert updates.
  induction messages as [|message rest IH]; intros updates; simpl.
  - apply preserves_ret.
  - apply preserves_bind; [| intros ?; apply IH].
    unfold route. destruct updates as [others storage].
    destruct message; unfold onUserJoinedMessage, onUpdatePresenceMessage,
      onEvent, onUserLeftMessage, onRoomStateMessage.
    all: repeat first
      [ apply (preserves_apply _ Hf) | apply (preserves_tryFlushing _ Hf)
      | apply preserves_modify; intros ?; apply Husers
      | frame_step Hf ].
Qed.

(** Everything but undo, redo, history and storage mutations leaves the
    undo stack alone. *)
Ltac undoStack_frame :=
  repeat first
    [ apply (preserves_apply _ undoStack_blind)
    | apply (preserves_notify _ undoStack_blind)
    | apply (preserves_tryFlushing _ undoStack_blind)
    | apply (preserves_onHistoryChange _ undoStack_blind)
    | apply (preserves_dispatch _ undoStack_blind)
    | apply (preserves_route_all _ undoStack_blind); reflexivity
    | frame_step undoStack_blind ].

Lemma connect_keeps_undoStack : preserves (@State.undoStack LiveNode StorageUpdate) (connect env context).
Proof.
  unfold connect, prepareAuthEndpoint, prepareCreateWebSocket, updateConnection,
    effects_authenticate.
  undoStack_frame.
Qed.

Lemma reconnect_keeps_undoStack : preserves (@State.undoStack LiveNode StorageUpdate) (reconnect env context).
Proof.
  unfold reconnect, drop_socket, updateConnection, clear_flush_if_set, clearTimeout,
    clearInterval.
  repeat first [ apply connect_keeps_undoStack | frame_step undoStack_blind ].
Qed.

Lemma heartbeat_keeps_undoStack : preserves (@State.undoStack LiveNode StorageUpdate) (heartbeat env).
Proof.
  unfold heartbeat, clearTimeout, effects_schedulePongTimeout. undoStack_frame.
Qed.

Lemma undo_keeps_bound :
  keeps history_bounded (undo env context : M St unit).
Proof.
  intros s HP. destruct (State.isBatching s) eqn:Hb.
  - unfold undo. rewrite bind_gets, Hb. exact HP.
  - destruct (last (State.undoStack s)) as [item|] eqn:Hlast.
    + pose proof (undo_view_after_pop s item Hb Hlast) as Hview.
      unfold undo_view in Hview. simpl in Hview. injection Hview as Hu _ _.
      unfold history_bounded in *. rewrite Hu.
      rewrite removelast_firstn_len, length_take. lia.
    + unfold undo. rewrite bind_gets, Hb, bind_gets, Hlast. exact HP.
Qed.

(** A call other than [redo] keeps the bound. *)
Lemma exec_call_keeps_bound (c : Call) :
  c <> call_redo -> keeps history_bounded (exec_call env context c).
Proof.
  intros Hc. destruct c; simpl; try contradiction.
  - apply bounded_of_preserves.
    apply preserves_bind; [apply connect_keeps_undoStack | intros ?; apply preserves_ret].
  - apply bounded_of_preserves.
    unfold disconnect, drop_socket, updateConnection, clear_flush_if_set, clearTimeout,
      clearInterval, clearListeners.
    undoStack_frame.
  - unfold updatePresence, modify_batch.
    repeat first
      [ apply addToUndoStack_keeps_bound
      | (apply bounded_of_preserves; solve [undoStack_frame])
      | apply keeps_bind; [| intros ?]
      | apply keeps_when
      | match goal with
        | |- keeps _ (match ?x with _ => _ end) => destruct x
        end ].
  - apply bounded_of_preserves. unfold broadcastEvent. undoStack_frame.
  - apply undo_keeps_bound.
  - apply bounded_of_preserves. unfold pauseHistory. undoStack_frame.
  - unfold resumeHistory.
    repeat first
      [ apply addToUndoStack_keeps_bound
      | (apply bounded_of_preserves; solve [undoStack_frame])
      | apply keeps_bind; [| intros ?]
      | apply keeps_when ].
  - unfold storageDispatch, modify_batch.
    repeat first
      [ apply addToUndoStack_keeps_bound
      | (apply bounded_of_preserves; solve [undoStack_frame])
      | apply keeps_bind; [| intros ?]
      | apply keeps_when
      | match goal with
        | |- keeps _ (match ?x with _ => _ end) => destruct x
        end ].
  - apply bounded_of_preserves. unfold authenticationSuccess, updateConnection.
    undoStack_frame.
  - apply bounded_of_preserves.
    unfold authenticationFailure, updateConnection, getRetryDelay,
      effects_scheduleReconnect.
    undoStack_frame.
  - apply bounded_of_preserves.
    unfold onOpen, updateConnection, clearInterval, effects_startHeartbeatInterval.
    undoStack_frame.
  - apply bounded_of_preserves.
    unfold onClose, updateConnection, clear_flush_if_set, clearTimeout, clearInterval,
      getRetryDelay, effects_scheduleReconnect.
    undoStack_frame.
  - apply bounded_of_preserves. unfold onMessage, clearTimeout. undoStack_frame.
  - apply bounded_of_preserves. apply heartbeat_keeps_undoStack.
  - apply bounded_of_preserves. apply reconnect_keeps_undoStack.
  - apply bounded_of_preserves. unfold onNavigatorOnline.
    repeat first [ apply reconnect_keeps_undoStack | frame_step undoStack_blind ].
  - apply bounded_of_preserves. unfold onVisibilityChange.
    repeat first [ apply heartbeat_keeps_undoStack | frame_step undoStack_blind ].
  - apply bounded_of_preserves. undoStack_frame.
  - apply bounded_of_preserves. unfold simulateSocketClose. undoStack_frame.
  - apply bounded_of_preserves. apply preserves_modify. intros s.
    destruct (State.socket s); reflexivity.
  - apply bounded_of_preserves. apply preserves_throw.
Qed.
Lemma isBatching_blind : io_blind (@State.isBatching LiveNode StorageUpdate).
Proof. constructor; reflexivity. Qed.

(** No call writes [isBatching]: only [batch] does. *)
Lemma exec_call_keeps_isBatching (c : Call) :
  preserves State.isBatching (exec_call env context c).
Proof.
  destruct c; simpl;
    unfold connect, prepareAuthEndpoint, prepareCreateWebSocket, updateConnection,
      effects_authenticate, disconnect, drop_socket, clear_flush_if_set, clearTimeout,
      clearInterval, clearListeners, updatePresence, modify_batch, broadcastEvent,
      undo, redo, pauseHistory, resumeHistory, addToUndoStack, storageDispatch,
      authenticationSuccess, authenticationFailure, getRetryDelay,
      effects_scheduleReconnect, onOpen, effects_startHeartbeatInterval, onClose,
      onMessage, pongTimeout, onNavigatorOnline, onVisibilityChange, reconnect,
      heartbeat, effects_schedulePongTimeout, simulateSocketClose, connect,
      prepareAuthEndpoint, prepareCreateWebSocket, updateConnection, drop_socket,
      effects_authenticate, clear_flush_if_set, clearTimeout, clearInterval.
  all: try solve
    [ repeat first
        [ apply (preserves_apply _ isBatching_blind)
        | apply (preserves_notify _ isBatching_blind)
        | apply (preserves_tryFlushing _ isBatching_blind)
        | apply (preserves_onHistoryChange _ isBatching_blind)
        | apply (preserves_dispatch _ isBatching_blind)
        | apply (preserves_route_all _ isBatching_blind); reflexivity
        | frame_step isBatching_blind ] ].
  apply preserves_modify. intros s. destruct (State.socket s); reflexivity.
Qed.

Lemma redo_throws_in_batch (s : St) :
  State.isBatching s = true ->
  redo env context s = Throws "redo is not allowed during a batch" s.
Proof. intros Hb. unfold redo. rewrite bind_gets, Hb. reflexivity. Qed.

Lemma exec_call_keeps_in_batch (c : Call) : keeps in_batch (exec_call env context c).
Proof.
  intros s [Hbound Hbatch]. split.
  - destruct c; try (apply exec_call_keeps_bound; [discriminate | exact Hbound]).
    simpl. rewrite redo_throws_in_batch by exact Hbatch. exact Hbound.
  - rewrite exec_call_keeps_isBatching. exact Hbatch.
Qed.

Lemma batch_finally_keeps_bound :
  keeps history_bounded (batch_finally env context : M St unit).
Proof.
  unfold batch_finally.
  repeat first
    [ apply addToUndoStack_keeps_bound
    | (apply bounded_of_preserves; solve [undoStack_frame])
    | apply keeps_bind; [| intros ?]
    | apply keeps_when ].
Qed.

Lemma exec_keeps_bound (c : TopCall) :
  c <> top call_redo -> keeps history_bounded (exec env context c).
Proof.
  intros Hc. destruct c as [c | callback]; simpl.
  - apply exec_call_keeps_bound. congruence.
  - intros s Hbound. unfold batch. rewrite bind_gets.
    destruct (State.isBatching s); [exact Hbound|].
    rewrite bind_modify, final_try_finally.
    apply batch_finally_keeps_bound.
    apply (keeps_for_each in_batch callback (exec_call env context)
             exec_call_keeps_in_batch).
    split; [exact Hbound | reflexivity].
Qed.

(** The history bound holds along every run in which [redo] is not called
    (outside a batch; inside one it throws): whatever the user, the socket
    and the timers do, [undoStack.length <= 50] is kept. *)
Theorem history_bound_without_redo (calls : list TopCall) (s : St) :
  Forall (fun c => c <> top call_redo) calls ->
  history_bounded s ->
  history_bounded (run env context calls s).
Proof.
  intros Hcalls. revert s. induction Hcalls as [|c calls Hc _ IH]; intros s Hbound; simpl.
  - exact Hbound.
  - apply IH. apply exec_keeps_bound; assumption.
Qed.

(** * More of the machine *)

(** ** Frames for any view

    The frame of a computation for a view that is any function of the
    state: a primitive passes when the view of the state it leaves is, by
    computation, the view of the state it found. *)
Ltac view_step :=
  lazymatch goal with
  | |- preserves _ (bind _ _) => apply preserves_bind; [| intros ?]
  | |- preserves _ (for_each _ _) => apply preserves_for_each; intros ?
  | |- preserves _ (when _ _) => apply preserves_when
  | |- preserves _ (nn _ _) => apply preserves_nn
  | |- preserves _ (match ?x with _ => _ end) => destruct x
  | |- preserves _ (call_node ?m) =>
      let s := fresh "s" in
      intros s; unfold call_node; destruct (m (State.items s)); reflexivity
  | |- preserves _ _ => solve [intros ?; reflexivity]
  end.

Ltac view_frame := repeat view_step.

(** ** Retry delays *)

(** [getRetryDelay] returns, for every number of retries, an entry of its
    table: between 250 and 10000 ms on the fast schedule, between 2000 and
    300000 ms on the slow one, and never less than after fewer retries. *)
Theorem getRetryDelay_bounds (slow : bool) (s : St) :
  exists delay,
    getRetryDelay slow s = Returns delay s /\
    In delay (if slow then BACKOFF_RETRY_DELAYS_SLOW else BACKOFF_RETRY_DELAYS) /\
    (if slow then 2000 <= delay <= 300000 else 250 <= delay <= 10000) /\
    forall (s2 : St) delay2,
      (State.numberOfRetry s <= State.numberOfRetry s2)%nat ->
      getRetryDelay slow s2 = Returns delay2 s2 ->
      delay <= delay2.
Proof.
  exists (backoff (if slow then BACKOFF_RETRY_DELAYS_SLOW else BACKOFF_RETRY_DELAYS)
            (State.numberOfRetry s)).
  split; [apply getRetryDelay_run|].
  split; [|split].
  - generalize (State.numberOfRetry s) as n. intros n.
    destruct slow; do 8 (try destruct n as [|n]); cbn; auto 10.
  - generalize (State.numberOfRetry s) as n. intros n.
    destruct slow; do 8 (try destruct n as [|n]); cbn; lia.
  - intros s2 delay2 Hle Hrun. rewrite getRetryDelay_run in Hrun.
    assert (Hd : delay2
                 = backoff (if slow then BACKOFF_RETRY_DELAYS_SLOW else BACKOFF_RETRY_DELAYS)
                     (State.numberOfRetry s2)) by congruence.
    rewrite Hd. clear Hd Hrun. revert Hle.
    generalize (State.numberOfRetry s) as n. generalize (State.numberOfRetry s2) as m.
    intros m n Hle.
    destruct slow; do 8 (try destruct n as [|n]); do 8 (try destruct m as [|m]);
      cbn; lia.
Qed.

(** ** After a failed authentication *)

(** [authenticationFailure] forgets the token, makes the connection
    [unavailable], counts one more retry and schedules one reconnect on the
    fast schedule, at the delay of the new count: 500 ms after a first
    failure, where a first close of the socket waits 250 ms. *)
Theorem authenticationFailure_backs_off (s : St) :
  exists s',
    authenticationFailure env s = Returns tt s' /\
    State.connection s' = Connection.Unavailable /\
    State.token s' = None /\
    State.numberOfRetry s' = S (State.numberOfRetry s) /\
    State.trace s'
    = (State.trace s ++ connection_calls s Connection.unavailable
       ++ [Effect.scheduleReconnect
             (backoff BACKOFF_RETRY_DELAYS (S (State.numberOfRetry s)))])%list /\
    TimeoutHandles.reconnect (State.timeoutHandles s')
    = Env.timer_handle env (State.env_tick s).
Proof.
  unfold authenticationFailure, effects_scheduleReconnect, modify_timeoutHandles.
  repeat mstep. eexists. split; [reflexivity|]. simpl.
  rewrite <- app_assoc. repeat split.
Qed.

(** ** Reconnecting and disconnecting *)

Lemma prepare_succeeds_uniformly :
  no_dom_and_no env (context_fetch context) = false ->
  no_dom_and_no env (context_WebSocket context) = false ->
  exists auth createWebSocket,
    forall s : St,
      prepareAuthEndpoint env (Context.authentication context) (context_fetch context) s
      = Returns auth s /\
      prepareCreateWebSocket env (Context.liveblocksServer context)
        (context_WebSocket context) s
      = Returns createWebSocket s.
Proof.
  intros Hf Hw. unfold prepareAuthEndpoint, prepareCreateWebSocket.
  rewrite Hw. destruct (Context.authentication context); rewrite ?Hf; eauto.
Qed.

Lemma connect_proceeds :
  no_dom_and_no env (context_fetch context) = false ->
  no_dom_and_no env (context_WebSocket context) = false ->
  exists auth createWebSocket,
    forall s : St,
      may_connect s ->
      connect env context s
      = Returns None
          (State.with_trace
             ((State.trace s ++ connection_calls s Connection.authenticating)
              ++ [Effect.authenticate auth createWebSocket])
             (State.with_connection Connection.Authenticating s)).
Proof.
  intros Hf Hw.
  destruct (prepare_succeeds_uniformly Hf Hw) as (auth & createWebSocket & Hprep).
  exists auth, createWebSocket. intros s Hc.
  destruct (Hprep s) as [Ha Hs].
  unfold connect. rewrite bind_gets.
  assert (Hgo :
    forall k1 k2 : M St (option unit),
      match Connection.state (State.connection s) with
      | Connection.closed | Connection.unavailable => k1
      | _ => k2
      end = k1) by (intros; destruct Hc as [-> | ->]; reflexivity).
  rewrite Hgo.
  unfold bind at 1. rewrite Ha. unfold bind at 1. rewrite Hs.
  rewrite bind_updateConnection. unfold effects_authenticate. rewrite bind_emit.
  reflexivity.
Qed.

(** Wherever the machine stands, [reconnect] reaches its call of
    [effects.authenticate] with the socket dropped and the connection
    [authenticating], on a host where the auth endpoint and the socket
    factory can be prepared. *)
Lemma reconnect_calls_authenticate :
  no_dom_and_no env (context_fetch context) = false ->
  no_dom_and_no env (context_WebSocket context) = false ->
  exists auth createWebSocket,
    forall s : St,
    exists s',
      reconnect env context s = Returns tt s' /\
      State.connection s' = Connection.Authenticating /\
      State.socket s' = None /\
      State.token s' = State.token s /\
      last (State.trace s') = Some (Effect.authenticate auth createWebSocket) /\
      history_view s' = history_view s.
Proof.
  intros Hf Hw.
  destruct (connect_proceeds Hf Hw) as (auth & createWebSocket & Hconnect).
  exists auth, createWebSocket. intros s.
  unfold reconnect, drop_socket, clear_flush_if_set, clearTimeout, clearInterval.
  rewrite bind_assoc, bind_gets.
  destruct (State.socket s) as [w|] eqn:Hsock;
    repeat mstep; simpl;
    destruct (truthy_handle (TimeoutHandles.flush (State.timeoutHandles s)));
    repeat mstep; simpl;
    (unfold bind at 1; rewrite Hconnect by (right; reflexivity));
    (eexists; split; [reflexivity|]); simpl;
    rewrite last_snoc; repeat split; exact Hsock.
Qed.

Lemma default_authenticate_run parseRoomAuthToken isTokenExpired createWebSocket (s : St) :
  exists s',
    default_authenticate parseRoomAuthToken isTokenExpired createWebSocket s
    = Returns tt s' /\
    history_view s' = history_view s /\
    match State.token s with
    | Some rawToken =>
        if isTokenExpired (parseRoomAuthToken rawToken) then s' = s
        else
          State.connection s'
          = Connection.Connecting (token_actor (parseRoomAuthToken rawToken))
              (token_id (parseRoomAuthToken rawToken))
              (token_info (parseRoomAuthToken rawToken)) /\
          State.socket s' = Some (createWebSocket rawToken)
    | None => s' = s
    end.
Proof.
  unfold default_authenticate. rewrite bind_gets.
  destruct (State.token s) as [rawToken|]; [|exists s; repeat split].
  destruct (isTokenExpired (parseRoomAuthToken rawToken)); simpl;
    [exists s; repeat split|].
  unfold authenticationSuccess. repeat (mstep; simpl).
  unfold modify. eexists. split; [reflexivity|]. repeat split.
Qed.

(** Wherever the machine stands, [reconnect] (and so [pongTimeout], which
    is a call of it) reaches its call of [effects.authenticate] with the
    socket dropped, the connection [authenticating] and the token, the
    presence and the history untouched, on a host where the auth endpoint
    and the socket factory can be prepared: that is the state it returns in
    when the effect does not call back.  The default effect, run in that
    state, returns at once: with a token that has not expired it has made
    the socket and called [authenticationSuccess], so that the machine is
    [connecting] with the new socket; with no token or an expired one the
    machine stays [authenticating] without a socket. *)
Theorem reconnect_then_authenticate (parseRoomAuthToken : string -> RoomAuthToken)
    (isTokenExpired : RoomAuthToken -> bool)
    (new_socket : SocketFactory.t -> string -> WebSocket.t) :
  no_dom_and_no env (context_fetch context) = false ->
  no_dom_and_no env (context_WebSocket context) = false ->
  exists auth createWebSocket,
    forall s : St,
    exists s1 s2,
      reconnect env context s = Returns tt s1 /\
      State.connection s1 = Connection.Authenticating /\
      State.socket s1 = None /\
      State.token s1 = State.token s /\
      last (State.trace s1) = Some (Effect.authenticate auth createWebSocket) /\
      history_view s1 = history_view s /\
      default_authenticate parseRoomAuthToken isTokenExpired (new_socket createWebSocket) s1
      = Returns tt s2 /\
      history_view s2 = history_view s /\
      match State.token s with
      | Some rawToken =>
          if isTokenExpired (parseRoomAuthToken rawToken) then s2 = s1
          else
            State.connection s2
            = Connection.Connecting (token_actor (parseRoomAuthToken rawToken))
                (token_id (parseRoomAuthToken rawToken))
                (token_info (parseRoomAuthToken rawToken)) /\
            State.socket s2 = Some (new_socket createWebSocket rawToken)
      | None => s2 = s1
      end.
Proof.
  intros Hf Hw.
  destruct (reconnect_calls_authenticate Hf Hw) as (auth & createWebSocket & Hreconnect).
  exists auth, createWebSocket. intros s.
  destruct (Hreconnect s) as (s1 & Hrun & Hconnection & Hsocket & Htoken & Hlast & Hview).
  destruct (default_authenticate_run parseRoomAuthToken isTokenExpired
              (new_socket createWebSocket) s1) as (s2 & Hdefault & Hview2 & Hafter).
  exists s1, s2. rewrite Htoken in Hafter. rewrite Hview in Hview2.
  repeat (split; [assumption|]). exact Hafter.
Qed.

Lemma bind_notify_one_other {B} (event : OthersEvent) (k : unit -> M St B) (s : St) :
  bind (notify [] false [event]) k s
  = k tt
      (State.with_trace
         (State.trace s ++
          map (fun l => Effect.call_others l (makeOthers (State.users s)) event)
              (Listeners.others (State.listeners s)))
         (State.with_others (makeOthers (State.users s)) s)).
Proof. unfold bind at 1. rewrite notify_one_other. reflexivity. Qed.

(** [disconnect] returns from every state and leaves the connection
    [closed], no socket, no users, the empty view of the others and no
    listener; the others listeners it found were told of the reset, with
    the empty view, before they were dropped.  Presence and history are not
    touched, and a [connect] can follow. *)
Theorem disconnect_resets (s : St) :
  exists s',
    disconnect s = Returns tt s' /\
    State.connection s' = Connection.Closed /\
    State.socket s' = None /\
    State.users s' = ∅ /\
    State.others s' = makeOthers ∅ /\
    State.listeners s' = Listeners.empty /\
    (exists before,
       State.trace s'
       = (State.trace s ++ before
          ++ map (fun l => Effect.call_others l (makeOthers ∅) OE_reset)
                 (Listeners.others (State.listeners s)))%list) /\
    history_view s' = history_view s /\
    may_connect s'.
Proof.
  unfold disconnect, drop_socket, clear_flush_if_set, clearTimeout, clearInterval,
    clearListeners.
  rewrite bind_assoc, bind_gets.
  destruct (State.socket s) as [w|] eqn:Hsock.
  all: repeat (mstep; simpl).
  all: destruct (truthy_handle (TimeoutHandles.flush (State.timeoutHandles s))).
  all: repeat (mstep; simpl).
  all: rewrite bind_notify_one_other; unfold modify.
  all: eexists; split; [reflexivity|].
  all: split; [reflexivity|].
  all: split; [first [reflexivity | exact Hsock]|].
  all: split; [reflexivity|].
  all: split; [reflexivity|].
  all: split; [reflexivity|].
  all: split; [|split; [reflexivity | left; reflexivity]].
  all: simpl.
  all: match goal with
       | |- exists before, (?X ++ ?M)%list = _ =>
           assert (Hpre : State.trace s `prefix_of` X)
             by (repeat apply prefix_app_r; reflexivity);
           destruct Hpre as (k & Hk); exists k;
           rewrite app_assoc, <- Hk; reflexivity
       end.
Qed.

(** ** Presence objects *)

Lemma js_get_spread (a b : JsonObject) (k : string) :
  js_get (spread a b) k
  = match b !! k with
    | Some v => v
    | None => js_get a k
    end.
Proof.
  unfold js_get, spread. rewrite lookup_union.
  destruct (b !! k) as [v|]; destruct (a !! k); reflexivity.
Qed.

Lemma pick_lookup (me data : JsonObject) (k : string) :
  pick me data !! k
  = match data !! k with
    | Some _ => Some (js_get me k)
    | None => None
    end.
Proof. unfold pick. rewrite map_lookup_imap. destruct (data !! k); reflexivity. Qed.

(** [pick] reads [me] through [me[key]] only. *)
Lemma pick_ext (a b data : JsonObject) :
  same_presence a b -> pick a data = pick b data.
Proof.
  intros Hab. apply map_eq. intros k. rewrite !pick_lookup, (Hab k). reflexivity.
Qed.

(** Writing back what [pick] saved brings every saved key back. *)
Lemma js_get_spread_pick (x me data : JsonObject) (k : string) :
  js_get (spread x (pick me data)) k
  = match data !! k with
    | Some _ => js_get me k
    | None => js_get x k
    end.
Proof. rewrite js_get_spread, pick_lookup. destruct (data !! k); reflexivity. Qed.

(** Saving, from an object that [data] was written to, the keys that were
    saved before the write gives [data] back. *)
Lemma pick_pick (x me data : JsonObject) :
  same_presence x (spread me data) -> pick x (pick me data) = data.
Proof.
  intros Hx. apply map_eq. intros k.
  rewrite pick_lookup, pick_lookup, (Hx k), js_get_spread.
  destruct (data !! k); reflexivity.
Qed.

Lemma defined_keys_all (o : JsonObject) : all_defined o -> defined_keys o = o.
Proof.
  intros Hall. unfold defined_keys. apply map_filter_id.
  intros k v Hk. exact (Hall k v Hk).
Qed.

Lemma replay_app (a b : list JsonObject) (me : JsonObject) :
  replay (a ++ b) me = replay b (replay a me).
Proof. unfold replay. apply fold_left_app. Qed.

Lemma reverses_app (a b : list JsonObject) (me : JsonObject) :
  reverses (a ++ b) me = (reverses b (replay a me) ++ reverses a me)%list.
Proof.
  revert me. induction a as [|d a IH]; intros me; simpl.
  - rewrite app_nil_r. reflexivity.
  - rewrite IH, app_assoc. reflexivity.
Qed.

(** Replaying the reverse items undoes the replay of the items. *)
Lemma replay_reverses (ds : list JsonObject) (me : JsonObject) :
  same_presence (replay (reverses ds me) (replay ds me)) me.
Proof.
  revert me. induction ds as [|d ds IH]; intros me k; simpl.
  - reflexivity.
  - rewrite replay_app. simpl. rewrite js_get_spread_pick.
    change (fold_left spread ds (spread me d)) with (replay ds (spread me d)).
    rewrite (IH (spread me d) k), js_get_spread.
    destruct (d !! k); reflexivity.
Qed.

(** The reverse items of the reverse items are the items. *)
Lemma reverses_reverses (ds : list JsonObject) (me : JsonObject) :
  reverses (reverses ds me) (replay ds me) = ds.
Proof.
  revert me. induction ds as [|d ds IH]; intros me; simpl.
  - reflexivity.
  - change (fold_left spread ds (spread me d)) with (replay ds (spread me d)).
    rewrite reverses_app. simpl. rewrite IH.
    rewrite (pick_pick _ me d); [reflexivity|].
    apply replay_reverses.
Qed.

(** ** Presence items through [apply], [undo] and [redo] *)

Lemma preserves_history_notify storageUpdates presence otherEvents :
  preserves history_view (notify storageUpdates presence otherEvents : M St unit).
Proof. unfold notify. view_frame. Qed.

Lemma preserves_history_onHistoryChange :
  preserves history_view (onHistoryChange : M St unit).
Proof. unfold onHistoryChange, canUndo, canRedo. view_frame. Qed.

Lemma preserves_history_tryFlushing :
  preserves (@history_view LiveNode StorageUpdate) (tryFlushing env context).
Proof.
  unfold tryFlushing, effects_send, effects_delayFlush, clearTimeout,
    modify_timeoutHandles, modify_buffer.
  view_frame.
Qed.

(** The loop of [apply] over presence items: it returns, [state.me] is the
    replay of the items, the reverse list gains their reverse items, and
    the history is not touched. *)
Lemma apply_loop_presence (ds : list JsonObject) (isLocal : bool) :
  forall (acc : ApplyLocals) (s : St),
  exists acc' s',
    apply_loop (map HPresence ds) isLocal acc s = Returns (acc', map HPresence ds) s' /\
    reverse acc' = (map HPresence (reverses ds (State.me s)) ++ reverse acc)%list /\
    history_view s'
    = (replay ds (State.me s), State.undoStack s, State.redoStack s,
       State.isHistoryPaused s, State.pausedHistory s, State.isBatching s).
Proof.
  induction ds as [|d ds IH]; intros acc s; simpl.
  - eexists _, _. split; [reflexivity|]. split; reflexivity.
  - unfold apply_presence, modify_buffer. repeat mstep.
    match goal with
    | |- context [bind (apply_loop _ _ ?acc1) _ ?s1] =>
        destruct (IH acc1 s1) as (acc' & s' & Hrun & Hrev & Hview)
    end.
    unfold bind at 1. rewrite Hrun.
    exists acc', s'. split; [reflexivity|]. split.
    + rewrite Hrev. simpl. rewrite map_app, <- app_assoc. reflexivity.
    + exact Hview.
Qed.

(** [undo] of an entry made of presence items. *)
Lemma undo_presence_entry (ds : list JsonObject) (s : St) :
  State.isBatching s = false ->
  last (State.undoStack s) = Some (map HPresence ds) ->
  history_view (final (undo env context s))
  = (replay ds (State.me s), removelast (State.undoStack s),
     (State.redoStack s ++ [map HPresence (reverses ds (State.me s))])%list,
     false, State.pausedHistory s, false).
Proof.
  intros Hb Hlast. unfold undo. rewrite bind_gets, Hb, bind_gets, Hlast.
  rewrite bind_modify, bind_modify. unfold apply, bind at 1.
  match goal with
  | |- context [apply_loop _ _ ?acc1 ?s1] =>
      destruct (apply_loop_presence ds true acc1 s1) as (acc' & s' & Hrun & Hrev & Hview)
  end.
  rewrite Hrun. unfold bind at 1.
  pose proof (preserves_history_notify (storageUpdates acc') (presence acc') [] s') as Hn.
  destruct (notify_returns (storageUpdates acc') (presence acc') [] s') as ([] & s2 & Hnotify).
  rewrite Hnotify in *. simpl in Hn. rewrite bind_modify.
  match goal with
  | |- history_view (final (?c ?s3)) = _ =>
      assert (Hrest : preserves history_view c);
      [| rewrite (Hrest s3)]
  end.
  { apply preserves_bind; [apply preserves_history_onHistoryChange | intros _].
    apply preserves_bind; [view_frame | intros _; apply preserves_history_tryFlushing]. }
  unfold history_view in *. simpl in *.
  injection Hn as Hme Hu Hr Hp Hh Hi. injection Hview as Hme' Hu' Hr' Hp' Hh' Hi'.
  rewrite Hme, Hme', Hr, Hr', Hrev, app_nil_r. simpl.
  rewrite Hu, Hu', Hp, Hp', Hh, Hh', Hi, Hi', Hb. reflexivity.
Qed.

(** [redo] of an entry made of presence items. *)
Lemma redo_presence_entry (ds : list JsonObject) (s : St) :
  State.isBatching s = false ->
  last (State.redoStack s) = Some (map HPresence ds) ->
  history_view (final (redo env context s))
  = (replay ds (State.me s),
     (State.undoStack s ++ [map HPresence (reverses ds (State.me s))])%list,
     removelast (State.redoStack s),
     false, State.pausedHistory s, false).
Proof.
  intros Hb Hlast. unfold redo. rewrite bind_gets, Hb, bind_gets, Hlast.
  rewrite bind_modify, bind_modify. unfold apply, bind at 1.
  match goal with
  | |- context [apply_loop _ _ ?acc1 ?s1] =>
      destruct (apply_loop_presence ds true acc1 s1) as (acc' & s' & Hrun & Hrev & Hview)
  end.
  rewrite Hrun. unfold bind at 1.
  pose proof (preserves_history_notify (storageUpdates acc') (presence acc') [] s') as Hn.
  destruct (notify_returns (storageUpdates acc') (presence acc') [] s') as ([] & s2 & Hnotify).
  rewrite Hnotify in *. simpl in Hn. rewrite bind_modify.
  match goal with
  | |- history_view (final (?c ?s3)) = _ =>
      assert (Hrest : preserves history_view c);
      [| rewrite (Hrest s3)]
  end.
  { apply preserves_bind; [apply preserves_history_onHistoryChange | intros _].
    apply preserves_bind; [view_frame | intros _; apply preserves_history_tryFlushing]. }
  unfold history_view in *. simpl in *.
  injection Hn as Hme Hu Hr Hp Hh Hi. injection Hview as Hme' Hu' Hr' Hp' Hh' Hi'.
  rewrite Hme, Hme', Hu, Hu', Hrev, app_nil_r. simpl.
  rewrite Hr, Hr', Hp, Hp', Hh, Hh', Hi, Hi', Hb. reflexivity.
Qed.

Lemma removelast_snoc_last {A} (l : list A) (a : A) :
  last l = Some a -> (removelast l ++ [a])%list = l.
Proof.
  induction l as [|x l IH]; intros Hlast; [discriminate|].
  destruct l as [|y l].
  - simpl in *. congruence.
  - change (x :: (removelast (y :: l) ++ [a]) = x :: y :: l)%list.
    f_equal. apply IH. exact Hlast.
Qed.

(** An [undo] followed by a [redo], on an entry made of presence items
    (what [updatePresence] with [addToHistory] records, alone or grouped by
    a pause or a batch): the presence reads as before the [undo], and both
    stacks are as they were. *)
Theorem undo_then_redo_presence (ds : list JsonObject) (s : St) :
  State.isBatching s = false ->
  last (State.undoStack s) = Some (map HPresence ds) ->
  let s1 := final (undo env context s) in
  let s2 := final (redo env context s1) in
  State.me s1 = replay ds (State.me s) /\
  same_presence (State.me s2) (State.me s) /\
  State.undoStack s2 = State.undoStack s /\
  State.redoStack s2 = State.redoStack s.
Proof.
  intros Hb Hlast s1 s2.
  pose proof (undo_presence_entry ds s Hb Hlast) as Hundo. fold s1 in Hundo.
  unfold history_view in Hundo. injection Hundo as Hme1 Hu1 Hr1 Hp1 Hh1 Hb1.
  assert (Hlast1 : last (State.redoStack s1)
                   = Some (map HPresence (reverses ds (State.me s)))).
  { rewrite Hr1. apply last_snoc. }
  pose proof (redo_presence_entry _ s1 Hb1 Hlast1) as Hredo. fold s2 in Hredo.
  unfold history_view in Hredo. injection Hredo as Hme2 Hu2 Hr2 Hp2 Hh2 Hb2.
  split; [exact Hme1|]. split; [|split].
  - rewrite Hme2, Hme1. apply replay_reverses.
  - rewrite Hu2, Hu1, Hme1, reverses_reverses. apply removelast_snoc_last. exact Hlast.
  - rewrite Hr2, Hr1. apply List.removelast_last.
Qed.

(** ** Presence updates with history *)

Lemma onHistoryChange_keeps_view (s : St) :
  exists s',
    onHistoryChange s = Returns tt s' /\
    buffered_history_view s' = buffered_history_view s.
Proof.
  destruct (onHistoryChange_returns s) as ([] & s' & Hrun).
  exists s'. split; [exact Hrun|].
  assert (Hp : preserves buffered_history_view (onHistoryChange : M St unit))
    by (unfold onHistoryChange, canUndo, canRedo; view_frame).
  specialize (Hp s). rewrite Hrun in Hp. exact Hp.
Qed.

Lemma notify_keeps_view storageUpdates presence otherEvents (s : St) :
  exists s',
    notify storageUpdates presence otherEvents s = Returns tt s' /\
    buffered_history_view s' = buffered_history_view s.
Proof.
  destruct (notify_returns storageUpdates presence otherEvents s) as ([] & s' & Hrun).
  exists s'. split; [exact Hrun|].
  assert (Hp : preserves buffered_history_view
                 (notify storageUpdates presence otherEvents : M St unit))
    by (unfold notify; view_frame).
  specialize (Hp s). rewrite Hrun in Hp. exact Hp.
Qed.

(** What [addToUndoStack] does to the history: it makes room, then the
    entry goes onto the undo stack, or in front of the paused items. *)
Lemma addToUndoStack_history (item : HistoryItem) (s : St) :
  exists s',
    addToUndoStack item s = Returns tt s' /\
    State.buffer s' = State.buffer s /\
    history_view s'
    = (State.me s,
       if State.isHistoryPaused s then capped (State.undoStack s)
       else (capped (State.undoStack s) ++ [item])%list,
       State.redoStack s, State.isHistoryPaused s,
       if State.isHistoryPaused s then (item ++ State.pausedHistory s)%list
       else State.pausedHistory s,
       State.isBatching s).
Proof.
  unfold addToUndoStack, capped. rewrite bind_assoc, bind_gets.
  destruct (50 <=? length (State.undoStack s))%nat; unfold when;
    repeat (mstep; simpl);
    destruct (State.isHistoryPaused s) eqn:Hpaused.
  all: try (eexists; split; [reflexivity|]; unfold history_view; simpl;
            rewrite ?Hpaused; split; reflexivity).
  all: rewrite bind_modify;
    match goal with
    | |- context [onHistoryChange ?s1] =>
        destruct (onHistoryChange_keeps_view s1) as (s' & Hrun & Hview)
    end;
    exists s'; split; [exact Hrun|];
    unfold buffered_history_view, history_view in *; simpl in Hview;
    injection Hview as Hbuf Hme Hu Hr Hp Hh Hi;
    split; [exact Hbuf|];
    rewrite Hme, Hu, Hr, Hp, Hh, Hi, Hpaused; reflexivity.
Qed.

(** With every buffered op carrying an [opId], [tryFlushing] returns; the
    ops it leaves in the buffer still do, and presence and history are not
    touched. *)
Lemma tryFlushing_ready (s : St) :
  flush_ready s ->
  exists s',
    tryFlushing env context s = Returns tt s' /\
    flush_ready s' /\
    (buffer_shares_me s = false -> buffer_shares_me s' = false) /\
    history_view s' = history_view s.
Proof.
  intros Hall. unfold tryFlushing.
  rewrite bind_gets, bind_record_loop by exact Hall. rewrite bind_gets.
  match goal with
  | |- context [socket_not_open ?s1] =>
      replace (socket_not_open s1) with (socket_not_open s) by reflexivity
  end.
  destruct (socket_not_open s).
  - eexists. split; [reflexivity|]. split; [constructor|]. split; [|reflexivity].
    intros Hshare. exact Hshare.
  - rewrite bind_Date_now, bind_gets.
    destruct (Context.throttleDelay context <? _).
    + rewrite bind_gets.
      destruct (length _ =? 0)%nat.
      * eexists. split; [reflexivity|]. split; [exact Hall|]. split; [|reflexivity].
        intros Hshare. exact Hshare.
      * unfold effects_send. repeat mstep. eexists. split; [reflexivity|].
        split; [constructor|]. split; reflexivity.
    + unfold clearTimeout, effects_delayFlush, modify_timeoutHandles.
      rewrite bind_assoc, bind_gets. simpl.
      destruct (TimeoutHandles.flush (State.timeoutHandles s));
        repeat mstep; (eexists; split; [reflexivity|]);
        (split; [exact Hall|]); (split; [|reflexivity]);
        intros Hshare; exact Hshare.
Qed.

(** [updatePresence] with [addToHistory], outside a batch. *)
Lemma updatePresence_recorded (overrides : JsonObject) (s : St) :
  State.isBatching s = false ->
  flush_ready s ->
  let me_object :=
    if buffer_shares_me s then spread (State.me s) (defined_keys overrides)
    else State.me s in
  let item := [HPresence (pick me_object (defined_keys overrides))] in
  exists s',
    updatePresence env context overrides (Some true) s = Returns tt s' /\
    flush_ready s' /\
    buffer_shares_me s' = false /\
    history_view s'
    = (spread me_object overrides,
       if State.isHistoryPaused s then capped (State.undoStack s)
       else (capped (State.undoStack s) ++ [item])%list,
       State.redoStack s, State.isHistoryPaused s,
       if State.isHistoryPaused s then (item ++ State.pausedHistory s)%list
       else State.pausedHistory s,
       false).
Proof.
  intros Hb Hready me_object item. subst me_object item.
  unfold updatePresence, modify_buffer, buffer_shares_me.
  rewrite bind_assoc, bind_gets.
  destruct (Buffer.presence (State.buffer s)) as [p|] eqn:Hp.
  all: repeat (mstep; simpl).
  all: rewrite ?Hp, ?Hb; simpl.
  all: match goal with
       | |- context [bind (tryFlushing env context) _ ?s1] =>
           destruct (tryFlushing_ready s1) as (s2 & Hflush & Hready2 & Hshare2 & Hview2);
           [exact Hready|]
       end.
  all: unfold bind at 1; rewrite Hflush; unfold bind at 1.
  all: match goal with
       | |- context [addToUndoStack ?item ?s2'] =>
           destruct (addToUndoStack_history item s2') as (s3 & Hadd & Hbuf3 & Hview3)
       end; rewrite Hadd.
  all: match goal with
       | |- context [notify [] true [] ?s3'] =>
           destruct (notify_keeps_view [] true [] s3') as (s4 & Hnotify & Hview4)
       end.
  all: exists s4; split; [exact Hnotify|].
  all: unfold buffered_history_view in Hview4;
    pose proof (f_equal fst Hview4) as Hbuf4;
    pose proof (f_equal snd Hview4) as Hhist4;
    cbn [fst snd] in Hbuf4, Hhist4.
  all: split; [unfold flush_ready; rewrite Hbuf4, Hbuf3; exact Hready2|].
  all: split; [rewrite Hbuf4, Hbuf3; apply Hshare2; reflexivity|].
  all: rewrite Hhist4, Hview3.
  all: unfold history_view in Hview2; simpl in Hview2;
    injection Hview2 as Hme Hu Hr Hp2 Hh Hi;
    rewrite Hme, Hu, Hr, Hp2, Hh, Hi, Hb; reflexivity.
Qed.


(** A presence update recorded in the history, then an [undo]: the presence
    reads as before the update, the undo stack is the old one (less its
    oldest entry if it was full), and the update is on the redo stack.
    This needs the update to hold no [undefined] (such a key is written to
    [state.me] but not saved), and the presence buffer not to be the
    object [state.me]. *)
Theorem undo_restores_presence (overrides : JsonObject) (s : St) :
  State.isBatching s = false ->
  State.isHistoryPaused s = false ->
  buffer_shares_me s = false ->
  all_defined overrides ->
  flush_ready s ->
  let s1 := final (updatePresence env context overrides (Some true) s) in
  let s2 := final (undo env context s1) in
  State.me s1 = spread (State.me s) overrides /\
  same_presence (State.me s2) (State.me s) /\
  State.undoStack s2 = capped (State.undoStack s) /\
  State.redoStack s2 = (State.redoStack s ++ [[HPresence overrides]])%list.
Proof.
  intros Hb Hpaused Hshare Hdefined Hready s1 s2.
  destruct (updatePresence_recorded overrides s Hb Hready)
    as (s1' & Hrun & _ & _ & Hview).
  subst s2 s1. rewrite Hrun. simpl.
  rewrite Hshare, Hpaused, (defined_keys_all _ Hdefined) in Hview.
  unfold history_view in Hview. injection Hview as Hme Hu Hr Hp Hh Hi.
  assert (Hlast : last (State.undoStack s1')
                  = Some (map HPresence [pick (State.me s) overrides])).
  { rewrite Hu. apply last_snoc. }
  pose proof (undo_presence_entry _ s1' Hi Hlast) as Hundo.
  unfold history_view in Hundo. injection Hundo as Hme2 Hu2 Hr2 _ _ _.
  split; [exact Hme|]. split; [|split].
  - rewrite Hme2, Hme. intros k. simpl. rewrite js_get_spread_pick, js_get_spread.
    destruct (overrides !! k); reflexivity.
  - rewrite Hu2, Hu. apply List.removelast_last.
  - rewrite Hr2, Hr, Hme. simpl. rewrite (pick_pick _ (State.me s) overrides); [reflexivity|].
    intros k. reflexivity.
Qed.


(** ** Updates made while the history is paused *)


Lemma capped_bounded (stack : list HistoryItem) :
  (length stack <= 50)%nat -> (length (capped stack) <= 49)%nat \/ capped stack = stack.
Proof.
  intros Hlen. unfold capped.
  destruct (Nat.leb_spec 50 (length stack)); [left | right; reflexivity].
  rewrite length_tl. lia.
Qed.






(** ** Batches *)

(** A batch cannot be nested and [undo] and [redo] cannot run inside one:
    each throws before it touches the state.  Outside a batch, [batch]
    leaves [isBatching] false whatever the callback does, also when the
    callback or the end of the batch throws. *)
Theorem batch_guards (callback : M St unit) (s : St) :
  (State.isBatching s = true ->
   batch env context callback s = Throws "batch should not be called during a batch" s /\
   undo env context s = Throws "undo is not allowed during a batch" s /\
   redo env context s = Throws "redo is not allowed during a batch" s) /\
  (State.isBatching s = false ->
   State.isBatching (final (batch env context callback s)) = false).
Proof.
  split; intros Hb.
  - unfold batch, undo, redo. rewrite !bind_gets, Hb. repeat split.
  - unfold batch. rewrite bind_gets, Hb, bind_modify, final_try_finally.
    unfold batch_finally. rewrite bind_modify.
    match goal with
    | |- State.isBatching (final (?c ?s1)) = _ =>
        assert (Hrest : preserves State.isBatching c); [| rewrite (Hrest s1); reflexivity]
    end.
    unfold addToUndoStack, onHistoryChange, canUndo, canRedo, dispatch, notify,
      tryFlushing, effects_send, effects_delayFlush, clearTimeout, modify_buffer,
      modify_timeoutHandles.
    view_frame.
Qed.

(** [updatePresence] with [addToHistory] inside a batch: nothing is flushed
    and the history is not touched; the reverse item is pushed onto the
    reverse ops of the batch. *)
Lemma updatePresence_in_batch (overrides : JsonObject) (s : St) :
  State.isBatching s = true ->
  let me_object :=
    if buffer_shares_me s then spread (State.me s) (defined_keys overrides)
    else State.me s in
  exists s',
    updatePresence env context overrides (Some true) s = Returns tt s' /\
    buffer_shares_me s' = false /\
    Batch.ops (State.batch s') = Batch.ops (State.batch s) /\
    Batch.reverseOps (State.batch s')
    = (Batch.reverseOps (State.batch s)
       ++ [HPresence (pick me_object (defined_keys overrides))])%list /\
    history_view s'
    = (spread me_object overrides, State.undoStack s, State.redoStack s,
       State.isHistoryPaused s, State.pausedHistory s, true).
Proof.
  intros Hb me_object. subst me_object.
  unfold updatePresence, modify_buffer, modify_batch, buffer_shares_me.
  rewrite bind_assoc, bind_gets.
  destruct (Buffer.presence (State.buffer s)) as [p|] eqn:Hp.
  all: repeat (mstep; simpl).
  all: rewrite ?Hp, ?Hb; simpl.
  all: unfold when; repeat (mstep; simpl).
  all: eexists; split; [reflexivity|].
  all: unfold history_view; simpl; rewrite ?Hb; repeat split.
Qed.

(** Presence updates with history made one after the other inside a batch:
    the reverse ops of the batch gain their reverse items, the one of the
    first update first. *)
Lemma batched_updates (os : list JsonObject) :
  forall s : St,
    State.isBatching s = true ->
    buffer_shares_me s = false ->
    Forall all_defined os ->
    exists s',
      for_each (map (fun o => call_updatePresence o (Some true)) os)
        (exec_call env context) s
      = Returns tt s' /\
      Batch.ops (State.batch s') = Batch.ops (State.batch s) /\
      Batch.reverseOps (State.batch s')
      = (Batch.reverseOps (State.batch s)
         ++ map HPresence (pushed_reverses os (State.me s)))%list /\
      history_view s'
      = (replay os (State.me s), State.undoStack s, State.redoStack s,
         State.isHistoryPaused s, State.pausedHistory s, true).
Proof.
  induction os as [|o os IH]; intros s Hb Hshare Hdefined; simpl.
  - exists s. split; [reflexivity|]. split; [reflexivity|].
    split; [rewrite app_nil_r; reflexivity|].
    unfold history_view. rewrite Hb. reflexivity.
  - apply Forall_cons in Hdefined as [Ho Hos].
    destruct (updatePresence_in_batch o s Hb) as (s1 & Hrun & Hshare1 & Hops & Hrev & Hview).
    rewrite Hshare in Hrev, Hview. rewrite (defined_keys_all _ Ho) in Hrev.
    unfold history_view in Hview. injection Hview as Hme Hu Hr Hp Hh Hi.
    destruct (IH s1 Hi Hshare1 Hos) as (s' & Hrun' & Hops' & Hrev' & Hview').
    exists s'. split; [unfold bind; rewrite Hrun; exact Hrun'|].
    split; [congruence|]. split.
    + rewrite Hrev', Hrev, Hme, <- app_assoc. reflexivity.
    + rewrite Hview', Hme, Hu, Hr, Hp, Hh. reflexivity.
Qed.

(** The end of a batch in which only presence was updated: one entry goes
    onto the undo stack, the redo stack stays. *)
Lemma batch_finally_history (s : St) :
  State.isHistoryPaused s = false ->
  Batch.ops (State.batch s) = [] ->
  Batch.reverseOps (State.batch s) <> [] ->
  history_view (final (batch_finally env context s))
  = (State.me s,
     (capped (State.undoStack s) ++ [Batch.reverseOps (State.batch s)])%list,
     State.redoStack s, false, State.pausedHistory s, false).
Proof.
  intros Hpaused Hops Hrev. unfold batch_finally.
  rewrite bind_modify, bind_assoc, bind_gets. simpl.
  destruct (Batch.reverseOps (State.batch s)) as [|item items] eqn:Hitems; [contradiction|].
  change (0 <? length (item :: items))%nat with true. unfold when at 1.
  destruct (addToUndoStack_history (item :: items) (State.with_isBatching false s))
    as (s1 & Hadd & _ & Hview1).
  unfold bind at 1. rewrite Hadd.
  assert (Hbatch : State.batch s1 = State.batch s).
  { pose proof (addToUndoStack_keeps_batch (item :: items) (State.with_isBatching false s))
      as Hk. rewrite Hadd in Hk. exact Hk. }
  rewrite bind_assoc, bind_gets, Hbatch, Hops. simpl.
  rewrite bind_ret, bind_assoc, bind_gets, Hbatch, Hops. simpl.
  rewrite bind_ret, bind_assoc, bind_gets.
  match goal with
  | |- history_view (final (?c ?s2)) = _ =>
      assert (Hrest : preserves history_view c); [| rewrite (Hrest s2)]
  end.
  { apply preserves_bind; [apply preserves_history_notify | intros _].
    apply preserves_bind; [view_frame | intros _; apply preserves_history_tryFlushing]. }
  rewrite Hview1. simpl. rewrite Hpaused. reflexivity.
Qed.

Lemma batch_of_updates_history (os : list JsonObject) (s : St) :
  os <> [] ->
  State.isBatching s = false ->
  State.isHistoryPaused s = false ->
  State.batch s = Batch.empty ->
  buffer_shares_me s = false ->
  Forall all_defined os ->
  history_view
    (final (exec env context
              (top_batch (map (fun o => call_updatePresence o (Some true)) os)) s))
  = (replay os (State.me s),
     (capped (State.undoStack s)
      ++ [map HPresence (pushed_reverses os (State.me s))])%list,
     State.redoStack s, false, State.pausedHistory s, false).
Proof.
  intros Hne Hb Hpaused Hbatch Hshare Hdefined.
  cbn [exec]. unfold batch. rewrite bind_gets, Hb, bind_modify, final_try_finally.
  destruct (batched_updates os (State.with_isBatching true s) eq_refl Hshare Hdefined)
    as (s' & Hrun & Hops & Hrev & Hview).
  rewrite Hrun. cbn [final].
  simpl in Hops, Hrev, Hview. rewrite Hbatch in Hops, Hrev. simpl in Hops, Hrev.
  unfold history_view in Hview. injection Hview as Hme Hu Hr Hp Hh Hi.
  rewrite batch_finally_history.
  - rewrite Hme, Hu, Hr, Hh, Hrev. reflexivity.
  - rewrite Hp. exact Hpaused.
  - exact Hops.
  - rewrite Hrev. destruct os; [contradiction | discriminate].
Qed.

(** A batch of presence updates with history makes one entry of the undo
    stack, which holds their reverse items in the order of the updates, and
    leaves the redo stack as it was: no op was produced. *)
Theorem batch_of_updates_makes_one_entry (os : list JsonObject) (s : St) :
  os <> [] ->
  State.isBatching s = false ->
  State.isHistoryPaused s = false ->
  State.batch s = Batch.empty ->
  buffer_shares_me s = false ->
  Forall all_defined os ->
  let s1 :=
    final (exec env context
             (top_batch (map (fun o => call_updatePresence o (Some true)) os)) s) in
  State.undoStack s1
  = (capped (State.undoStack s)
     ++ [map HPresence (pushed_reverses os (State.me s))])%list /\
  State.redoStack s1 = State.redoStack s /\
  State.me s1 = replay os (State.me s) /\
  State.isBatching s1 = false.
Proof.
  intros Hne Hb Hpaused Hbatch Hshare Hdefined s1.
  pose proof (batch_of_updates_history os s Hne Hb Hpaused Hbatch Hshare Hdefined) as Hview.
  fold s1 in Hview. unfold history_view in Hview.
  injection Hview as Hme Hu Hr Hp Hh Hi. auto.
Qed.

(** An [undo] after a batch of two presence updates applies the two
    reverse items in the order of the updates: a key the second update
    wrote reads as after the first update, whatever it held before the
    batch; every other key reads as before the batch.  So the presence is
    back only when the two updates share no key. *)
Theorem undo_of_two_batched_updates (o1 o2 : JsonObject) (s : St) :
  State.isBatching s = false ->
  State.isHistoryPaused s = false ->
  State.batch s = Batch.empty ->
  buffer_shares_me s = false ->
  all_defined o1 -> all_defined o2 ->
  let s1 :=
    final (exec env context
             (top_batch [call_updatePresence o1 (Some true);
                         call_updatePresence o2 (Some true)]) s) in
  let s2 := final (undo env context s1) in
  (forall k,
     js_get (State.me s2) k
     = match o2 !! k with
       | Some _ => js_get (spread (State.me s) o1) k
       | None => js_get (State.me s) k
       end) /\
  (o1 ##ₘ o2 -> same_presence (State.me s2) (State.me s)).
Proof.
  intros Hb Hpaused Hbatch Hshare Hd1 Hd2 s1 s2.
  assert (Hdefined : Forall all_defined [o1; o2]) by (repeat constructor; assumption).
  pose proof (batch_of_updates_history [o1; o2] s ltac:(discriminate) Hb Hpaused Hbatch
                Hshare Hdefined) as Hview.
  change (map (fun o => call_updatePresence o (Some true)) [o1; o2])
    with [@call_updatePresence LiveNode StorageUpdate o1 (Some true);
          call_updatePresence o2 (Some true)] in Hview.
  fold s1 in Hview. unfold history_view in Hview.
  injection Hview as Hme Hu Hr Hp Hh Hi.
  pose proof (undo_presence_entry (pushed_reverses [o1; o2] (State.me s)) s1 Hi) as Hundo.
  rewrite Hu in Hundo. specialize (Hundo (last_snoc _ _)). fold s2 in Hundo.
  unfold history_view in Hundo. injection Hundo as Hme2 _ _ _ _ _.
  assert (Hread : forall k,
    js_get (State.me s2) k
    = match o2 !! k with
      | Some _ => js_get (spread (State.me s) o1) k
      | None => js_get (State.me s) k
      end).
  { intros k. rewrite Hme2, Hme. simpl.
    rewrite !js_get_spread_pick, !js_get_spread.
    destruct (o2 !! k), (o1 !! k); reflexivity. }
  split; [exact Hread|].
  intros Hdisjoint k. rewrite Hread, js_get_spread.
  destruct (o2 !! k) as [v2|] eqn:H2; [|reflexivity].
  destruct (o1 !! k) as [v1|] eqn:H1; [|reflexivity].
  exfalso. exact (proj1 (map_disjoint_spec o1 o2) Hdisjoint k v1 v2 H1 H2).
Qed.

(** ** The users of the room *)

Lemma listed_users_lookup (users : list (Z * (option string * option Json))) :
  forall (acc : gmap Z User.t) (k : Z),
    (In k (map fst users) ->
     exists u, listed_users users acc !! k = Some u /\
               User.connectionId u = k /\
               User.presence u = None /\
               User._hasReceivedInitialPresence u = None) /\
    (~ In k (map fst users) -> listed_users users acc !! k = acc !! k).
Proof.
  induction users as [|[c [id info]] users IH]; intros acc k; simpl.
  - split; [intros [] | reflexivity].
  - destruct (IH (<[c := User.mk c id info None None]> acc) k) as [Hin Hout].
    split.
    + intros [-> | Hk].
      * destruct (in_dec Z.eq_dec k (map fst users)) as [Hk | Hk]; [exact (Hin Hk)|].
        unfold listed_users in *. simpl. rewrite (Hout Hk), lookup_insert_eq.
        eexists. repeat split.
      * exact (Hin Hk).
    + intros Hk. unfold listed_users in *. simpl. rewrite Hout by tauto.
      apply lookup_insert_ne. tauto.
Qed.

Lemma preserves_users_tryFlushing :
  preserves (@State.users LiveNode StorageUpdate) (tryFlushing env context).
Proof.
  unfold tryFlushing, effects_send, effects_delayFlush, clearTimeout,
    modify_timeoutHandles, modify_buffer.
  view_frame.
Qed.

(** A [ROOM_STATE] message replaces the users by the ones it lists, each
    without presence; until the full presence of a listed user arrives (an
    [UPDATE_PRESENCE] with a [targetActor]), an update for that user is
    dropped; the full presence becomes the user's presence as it is, and
    updates are merged from then on. *)
Theorem room_state_then_presence (users : list (Z * (option string * option Json)))
    (actor : Z) (data : JsonObject) (s : St) :
  In actor (map fst users) ->
  exists s1 u,
    onRoomStateMessage users s = Returns OE_reset s1 /\
    (forall k, is_Some (State.users s1 !! k) <-> In k (map fst users)) /\
    State.users s1 !! actor = Some u /\
    User.presence u = None /\
    onUpdatePresenceMessage (UpdatePresenceServerMsg.mk actor data None) s1
    = Returns None s1 /\
    forall target more,
      let full := User.mk actor (User.id u) (User.info u) (Some data) (Some true) in
      let s2 := State.with_users (<[actor := full]> (State.users s1)) s1 in
      onUpdatePresenceMessage (UpdatePresenceServerMsg.mk actor data (Some target)) s1
      = Returns (Some (OE_update data full)) s2 /\
      returned (onUpdatePresenceMessage (UpdatePresenceServerMsg.mk actor more None) s2)
      = Some (Some (OE_update more
                      (User.mk actor (User.id u) (User.info u)
                         (Some (spread data more)) (Some true)))).
Proof.
  intros Hactor.
  destruct (proj1 (listed_users_lookup users ∅ actor) Hactor) as (u & Hu & Hid & Hp & Hflag).
  exists (State.with_users (listed_users users ∅) s), u.
  split; [reflexivity|]. split; [|split; [exact Hu|split; [exact Hp|split]]].
  - intros k. simpl. split.
    + intros Hsome. destruct (in_dec Z.eq_dec k (map fst users)) as [Hk | Hk]; [exact Hk|].
      rewrite (proj2 (listed_users_lookup users ∅ k) Hk), lookup_empty in Hsome.
      destruct Hsome as [? Hs]. discriminate Hs.
    + intros Hk. destruct (proj1 (listed_users_lookup users ∅ k) Hk) as (u' & Hu' & _).
      rewrite Hu'. eauto.
  - unfold onUpdatePresenceMessage. rewrite bind_gets. simpl. rewrite Hu.
    unfold hasReceivedInitialPresence. rewrite Hflag. reflexivity.
  - intros target more full s2. subst full s2. split.
    + unfold onUpdatePresenceMessage. rewrite bind_gets. simpl. rewrite Hu, Hp.
      unfold merge_presence, spread. rewrite (right_id_L ∅ (∪)). reflexivity.
    + unfold onUpdatePresenceMessage. rewrite bind_gets. simpl.
      rewrite lookup_insert_eq. reflexivity.
Qed.

(** A user who joins is known at once: an update without [targetActor] is
    merged into the record right away, and a [USER_LEFT] removes the record
    and gives it back in the [leave] event, which leaves the users as they
    were before the join when the actor was not among them.  A [USER_LEFT]
    for an unknown actor does nothing. *)
Theorem join_then_update_then_leave (actor : Z) (id : option string) (info : option Json)
    (data : JsonObject) (s : St) :
  let joined := User.mk actor id info None (Some true) in
  let s1 := final (onUserJoinedMessage env context actor id info s) in
  State.users s1 = <[actor := joined]> (State.users s) /\
  returned (onUpdatePresenceMessage (UpdatePresenceServerMsg.mk actor data None) s1)
  = Some (Some (OE_update data (User.mk actor id info (Some data) (Some true)))) /\
  returned (onUserLeftMessage actor s1) = Some (Some (OE_leave joined)) /\
  (State.users s !! actor = None ->
   State.users (final (onUserLeftMessage actor s1)) = State.users s /\
   onUserLeftMessage actor s = Returns None s).
Proof.
  intros joined s1.
  assert (Husers : State.users s1 = <[actor := joined]> (State.users s)).
  { subst s1. unfold onUserJoinedMessage, modify_buffer.
    rewrite bind_modify, bind_assoc, bind_gets, bind_modify.
    match goal with
    | |- State.users (final (bind ?c ?k ?s0)) = _ =>
        assert (Hrest : preserves State.users (bind c k));
        [| rewrite (Hrest s0); reflexivity]
    end.
    apply preserves_bind; [apply preserves_users_tryFlushing | intros _; apply preserves_ret]. }
  split; [exact Husers|]. split; [|split].
  - unfold onUpdatePresenceMessage. rewrite bind_gets. simpl.
    rewrite Husers, lookup_insert_eq. simpl.
    unfold merge_presence, spread. rewrite (right_id_L ∅ (∪)). reflexivity.
  - unfold onUserLeftMessage. rewrite bind_gets, Husers, lookup_insert_eq. reflexivity.
  - intros Hnone. split.
    + unfold onUserLeftMessage. rewrite bind_gets, Husers, lookup_insert_eq. simpl.
      rewrite Husers. apply delete_insert_id. exact Hnone.
    + unfold onUserLeftMessage. rewrite bind_gets, Hnone. reflexivity.
Qed.

(** ** Ids *)


(** ** Flushing and the throttle *)

(** With the socket open: within [throttleDelay] of the last flush,
    [tryFlushing] sends nothing, keeps the buffer, and schedules a flush in
    the time left (after cancelling the one it had scheduled); past the
    delay it sends all the buffered data in one call, presence first, and
    leaves the buffer empty, so that the same data cannot be sent again;
    with nothing to send it sends nothing. *)
Theorem tryFlushing_throttle (s : St) :
  socket_not_open s = false ->
  flush_ready s ->
  let now := Env.Date_now env (State.env_tick s) in
  let elapsed := now - State.lastFlushTime s in
  let s' := final (tryFlushing env context s) in
  (elapsed <= Context.throttleDelay context ->
   State.buffer s' = State.buffer s /\
   State.lastFlushTime s' = State.lastFlushTime s /\
   0 <= Context.throttleDelay context - elapsed /\
   State.trace s'
   = (State.trace s
      ++ match TimeoutHandles.flush (State.timeoutHandles s) with
         | Some handle => [Effect.clearTimeout handle]
         | None => []
         end
      ++ [Effect.delayFlush (Context.throttleDelay context - elapsed)])%list /\
   TimeoutHandles.flush (State.timeoutHandles s')
   = Some (Env.timer_handle env (S (State.env_tick s)))) /\
  (Context.throttleDelay context < elapsed ->
   flushDataToMessages s <> [] ->
   State.trace s' = (State.trace s ++ [Effect.send (flushDataToMessages s)])%list /\
   State.buffer s' = Buffer.empty /\
   flushDataToMessages s' = [] /\
   State.lastFlushTime s' = now) /\
  (Context.throttleDelay context < elapsed ->
   flushDataToMessages s = [] ->
   State.trace s' = State.trace s /\ State.buffer s' = State.buffer s).
Proof.
  intros Hopen Hready now elapsed s'. subst s'. unfold tryFlushing.
  rewrite bind_gets, bind_record_loop by exact Hready. rewrite bind_gets.
  match goal with
  | |- context [socket_not_open ?s1] =>
      replace (socket_not_open s1) with (socket_not_open s) by reflexivity
  end.
  rewrite Hopen, bind_Date_now, bind_gets. cbn [State.lastFlushTime State.with_env_tick
    State.with_offlineOperations State.env_tick].
  fold now. fold elapsed.
  destruct (Z.ltb_spec (Context.throttleDelay context) elapsed) as [Hpast | Hwithin].
  - split; [intros; lia|].
    rewrite bind_gets.
    change (flushDataToMessages
              (State.with_env_tick ?tick (State.with_offlineOperations ?offline s)))
      with (flushDataToMessages s).
    destruct (flushDataToMessages s) as [|m ms] eqn:Hmessages.
    + split; [intros _ Hne; contradiction|]. intros _ _. split; reflexivity.
    + split; [|intros _ Hnil; discriminate]. intros _ _.
      change (length (m :: ms) =? 0)%nat with false.
      unfold effects_send. repeat mstep. simpl. repeat split.
  - split; [|split; intros; lia]. intros _.
    unfold clearTimeout, effects_delayFlush, modify_timeoutHandles.
    rewrite bind_assoc, bind_gets. simpl.
    destruct (TimeoutHandles.flush (State.timeoutHandles s));
      repeat (mstep; simpl); fold now; fold elapsed;
      (split; [reflexivity|]); (split; [reflexivity|]); (split; [lia|]);
      (split; [|reflexivity]); rewrite <- ?app_assoc; reflexivity.
Qed.

(** [broadcastEvent] drops the event when there is no socket and the
    caller did not ask to queue it; with a socket that is not open yet, or
    when asked to queue, the event is put at the end of the buffered
    messages and stays there, nothing being sent. *)
Theorem broadcastEvent_queue (event : Json) (shouldQueueEventIfNotReady : bool) (s : St) :
  (State.socket s = None -> shouldQueueEventIfNotReady = false ->
   broadcastEvent env context event shouldQueueEventIfNotReady s = Returns tt s) /\
  (socket_not_open s = true ->
   State.socket s <> None \/ shouldQueueEventIfNotReady = true ->
   flush_ready s ->
   exists s',
     broadcastEvent env context event shouldQueueEventIfNotReady s = Returns tt s' /\
     Buffer.messages (State.buffer s')
     = (Buffer.messages (State.buffer s) ++ [BROADCAST_EVENT event])%list /\
     State.trace s' = State.trace s).
Proof.
  split.
  - intros Hsocket Hqueue. unfold broadcastEvent. rewrite bind_gets, Hsocket, Hqueue.
    reflexivity.
  - intros Hdown Hcase Hready. unfold broadcastEvent, modify_buffer. rewrite bind_gets.
    assert (Hgo : forall k1 k2 : M St unit,
      match State.socket s, shouldQueueEventIfNotReady with
      | None, false => k1
      | _, _ => k2
      end = k2).
    { intros k1 k2. destruct (State.socket s), shouldQueueEventIfNotReady;
        try reflexivity. destruct Hcase; congruence. }
    rewrite Hgo, bind_modify.
    rewrite tryFlushing_socket_down; [| exact Hready | exact Hdown].
    eexists. split; [reflexivity|]. split; reflexivity.
Qed.

(** ** Op ids and acknowledgements *)

Lemma JsMap_get_None {V} (m : JsMap.t V) (k : string) :
  JsMap.get m k = None <-> ~ In k (map fst m).
Proof.
  induction m as [|[k0 v0] m IH]; simpl; [tauto|].
  destruct (String.eqb_spec k0 k) as [-> | Hne].
  - split; [discriminate | intros Hnot; exfalso; apply Hnot; left; reflexivity].
  - rewrite IH. tauto.
Qed.

Lemma JsMap_delete_get_ne {V} (m : JsMap.t V) (k k' : string) :
  k <> k' -> JsMap.get (snd (JsMap.delete m k)) k' = JsMap.get m k'.
Proof.
  intros Hne. induction m as [|[k0 v0] m IH]; simpl; [reflexivity|].
  destruct (String.eqb_spec k0 k) as [-> | Hk]; simpl.
  - destruct (String.eqb_spec k k'); [contradiction | reflexivity].
  - destruct (JsMap.delete m k) as [b m'] eqn:Hd. simpl in *.
    destruct (String.eqb_spec k0 k'); [reflexivity | exact IH].
Qed.

Lemma JsMap_delete_keys {V} (m : JsMap.t V) (k k' : string) :
  In k' (map fst (snd (JsMap.delete m k))) -> In k' (map fst m).
Proof.
  induction m as [|[k0 v0] m IH]; simpl; [tauto|].
  destruct (String.eqb_spec k0 k) as [-> | Hk]; simpl.
  - tauto.
  - destruct (JsMap.delete m k) as [b m'] eqn:Hd. simpl in *. tauto.
Qed.

Lemma JsMap_delete_distinct {V} (m : JsMap.t V) (k : string) :
  distinct_keys m -> distinct_keys (snd (JsMap.delete m k)).
Proof.
  unfold distinct_keys. induction m as [|[k0 v0] m IH]; simpl; intros Hnd; [exact Hnd|].
  apply NoDup_cons in Hnd as [Hnotin Hnd].
  destruct (String.eqb_spec k0 k) as [-> | Hk]; simpl; [exact Hnd|].
  pose proof (JsMap_delete_keys m k k0) as Hkeys.
  destruct (JsMap.delete m k) as [b m'] eqn:Hd. simpl in *.
  apply NoDup_cons. split; [|apply IH; exact Hnd].
  rewrite list_elem_of_In in *. tauto.
Qed.

Lemma JsMap_delete_get_eq {V} (m : JsMap.t V) (k : string) :
  distinct_keys m -> JsMap.get (snd (JsMap.delete m k)) k = None.
Proof.
  unfold distinct_keys. induction m as [|[k0 v0] m IH]; simpl; intros Hnd; [reflexivity|].
  apply NoDup_cons in Hnd as [Hnotin Hnd].
  destruct (String.eqb_spec k0 k) as [-> | Hk]; simpl.
  - apply JsMap_get_None. rewrite <- list_elem_of_In. exact Hnotin.
  - destruct (JsMap.delete m k) as [b m'] eqn:Hd. simpl in *.
    destruct (String.eqb_spec k0 k); [contradiction | apply IH; exact Hnd].
Qed.

Lemma returns_preserved {A X} (f : St -> X) (c : M St A) (s : St) a s' :
  preserves f c -> c s = Returns a s' -> f s' = f s.
Proof. intros Hp Hrun. specialize (Hp s). rewrite Hrun in Hp. exact Hp. Qed.

(** What the loop of [apply] does with one op besides applying it: the op
    comes out with an [opId]; a remote op is taken out of
    [offlineOperations]; the buffered ops are not touched. *)
Lemma apply_op_opId (op : Op.t) (isLocal : bool) (acc acc' : ApplyLocals) (op' : Op.t)
    (s s' : St) :
  apply_op op isLocal acc s = Returns (acc', op') s' ->
  exists opId,
    Op.opId op' = Some opId /\
    with_assigned_opId op op' /\
    State.offlineOperations s'
    = (if isLocal then State.offlineOperations s
       else snd (JsMap.delete (State.offlineOperations s) opId)).
Proof.
  unfold apply_op. intros Hrun.
  apply bind_returns_inv in Hrun as (op1 & s1 & Hassign & Hrun).
  apply bind_returns_inv in Hrun as (source & s2 & Hsource & Hrun).
  apply bind_returns_inv in Hrun as (result & s3 & Happly & Hrun).
  assert (Hs3 : State.offlineOperations s3 = State.offlineOperations s2).
  { refine (returns_preserved State.offlineOperations _ _ _ _ _ Happly).
    unfold applyOp. view_frame. }
  assert (Hlast : op' = op1 /\ State.offlineOperations s' = State.offlineOperations s3).
  { destruct result as [|modified engine_reverse].
    - inversion Hrun; subst. split; reflexivity.
    - apply bind_returns_inv in Hrun as (acc1 & s4 & Hrec & Hret).
      inversion Hret; subst. split; [reflexivity|].
      refine (returns_preserved State.offlineOperations _ _ _ _ _ Hrec).
      unfold record_modified. view_frame. }
  destruct Hlast as [-> Hs'].
  assert (Hop1 : with_assigned_opId op op1 /\ is_Some (Op.opId op1) /\
                 State.offlineOperations s1 = State.offlineOperations s).
  { unfold assign_opId in Hassign.
    destruct (not_truthy_string (Op.opId op)) eqn:Htruthy.
    - apply bind_returns_inv in Hassign as (opId & s0 & Hgen & Hret).
      inversion Hret; subst. split; [right; split; [exact Htruthy | eauto]|].
      split; [eexists; reflexivity|].
      refine (returns_preserved State.offlineOperations _ _ _ _ _ Hgen).
      unfold generateOpId, getConnectionId. view_frame.
    - inversion Hassign; subst. split; [left; reflexivity|]. split; [|reflexivity].
      destruct (Op.opId op1); [eauto | discriminate]. }
  destruct Hop1 as (Hsame & [opId HopId] & Hs1).
  exists opId. split; [exact HopId|]. split; [exact Hsame|].
  rewrite Hs', Hs3. unfold op_source in Hsource.
  destruct isLocal.
  - inversion Hsource; subst. exact Hs1.
  - rewrite HopId in Hsource. simpl in Hsource. rewrite bind_ret, bind_gets in Hsource.
    destruct (JsMap.delete (State.offlineOperations s1) opId) as [deleted offline'] eqn:Hd.
    rewrite bind_modify in Hsource. inversion Hsource; subst. simpl.
    rewrite <- Hs1, Hd. reflexivity.
Qed.

Lemma apply_loop_opIds (items : HistoryItem) (isLocal : bool) :
  forall acc s acc' items' s',
    apply_loop items isLocal acc s = Returns (acc', items') s' ->
    Forall2 item_with_assigned_opId items items' /\
    Forall has_opId (storage_ops items') /\
    (isLocal = true -> State.offlineOperations s' = State.offlineOperations s) /\
    (isLocal = false ->
     distinct_keys (State.offlineOperations s) ->
     distinct_keys (State.offlineOperations s') /\
     (forall k, JsMap.get (State.offlineOperations s) k = None ->
                JsMap.get (State.offlineOperations s') k = None) /\
     (forall op k, In op (storage_ops items') -> Op.opId op = Some k ->
                   JsMap.get (State.offlineOperations s') k = None) /\
     (forall k, (forall op, In op (storage_ops items') -> Op.opId op <> Some k) ->
                JsMap.get (State.offlineOperations s') k
                = JsMap.get (State.offlineOperations s) k)).
Proof.
  induction items as [|item rest IH]; intros acc s acc' items' s' Hrun; simpl in Hrun.
  - inversion Hrun; subst. split; [constructor|]. split; [constructor|].
    split; [reflexivity|]. intros _ Hnd. split; [exact Hnd|].
    split; [tauto|]. split; [intros op k []|reflexivity].
  - apply bind_returns_inv in Hrun as ([acc1 item1] & s1 & Hitem & Hrun).
    apply bind_returns_inv in Hrun as ([acc2 rest2] & s2 & Hrest & Hret).
    inversion Hret; subst. clear Hret.
    destruct (IH _ _ _ _ _ Hrest) as (Hsame & Hids & Hlocal & Hremote).
    destruct item as [op | data]; simpl in Hitem.
    + apply bind_returns_inv in Hitem as ([acc0 op0] & s0 & Hop & Hret).
      inversion Hret; subst. clear Hret.
      destruct (apply_op_opId _ _ _ _ _ _ _ Hop) as (opId & HopId & Hassigned & Hoffline).
      split; [constructor; [exact Hassigned | exact Hsame]|].
      split; [simpl; constructor; [eexists; exact HopId | exact Hids]|].
      split.
      * intros ->. rewrite Hlocal by reflexivity. exact Hoffline.
      * intros ->. intros Hnd. rewrite Hoffline in Hremote.
        destruct (Hremote eq_refl (JsMap_delete_distinct _ opId Hnd))
          as (Hnd' & Hnone & Hack & Hother).
        split; [exact Hnd'|]. split; [|split].
        -- intros k Hk. apply Hnone.
           destruct (String.eqb_spec opId k) as [-> | Hne];
             [apply JsMap_delete_get_eq; exact Hnd|].
           rewrite JsMap_delete_get_ne by exact Hne. exact Hk.
        -- intros op1 k [<- | Hin] Hk; [|exact (Hack op1 k Hin Hk)].
           apply Hnone. rewrite HopId in Hk. injection Hk as <-.
           apply JsMap_delete_get_eq. exact Hnd.
        -- intros k Hk. simpl in Hk. rewrite Hother by (intros op1 Hin; apply Hk; right; exact Hin).
           apply JsMap_delete_get_ne. intros ->. apply (Hk op0); [left; reflexivity | exact HopId].
    + apply bind_returns_inv in Hitem as (acc0 & s0 & Hpresence & Hret).
      inversion Hret; subst. clear Hret.
      assert (Hoffline : State.offlineOperations s1 = State.offlineOperations s).
      { refine (returns_preserved State.offlineOperations _ _ _ _ _ Hpresence).
        unfold apply_presence, modify_buffer. view_frame. }
      rewrite Hoffline in *.
      split; [constructor; [reflexivity | exact Hsame]|].
      split; [exact Hids|]. split; [exact Hlocal | exact Hremote].
Qed.

(** *** The ids [apply] gives *)

Lemma generateOpId_returns (s : St) id s' :
  generateOpId s = Returns id s' ->
  id = opId_at (connection_id s) (State.opClock s) /\
  s' = State.with_opClock (S (State.opClock s)) s.
Proof.
  unfold generateOpId, getConnectionId, opId_at, connection_id.
  rewrite bind_assoc, bind_gets.
  destruct (State.connection s) as [| |c ? ?|c ? ?| |] eqn:Hc.
  all: try (repeat mstep; intros Hrun; inversion Hrun; split; reflexivity).
  all: rewrite bind_assoc, bind_gets;
    destruct (State.lastConnectionId s) as [| |c] eqn:Hl; simpl;
    try (intros Hrun; discriminate Hrun);
    repeat mstep; intros Hrun; inversion Hrun; split; reflexivity.
Qed.

Lemma opId_at_inj (connectionId : Nullable Z) (n m : nat) :
  opId_at connectionId n = opId_at connectionId m -> n = m.
Proof.
  unfold opId_at. intros Heq.
  apply (inj (String.app (template_of_id connectionId))) in Heq.
  apply (inj (String.app ":")) in Heq. apply (inj pretty) in Heq. exact Heq.
Qed.

Lemma given_opIds_distinct (connectionId : Nullable Z) (opClock : nat) (items : HistoryItem) :
  NoDup (given_opIds connectionId opClock items).
Proof.
  unfold given_opIds. apply NoDup_fmap_2; [|apply NoDup_seq].
  intros n m. apply opId_at_inj.
Qed.

Lemma opIds_given_assigned (connectionId : Nullable Z) (items : HistoryItem) :
  forall opClock,
    opIds_given items (assign_opIds connectionId opClock items)
    = map Some (given_opIds connectionId opClock items).
Proof.
  unfold given_opIds.
  induction items as [|[op | data] rest IH]; intros opClock; simpl; [reflexivity| |apply IH].
  destruct (not_truthy_string (Op.opId op)) eqn:Htruthy; simpl; rewrite ?Htruthy.
  - simpl. rewrite IH. reflexivity.
  - apply IH.
Qed.

Lemma connection_id_of_view (s s' : St) :
  id_view s' = id_view s -> connection_id s' = connection_id s.
Proof.
  unfold id_view, connection_id. intros Hview. injection Hview as -> -> _. reflexivity.
Qed.

Lemma apply_op_gives_opId (op : Op.t) (isLocal : bool) (acc acc' : ApplyLocals)
    (op' : Op.t) (s s' : St) :
  apply_op op isLocal acc s = Returns (acc', op') s' ->
  [HOp op'] = assign_opIds (connection_id s) (State.opClock s) [HOp op] /\
  id_view s'
  = (State.connection s, State.lastConnectionId s,
     (State.opClock s + missing_opIds [HOp op])%nat).
Proof.
  unfold apply_op. intros Hrun.
  apply bind_returns_inv in Hrun as (op1 & s1 & Hassign & Hrun).
  apply bind_returns_inv in Hrun as (source & s2 & Hsource & Hrun).
  apply bind_returns_inv in Hrun as (result & s3 & Happly & Hrun).
  assert (Hs2 : id_view s2 = id_view s1).
  { refine (returns_preserved id_view _ _ _ _ _ Hsource).
    unfold op_source. destruct isLocal; [apply preserves_ret|].
    apply preserves_bind; [destruct (Op.opId op1); view_frame | intros opId].
    apply preserves_bind; [view_frame | intros offline].
    destruct (JsMap.delete offline opId). view_frame. }
  assert (Hs3 : id_view s3 = id_view s2).
  { refine (returns_preserved id_view _ _ _ _ _ Happly). unfold applyOp. view_frame. }
  assert (Hlast : op' = op1 /\ id_view s' = id_view s3).
  { destruct result as [|modified engine_reverse].
    - inversion Hrun; subst. split; reflexivity.
    - apply bind_returns_inv in Hrun as (acc1 & s4 & Hrec & Hret).
      inversion Hret; subst. split; [reflexivity|].
      refine (returns_preserved id_view _ _ _ _ _ Hrec).
      unfold record_modified. view_frame. }
  destruct Hlast as [-> Hs']. rewrite Hs', Hs3, Hs2. clear Hs' Hs3 Hs2 Hrun Happly Hsource.
  unfold assign_opId in Hassign. simpl.
  destruct (not_truthy_string (Op.opId op)) eqn:Htruthy.
  - apply bind_returns_inv in Hassign as (opId & s0 & Hgen & Hret).
    inversion Hret; subst. clear Hret.
    apply generateOpId_returns in Hgen as [-> ->].
    split; [reflexivity|]. unfold id_view. simpl. f_equal. lia.
  - inversion Hassign; subst. split; [reflexivity|].
    unfold id_view. f_equal. lia.
Qed.

Lemma apply_loop_gives_opIds (items : HistoryItem) (isLocal : bool) :
  forall acc s acc' items' s',
    apply_loop items isLocal acc s = Returns (acc', items') s' ->
    items' = assign_opIds (connection_id s) (State.opClock s) items /\
    id_view s'
    = (State.connection s, State.lastConnectionId s,
       (State.opClock s + missing_opIds items)%nat).
Proof.
  induction items as [|item rest IH]; intros acc s acc' items' s' Hrun; simpl in Hrun.
  - inversion Hrun; subst. split; [reflexivity|].
    unfold id_view. simpl. f_equal. lia.
  - apply bind_returns_inv in Hrun as ([acc1 item1] & s1 & Hitem & Hrun).
    apply bind_returns_inv in Hrun as ([acc2 rest2] & s2 & Hrest & Hret).
    inversion Hret; subst. clear Hret.
    destruct (IH _ _ _ _ _ Hrest) as (-> & Hview2).
    destruct item as [op | data]; simpl in Hitem.
    + apply bind_returns_inv in Hitem as ([acc0 op0] & s0 & Hop & Hret).
      inversion Hret; subst. clear Hret.
      destruct (apply_op_gives_opId _ _ _ _ _ _ _ Hop) as (Hone & Hview1).
      assert (Hid : connection_id s1 = connection_id s).
      { unfold connection_id. unfold id_view in Hview1.
        injection Hview1 as -> -> _. reflexivity. }
      assert (Hclock : State.opClock s1
                       = (State.opClock s + missing_opIds [HOp op])%nat).
      { unfold id_view in Hview1. injection Hview1 as _ _ ->. reflexivity. }
      rewrite Hview2, Hid, Hclock. unfold id_view in Hview1.
      injection Hview1 as -> -> _. simpl in Hone |- *.
      destruct (not_truthy_string (Op.opId op)).
      * injection Hone as ->. rewrite Nat.add_1_r.
        split; [reflexivity | f_equal; lia].
      * injection Hone as ->. rewrite Nat.add_0_r.
        split; [reflexivity | f_equal; lia].
    + apply bind_returns_inv in Hitem as (acc0 & s0 & Hpresence & Hret).
      inversion Hret; subst. clear Hret.
      assert (Hview1 : id_view s1 = id_view s).
      { refine (returns_preserved id_view _ _ _ _ _ Hpresence).
        unfold apply_presence, modify_buffer. view_frame. }
      rewrite Hview2. rewrite (connection_id_of_view _ _ Hview1).
      unfold id_view in Hview1. injection Hview1 as -> -> ->.
      simpl. split; reflexivity.
Qed.

(** When [apply] returns, the entry it leaves is the entry it was given
    with an id on each op that had none: the id [generateOpId] makes, the
    connection id, a colon and the op clock, the clock counting on from its
    value before by one per id given.  So the ids that the ops carry where
    they had none are pairwise distinct, the clock has moved by their
    number, and every op of the entry carries an [opId]. *)
Theorem apply_assigns_opIds (item : HistoryItem) (isLocal : bool) (s : St)
    result item' s' :
  apply item isLocal s = Returns (result, item') s' ->
  item' = assign_opIds (connection_id s) (State.opClock s) item /\
  State.opClock s' = (State.opClock s + missing_opIds item)%nat /\
  connection_id s' = connection_id s /\
  opIds_given item item'
  = map Some (given_opIds (connection_id s) (State.opClock s) item) /\
  NoDup (opIds_given item item') /\
  Forall2 item_with_assigned_opId item item' /\
  Forall has_opId (storage_ops item').
Proof.
  intros Hrun. destruct (apply_loop_opIds _ _ _ _ _ _ _ Hrun) as (Hsame & Hids & _).
  destruct (apply_loop_gives_opIds _ _ _ _ _ _ _ Hrun) as (Hgiven & Hview).
  split; [exact Hgiven|]. unfold id_view in Hview. split; [congruence|].
  split; [unfold connection_id; injection Hview as -> -> _; reflexivity|].
  assert (Hnew : opIds_given item item'
                 = map Some (given_opIds (connection_id s) (State.opClock s) item))
    by (rewrite Hgiven at 1; apply opIds_given_assigned).
  split; [exact Hnew|].
  split; [rewrite Hnew; apply NoDup_fmap_2; [intros a b Hab; congruence
                                            | apply given_opIds_distinct]|].
  split; assumption.
Qed.

(** Remote ops are acknowledgements of the ops still recorded in
    [offlineOperations]: when [apply] returns from a list of remote ops,
    no op of the list is recorded under its [opId] any more, and the
    entries at the other ids are as they were. *)
Theorem apply_acknowledges (ops : list Op.t) (s : St) result item' s' :
  distinct_keys (State.offlineOperations s) ->
  apply (map HOp ops) false s = Returns (result, item') s' ->
  distinct_keys (State.offlineOperations s') /\
  (forall op k,
     In op ops -> Op.opId op = Some k -> k <> "" ->
     JsMap.get (State.offlineOperations s') k = None) /\
  (forall k,
     (forall op, In op (storage_ops item') -> Op.opId op <> Some k) ->
     JsMap.get (State.offlineOperations s') k = JsMap.get (State.offlineOperations s) k).
Proof.
  intros Hnd Hrun.
  destruct (apply_loop_opIds _ _ _ _ _ _ _ Hrun) as (Hsame & _ & _ & Hremote).
  destruct (Hremote eq_refl Hnd) as (Hnd' & _ & Hack & Hother).
  split; [exact Hnd'|]. split; [|exact Hother].
  intros op k Hin Hk Hne.
  assert (Hin' : In (HOp op) item').
  { clear - Hsame Hin Hk Hne. revert item' Hsame.
    induction ops as [|o ops IH]; intros item' Hsame; [destruct Hin|].
    inversion Hsame as [|? item1 ? rest1 Hone Hrest]; subst.
    destruct Hin as [-> | Hin]; [|right; apply IH; assumption].
    left. destruct item1 as [op1 | ?]; [|contradiction].
    destruct Hone as [-> | [Hfalse _]]; [reflexivity|].
    rewrite Hk in Hfalse. simpl in Hfalse.
    destruct (String.eqb_spec k ""); [contradiction | discriminate]. }
  apply (Hack op k); [|exact Hk].
  clear - Hin'. induction item' as [|i item' IH]; [destruct Hin'|].
  destruct Hin' as [-> | Hin']; simpl; [left; reflexivity|].
  destruct i; [right|]; apply IH; exact Hin'.
Qed.

(** ** Buffered ops always carry an [opId] *)

Lemma apply_loop_keeps_buffered_ops (items : HistoryItem) (isLocal : bool) :
  forall acc, preserves (@buffered_ops LiveNode StorageUpdate) (apply_loop items isLocal acc).
Proof.
  induction items as [|item rest IH]; intros acc; simpl.
  - apply preserves_ret.
  - apply preserves_bind; [| intros [acc1 item1]].
    + unfold apply_item, apply_presence, apply_op, assign_opId, op_source, record_modified,
        generateOpId, getConnectionId, applyOp, modify_buffer.
      destruct item; view_frame.
      intros s. unfold buffered_ops. simpl.
      destruct (Buffer.presence (State.buffer s)); reflexivity.
    + apply preserves_bind; [apply IH | intros [acc2 rest2]; apply preserves_ret].
Qed.

Lemma tryFlushing_keeps_ready :
  keeps (@flush_ready LiveNode StorageUpdate) (tryFlushing env context).
Proof.
  intros s Hready. destruct (tryFlushing_ready s Hready) as (s' & Hrun & Hready' & _).
  rewrite Hrun. exact Hready'.
Qed.

(** What [undo] and [redo] do once they have popped their entry. *)
Lemma replay_keeps_ready (push : ApplyLocals -> St -> St) (item : HistoryItem) :
  (forall result s, State.buffer (push result s) = State.buffer s) ->
  keeps flush_ready
    (let* '(result, historyItem) := apply item true in
     notify (storageUpdates result) (presence result) [] >>
     modify (push result) >>
     onHistoryChange >>
     modify_buffer (fun b =>
       Buffer.with_storageOperations
         (Buffer.storageOperations b ++ storage_ops historyItem) b) >>
     tryFlushing env context).
Proof.
  intros Hpush s Hready. unfold bind at 1.
  pose proof (apply_loop_keeps_buffered_ops item true apply_locals_init s) as Hbuffer.
  unfold apply.
  destruct (apply_loop item true apply_locals_init s) as [[result item'] s1 | e s1] eqn:Happly;
    simpl in Hbuffer.
  - destruct (apply_loop_opIds _ _ _ _ _ _ _ Happly) as (_ & Hids & _).
    destruct (notify_keeps_view (storageUpdates result) (presence result) [] s1)
      as (s2 & Hnotify & Hview2).
    unfold bind at 1. rewrite Hnotify. rewrite bind_modify.
    destruct (onHistoryChange_keeps_view (push result s2)) as (s3 & Hchange & Hview3).
    unfold bind at 1. rewrite Hchange. unfold modify_buffer. rewrite bind_modify.
    apply tryFlushing_keeps_ready.
    unfold flush_ready. simpl. apply Forall_app. split; [|exact Hids].
    apply (f_equal fst) in Hview2, Hview3. simpl in Hview2, Hview3.
    rewrite Hview3, Hpush, Hview2.
    change (Forall has_opId (buffered_ops s1)). rewrite Hbuffer. exact Hready.
  - change (Forall has_opId (buffered_ops s1)). rewrite Hbuffer. exact Hready.
Qed.

Lemma undo_keeps_ready : keeps (@flush_ready LiveNode StorageUpdate) (undo env context).
Proof.
  intros s Hready. unfold undo. rewrite bind_gets.
  destruct (State.isBatching s); [exact Hready|]. rewrite bind_gets.
  destruct (last (State.undoStack s)) as [item|]; [|exact Hready].
  rewrite bind_modify, bind_modify.
  apply (replay_keeps_ready
           (fun result s => State.with_redoStack (State.redoStack s ++ [reverse result]) s));
    [reflexivity | exact Hready].
Qed.

Lemma redo_keeps_ready : keeps (@flush_ready LiveNode StorageUpdate) (redo env context).
Proof.
  intros s Hready. unfold redo. rewrite bind_gets.
  destruct (State.isBatching s); [exact Hready|]. rewrite bind_gets.
  destruct (last (State.redoStack s)) as [item|]; [|exact Hready].
  rewrite bind_modify, bind_modify.
  apply (replay_keeps_ready
           (fun result s => State.with_undoStack (State.undoStack s ++ [reverse result]) s));
    [reflexivity | exact Hready].
Qed.

(** ** The ops that wait keep their ids along every run *)

Lemma ops_ready_of_preserves {A} (c : M St A) :
  preserves ops_view c -> keeps ops_ready c.
Proof.
  intros Hc s [Hready Hbatch]. specialize (Hc s). unfold ops_view in Hc.
  injection Hc as Hbuffer Hops. unfold ops_ready, flush_ready.
  change (Forall has_opId (buffered_ops (final (c s))) /\
          Forall has_opId (Batch.ops (State.batch (final (c s))))).
  rewrite Hbuffer, Hops. split; assumption.
Qed.

Lemma tryFlushing_keeps_ops_ready :
  keeps (@ops_ready LiveNode StorageUpdate) (tryFlushing env context).
Proof.
  intros s [Hready Hbatch]. split; [apply tryFlushing_keeps_ready; exact Hready|].
  rewrite (preserves_tryFlushing _ batch_blind s). exact Hbatch.
Qed.

Lemma dispatch_keeps_ops_ready (ops : list Op.t) :
  Forall has_opId ops -> keeps (@ops_ready LiveNode StorageUpdate) (dispatch env context ops).
Proof.
  intros Hops s [Hready Hbatch]. unfold dispatch, modify_buffer. rewrite bind_modify.
  apply tryFlushing_keeps_ops_ready. split; [|exact Hbatch].
  unfold flush_ready. simpl. apply Forall_app. split; assumption.
Qed.

Lemma apply_loop_keeps_ops_view (items : HistoryItem) (isLocal : bool) :
  forall acc, preserves (@ops_view LiveNode StorageUpdate) (apply_loop items isLocal acc).
Proof.
  induction items as [|item rest IH]; intros acc; simpl.
  - apply preserves_ret.
  - apply preserves_bind; [| intros [acc1 item1]].
    + unfold apply_item, apply_presence, apply_op, assign_opId, op_source, record_modified,
        generateOpId, getConnectionId, applyOp, modify_buffer.
      destruct item; view_frame.
      intros s. unfold ops_view, buffered_ops. simpl.
      destruct (Buffer.presence (State.buffer s)); reflexivity.
    + apply preserves_bind; [apply IH | intros [acc2 rest2]; apply preserves_ret].
Qed.

Lemma apply_keeps_ops_view (items : HistoryItem) (isLocal : bool) :
  preserves (@ops_view LiveNode StorageUpdate) (apply items isLocal).
Proof. unfold apply. apply apply_loop_keeps_ops_view. Qed.

Lemma modify_buffer_keeps_ops_view (f : Buffer.t -> Buffer.t) :
  (forall b, Buffer.storageOperations (f b) = Buffer.storageOperations b) ->
  preserves (@ops_view LiveNode StorageUpdate) (modify_buffer f).
Proof.
  intros Hf. apply preserves_modify. intros s. unfold ops_view, buffered_ops. simpl.
  rewrite Hf. reflexivity.
Qed.

Lemma keeps_try_finally {A} (P : St -> Prop) (c : M St A) (h : M St unit) :
  keeps P c -> keeps P h -> keeps P (try_finally c h).
Proof.
  intros Hc Hh s HP. rewrite final_try_finally. apply Hh. apply Hc. exact HP.
Qed.

Lemma undo_redo_keep_ops_ready :
  keeps (@ops_ready LiveNode StorageUpdate) (undo env context) /\
  keeps (@ops_ready LiveNode StorageUpdate) (redo env context).
Proof.
  split; intros s [Hready Hbatch]; (split; [first [apply undo_keeps_ready
                                                   | apply redo_keeps_ready]; exact Hready|]).
  - assert (Hp : preserves State.batch (undo env context))
      by (unfold undo; frame_machine batch_blind).
    rewrite (Hp s). exact Hbatch.
  - assert (Hp : preserves State.batch (redo env context))
      by (unfold redo; frame_machine batch_blind).
    rewrite (Hp s). exact Hbatch.
Qed.

(** One step of the proof that a computation keeps the waiting ops with
    their ids. *)
Ltac ready_step :=
  first
    [ apply tryFlushing_keeps_ops_ready
    | (apply ops_ready_of_preserves; solve [apply apply_keeps_ops_view | view_frame])
    | (apply ops_ready_of_preserves; apply modify_buffer_keeps_ops_view;
       solve [intros b; destruct (Buffer.presence b); reflexivity])
    | apply keeps_bind; [| intros ?]
    | apply keeps_when
    | apply keeps_for_each; intros ?
    | match goal with
      | |- keeps _ (match ?x with _ => _ end) => destruct x
      end ].

Lemma storageDispatch_keeps_ops_ready ops reverse storageUpdates :
  Forall has_opId ops ->
  keeps (@ops_ready LiveNode StorageUpdate) (storageDispatch env context ops reverse storageUpdates).
Proof.
  intros Hops. unfold storageDispatch.
  apply keeps_bind; [ready_step | intros isBatching]. destruct isBatching.
  - intros s [Hready Hbatch]. unfold modify_batch. rewrite !bind_modify. simpl.
    split; [exact Hready|]. simpl. apply Forall_app. split; assumption.
  - unfold addToUndoStack, onHistoryChange, canUndo, canRedo, notify.
    repeat first [ apply (dispatch_keeps_ops_ready _ Hops) | ready_step ].
Qed.

Ltac ready := repeat ready_step.

Lemma route_all_keeps_ops_ready messages updates :
  keeps (@ops_ready LiveNode StorageUpdate) (route_all env context messages updates).
Proof.
  revert updates. induction messages as [|message rest IH]; intros updates; simpl.
  - intros s Hs. exact Hs.
  - apply keeps_bind; [| intros ?; apply IH].
    unfold route. destruct updates as [others storage].
    destruct message;
      unfold onUserJoinedMessage, onUpdatePresenceMessage, onEvent, onUserLeftMessage,
        onRoomStateMessage, modify_buffer;
      ready.
Qed.

Lemma batch_finally_keeps_ops_ready :
  keeps (@ops_ready LiveNode StorageUpdate) (batch_finally env context).
Proof.
  unfold batch_finally, addToUndoStack, onHistoryChange, canUndo, canRedo.
  apply keeps_bind; [ready_step | intros _].
  apply keeps_bind; [ready | intros _].
  apply keeps_bind; [ready | intros _].
  apply keeps_bind; [| intros _].
  - intros s Hs. rewrite bind_gets.
    destruct (0 <? length (Batch.ops (State.batch s)))%nat; [|exact Hs].
    apply (dispatch_keeps_ops_ready _ (proj2 Hs)). exact Hs.
  - apply keeps_bind; [ready | intros _].
    apply keeps_bind; [| intros _; apply tryFlushing_keeps_ops_ready].
    intros s [Hready Hbatch]. split; [exact Hready | constructor].
Qed.

(** A call keeps the ops that wait with their ids, when the ops a node
    dispatches carry one. *)
Lemma exec_call_keeps_ops_ready (c : Call) :
  mutation_with_opIds c -> keeps ops_ready (exec_call env context c).
Proof.
  intros Hc. destruct c; simpl.
  - unfold connect, prepareAuthEndpoint, prepareCreateWebSocket, updateConnection,
      effects_authenticate. ready.
  - unfold disconnect, drop_socket, updateConnection, clear_flush_if_set, clearTimeout,
      clearInterval, clearListeners. ready.
  - unfold updatePresence, modify_batch, addToUndoStack, onHistoryChange, canUndo, canRedo.
    ready.
  - unfold broadcastEvent, modify_buffer. ready.
  - apply undo_redo_keep_ops_ready.
  - apply undo_redo_keep_ops_ready.
  - unfold pauseHistory. ready.
  - unfold resumeHistory, addToUndoStack, onHistoryChange, canUndo, canRedo. ready.
  - apply keeps_bind; [ready | intros _].
    apply storageDispatch_keeps_ops_ready. exact Hc.
  - unfold authenticationSuccess, updateConnection. ready.
  - unfold authenticationFailure, updateConnection, getRetryDelay,
      effects_scheduleReconnect. ready.
  - unfold onOpen, updateConnection, clearInterval, effects_startHeartbeatInterval. ready.
  - unfold onClose, updateConnection, clear_flush_if_set, clearTimeout, clearInterval,
      getRetryDelay, effects_scheduleReconnect. ready.
  - unfold onMessage, clearTimeout.
    repeat first [ apply route_all_keeps_ops_ready | ready_step ].
  - unfold heartbeat, clearTimeout, effects_schedulePongTimeout. ready.
  - unfold pongTimeout, reconnect, connect, prepareAuthEndpoint, prepareCreateWebSocket,
      updateConnection, drop_socket, effects_authenticate, clear_flush_if_set, clearTimeout,
      clearInterval. ready.
  - unfold onNavigatorOnline, reconnect, connect, prepareAuthEndpoint,
      prepareCreateWebSocket, updateConnection, drop_socket, effects_authenticate,
      clear_flush_if_set, clearTimeout, clearInterval. ready.
  - unfold onVisibilityChange, heartbeat, clearTimeout, effects_schedulePongTimeout. ready.
  - ready.
  - unfold simulateSocketClose. ready.
  - apply ops_ready_of_preserves. apply preserves_modify. intros s.
    destruct (State.socket s); reflexivity.
  - apply ops_ready_of_preserves. apply preserves_throw.
Qed.

Lemma exec_keeps_ops_ready (c : TopCall) :
  top_with_opIds c -> keeps ops_ready (exec env context c).
Proof.
  intros Hc. destruct c as [c | callback]; simpl.
  - apply exec_call_keeps_ops_ready. exact Hc.
  - unfold batch. apply keeps_bind; [ready_step | intros isBatching].
    destruct isBatching; [apply ops_ready_of_preserves; apply preserves_throw|].
    apply keeps_bind; [ready_step | intros _].
    apply keeps_try_finally; [| apply batch_finally_keeps_ops_ready].
    simpl in Hc. induction Hc as [|c callback Hhead Htail IH]; simpl.
    + intros s Hs. exact Hs.
    + apply keeps_bind; [apply exec_call_keeps_ops_ready; exact Hhead | intros _; exact IH].
Qed.

Lemma run_keeps_ops_ready (calls : list TopCall) :
  Forall top_with_opIds calls -> forall s, ops_ready s -> ops_ready (run env context calls s).
Proof.
  induction 1 as [|c calls Hhead Htail IH]; intros s Hs; simpl; [exact Hs|].
  apply IH. apply exec_keeps_ops_ready; assumption.
Qed.

(** Every op the machine holds back, in the buffer or in the batch, carries
    an [opId] after any run of calls whose node mutations dispatch ops with
    an [opId]; so the flush that follows, which reads the [opId] of each
    buffered op, returns. *)
Theorem waiting_ops_carry_opIds (calls : list TopCall) (s : St) :
  Forall top_with_opIds calls -> ops_ready s ->
  ops_ready (run env context calls s) /\
  exists s', tryFlushing env context (run env context calls s) = Returns tt s'.
Proof.
  intros Hcalls Hs. pose proof (run_keeps_ops_ready calls Hcalls s Hs) as Hrun.
  split; [exact Hrun|].
  destruct (tryFlushing_ready _ (proj1 Hrun)) as (s' & Hflush & _).
  exists s'. exact Hflush.
Qed.
End Properties.

(** * Runs of the machine on the small node engine *)

Module Runs.
Import Toy.
Import Inputs.

(** ** C9 *)

Lemma undo_redo_on_empty_stack_witness :
  undo env context fresh = Returns tt fresh /\
  redo env context fresh = Returns tt fresh.
Proof.
  destruct (undo_redo_on_empty_stack env context fresh eq_refl) as [Hundo Hredo].
  split; [apply Hundo | apply Hredo]; reflexivity.
Defined.

(** ** C1 *)

(** C1. From [defaultState()], after fifty [updatePresence] with
    [addToHistory], an [undo()], one more such [updatePresence] and a
    [redo()], the undo stack holds 51 entries: [redo] pushes onto a stack of
    fifty without shifting the oldest entry out. *)
Theorem redo_exceeds_the_undo_stack_bound :
  length (State.undoStack (run env context (removelast fifty_one_entries) fresh)) = 50%nat /\
  length (State.redoStack (run env context (removelast fifty_one_entries) fresh)) = 1%nat /\
  length (State.undoStack (run env context fifty_one_entries fresh)) = 51%nat.
Proof. vm_compute. repeat split. Qed.

(** ** C2 *)

Lemma updatePresence_leaves_the_redo_stack :
  State.isBatching one_to_redo = false /\
  length (State.redoStack one_to_redo) = 1%nat /\
  State.redoStack (final (updatePresence env context (x_is 2) None one_to_redo)) <> [] /\
  State.redoStack (final (updatePresence env context (x_is 2) (Some true) one_to_redo)) <> [].
Proof. vm_compute. repeat split; discriminate. Qed.

Lemma redoStack_after_local_mutation_witness :
  State.redoStack (final (storageDispatch env context [update_root] [update_root] [] one_to_redo))
  = [] /\
  State.redoStack
    (final (batch env context (storageDispatch env context [update_root] [] []) one_to_redo))
  = [] /\
  State.redoStack (final (updatePresence env context (x_is 2) None one_to_redo))
  = State.redoStack one_to_redo.
Proof.
  destruct (redoStack_after_local_mutation env context one_to_redo eq_refl)
    as (Hstorage & Hbatch & Hpresence).
  split; [apply Hstorage|]. split; [|apply Hpresence].
  apply Hbatch. vm_compute. discriminate.
Defined.

(** ** C3 *)

Lemma onUpdatePresenceMessage_spec_witness :
  onUpdatePresenceMessage untargeted with_actor_7 = Returns None with_actor_7 /\
  onMessage env context (Frame.messages [ServerMsg.UPDATE_PRESENCE untargeted]) with_actor_7
  = Returns tt with_actor_7 /\
  returned (onUpdatePresenceMessage targeted with_actor_7)
  = Some (Some (OE_update (cursor_is 2)
                  (User.mk 7 (Some "user-7") None (Some (cursor_is 2)) (Some true)))).
Proof.
  destruct (onUpdatePresenceMessage_spec env context untargeted with_actor_7)
    as (Hdrop & _ & _).
  destruct (onUpdatePresenceMessage_spec env context targeted with_actor_7)
    as (_ & _ & Hmerge).
  assert (Huser : State.users with_actor_7 !! 7
                  = Some (User.mk 7 (Some "user-7") None None None))
    by (vm_compute; reflexivity).
  destruct (Hdrop _ eq_refl Huser eq_refl) as [Hhandler Hframe].
  split; [exact Hhandler|]. split; [exact Hframe|].
  assert (Htarget : UpdatePresenceServerMsg.targetActor targeted <> None)
    by discriminate.
  destruct (Hmerge _ Huser (or_introl Htarget)) as [Hrun _].
  rewrite Hrun. vm_compute. reflexivity.
Defined.

(** ** C4 *)

Lemma onClose_spec_witness :
  State.trace (final (onClose env 4001 true "kicked" listening))
  = [Effect.clearTimeout 0; Effect.clearInterval 0; Effect.clearTimeout 0;
     Effect.call_others (listener 1) ∅ OE_reset;
     Effect.call_connection (listener 3) Connection.failed;
     Effect.call_error (listener 2) "kicked" 4001;
     Effect.call_connection (listener 3) Connection.unavailable;
     Effect.scheduleReconnect 60000] /\
  State.connection (final (onClose env 4999 true "bye" listening)) = Connection.Closed /\
  State.trace (final (onClose env 1006 false "" listening))
  = [Effect.clearTimeout 0; Effect.clearInterval 0; Effect.clearTimeout 0;
     Effect.call_others (listener 1) ∅ OE_reset;
     Effect.call_connection (listener 3) Connection.unavailable;
     Effect.scheduleReconnect 1000].
Proof.
  split; [|split].
  - destruct (onClose_spec env 4001 true "kicked" listening) as (_ & _ & Hfailed & _ & _).
    destruct (Hfailed ltac:(lia)) as (_ & _ & _ & Htrace). exact Htrace.
  - destruct (onClose_spec env 4999 true "bye" listening) as (_ & _ & _ & Hclosed & _).
    destruct (Hclosed ltac:(lia) eq_refl) as (Hconnection & _). exact Hconnection.
  - destruct (onClose_spec env 1006 false "" listening) as (_ & _ & _ & _ & Hretry).
    destruct (Hretry ltac:(lia) ltac:(discriminate)) as (_ & _ & Htrace). exact Htrace.
Defined.

(** ** C6 *)

Lemma tryFlushing_records_offline_witness :
  JsMap.get (State.offlineOperations (final (tryFlushing env context two_buffered))) "1:0"
  = Some op_a /\
  JsMap.get (State.offlineOperations (final (tryFlushing env context two_buffered))) "1:1"
  = Some op_b /\
  Buffer.storageOperations (State.buffer (final (tryFlushing env context two_buffered))) = [] /\
  State.trace (final (tryFlushing env context two_buffered)) = [].
Proof.
  assert (Hall : Forall has_opId (Buffer.storageOperations (State.buffer two_buffered))).
  { repeat constructor; eexists; reflexivity. }
  destruct (tryFlushing_records_offline env context two_buffered Hall)
    as (_ & _ & Hdistinct & Hdown).
  assert (Hnd : NoDup (map Op.opId (Buffer.storageOperations (State.buffer two_buffered)))).
  { apply (bool_decide_unpack _). vm_compute. exact I. }
  split; [|split].
  - apply (Hdistinct Hnd op_a "1:0"); [left; reflexivity | reflexivity].
  - apply (Hdistinct Hnd op_b "1:1"); [right; left; reflexivity | reflexivity].
  - apply Hdown. reflexivity.
Defined.

(** ** C7 *)

Lemma connect_throws_without_polyfill :
  may_connect fresh /\
  returned (connect no_dom context fresh) = None /\
  final (connect no_dom context fresh) = fresh.
Proof. split; [left; reflexivity|]. split; reflexivity. Qed.

Lemma connect_spec_witness :
  connect env context fresh
  = Returns None
      (State.with_trace
         [Effect.authenticate
            (auth_public (host_function "fetch") "/api/auth" "pk_test")
            (SocketFactory.mk "wss://liveblocks.net/v5" (host_function "WebSocket"))]
         (State.with_connection Connection.Authenticating fresh)) /\
  connect env context listening = Returns (Some tt) listening.
Proof.
  split.
  - destruct (connect_spec env context fresh) as (_ & Hgo & _).
    apply (Hgo (or_introl eq_refl)); reflexivity.
  - destruct (connect_spec env context listening) as (Hstay & _ & _).
    apply Hstay. intros [Hc | Hc]; discriminate Hc.
Defined.

(** ** C5 *)

(** The engine reports the second op as modified, with the deletion of the
    inner object as its reverse; the reverse list [apply] returns holds the
    deletion of the outer object only. *)
Lemma apply_drops_reverse_of_nested_create :
  returned (applyOp create_inner OpSource.REMOTE
              (final (apply [HOp create_outer] false with_root)))
  = Some (Modified outer_node [delete_op "2:2"]) /\
  option_map (fun r => reverse (fst r))
    (returned (apply [HOp create_outer; HOp create_inner] false with_root))
  = Some [HOp (delete_op "2:1")].
Proof. vm_compute. split; reflexivity. Qed.

(** The second op of the entry creates an object inside the object the
    first op created: the engine reports the outer object as modified, with
    the deletion of the inner object as reverse; the root, parent of the
    outer object, is in [createdNodeIds], and the reverse list stays the
    deletion of the outer object. *)
Lemma apply_reverse_of_op_witness :
  exists result entry' s',
    apply ([HOp create_outer] ++ [HOp create_inner]) false with_root
    = Returns (result, entry') s' /\
    returned (applyOp create_inner OpSource.REMOTE
                (final (apply [HOp create_outer] false with_root)))
    = Some (Modified outer_node [delete_op "2:2"]) /\
    reverse result = [HOp (delete_op "2:1")].
Proof.
  destruct (apply ([HOp create_outer] ++ [HOp create_inner]) false with_root)
    as [[result entry'] s' | e s'] eqn:Happly.
  - exists result, entry', s'. split; [reflexivity|].
    split; [vm_compute; reflexivity|].
    destruct (apply_reverse_of_op [HOp create_outer] [] create_inner false with_root
                result entry' s' Happly)
      as (locals & before' & s1 & op' & s2 & source & s3 & applyOpResult & s4 & locals' &
          front & Hbefore & Hassign & Hsource & Hengine & _ & Hreverse & _ & _ & _ & Hlast).
    rewrite (Hlast eq_refl), Hreverse.
    vm_compute in Hbefore. injection Hbefore as <- <- <-.
    vm_compute in Hassign. injection Hassign as <- <-.
    vm_compute in Hsource. injection Hsource as <- <-.
    vm_compute in Hengine. injection Hengine as <- <-.
    vm_compute. reflexivity.
  - vm_compute in Happly. discriminate Happly.
Defined.

(** The same loss for a node that was there before: the first op creates
    an object under the root, the second updates another child of the
    root; the engine reports the child as modified, with a reverse op, and
    the reverse list holds the deletion of the new object only. *)
Example apply_drops_reverse_of_sibling_update :
  returned (applyOp update_child OpSource.REMOTE
              (final (apply [HOp create_outer] false with_child)))
  = Some (Modified child_node [Op.with_opId None update_child]) /\
  option_map (fun r => reverse (fst r))
    (returned (apply [HOp create_outer; HOp update_child] false with_child))
  = Some [HOp (delete_op "2:1")].
Proof. vm_compute. split; reflexivity. Qed.

(** ** C8 *)

Lemma onOpen_when_lastConnectionId_null_witness :
  State.lastConnectionId first_connecting = null /\
  exists s1,
    State.buffer s1 = State.buffer first_connecting /\
    State.me s1 = State.me first_connecting /\
    State.lastConnectionId s1 = null /\
    State.connection s1 = Connection.Open 1 None None /\
    onOpen env context first_connecting
    = bind (tryFlushing env context)
        (fun _ =>
         bind (modify (State.with_lastConnectionId (value 1)))
           (fun _ =>
            bind (bind (gets State.root)
                    (fun root =>
                     when (match root with Some _ => true | None => false end)
                       (modify_buffer (fun b =>
                          Buffer.with_messages (Buffer.messages b ++ [FETCH_STORAGE]) b))))
              (fun _ => tryFlushing env context)))
        (State.with_buffer
           (Buffer.with_presence
              (Some (PresenceBuffer.mk PresenceBuffer.full (State.me first_connecting) true))
              (State.buffer first_connecting)) s1).
Proof.
  split; [reflexivity|].
  apply (onOpen_when_lastConnectionId_null env context first_connecting 1 None None);
    reflexivity.
Defined.

(** What the open handler leaves in the trace on this first connection: the
    full presence is sent by the first of its two flushes. *)
Example first_open_sends_full_presence :
  State.trace (final (onOpen env context first_connecting))
  = (State.trace first_connecting
     ++ [Effect.clearInterval 0; Effect.startHeartbeatInterval;
         Effect.send [UPDATE_PRESENCE (x_is 1) (Some (-1))];
         Effect.delayFlush 100])%list.
Proof. vm_compute. reflexivity. Qed.

(** ** C10 *)

Lemma undo_redo_leave_pausedHistory_witness :
  State.isHistoryPaused paused_with_item = true /\
  length (State.pausedHistory paused_with_item) = 1%nat /\
  State.isHistoryPaused (final (undo env context paused_with_item)) = false /\
  State.pausedHistory (final (undo env context paused_with_item))
  = State.pausedHistory paused_with_item /\
  State.undoStack (final (undo env context paused_with_item)) = [].
Proof.
  split; [reflexivity|]. split; [reflexivity|].
  destruct (undo_redo_leave_pausedHistory env context paused_with_item eq_refl)
    as [Hundo _].
  assert (Hne : State.undoStack paused_with_item <> []) by (vm_compute; discriminate).
  destruct (Hundo Hne) as (Hflag & Hpaused & Hstack).
  split; [exact Hflag|]. split; [exact Hpaused|].
  rewrite Hstack. vm_compute. reflexivity.
Defined.

(** ** The cap on the path through [addToUndoStack] *)

Lemma addToUndoStack_bound_witness :
  length (State.undoStack fifty_entries) = 50%nat /\
  (length (State.undoStack (final (addToUndoStack [HPresence (x_is 0)] fifty_entries)))
   <= 50)%nat.
Proof.
  split; [vm_compute; reflexivity|].
  apply addToUndoStack_bound. apply Nat.leb_le. vm_compute. reflexivity.
Defined.

(** ** The bound along a run without [redo] *)

Lemma history_bound_without_redo_witness :
  history_bounded (run env context busy_without_redo fresh) /\
  length (State.undoStack (run env context busy_without_redo fresh)) = 49%nat.
Proof.
  split; [|vm_compute; reflexivity].
  apply history_bound_without_redo.
  - unfold busy_without_redo. apply Forall_app. split.
    + apply Forall_replicate. discriminate.
    + repeat constructor; discriminate.
  - unfold history_bounded. apply Nat.leb_le. vm_compute. reflexivity.
Defined.

(** ** Reconnecting *)

Lemma reconnect_then_authenticate_witness :
  State.connection
    (final (default_authenticate (fun _ => mkRoomAuthToken 1 None None) (fun _ => false)
              (fun _ => WebSocket.mk ReadyState.CONNECTING)
              (final (reconnect env context with_token))))
  = Connection.Connecting 1 None None /\
  State.connection (final (reconnect env context listening)) = Connection.Authenticating /\
  final (default_authenticate (fun _ => mkRoomAuthToken 1 None None) (fun _ => false)
           (fun _ => WebSocket.mk ReadyState.CONNECTING)
           (final (reconnect env context listening)))
  = final (reconnect env context listening).
Proof.
  destruct (reconnect_then_authenticate (LiveNode:=Node) (StorageUpdate:=Node) env context
              (fun _ => mkRoomAuthToken 1 None None) (fun _ => false)
              (fun _ _ => WebSocket.mk ReadyState.CONNECTING) eq_refl eq_refl)
    as (auth & createWebSocket & Hall).
  split.
  - destruct (Hall with_token) as (s1 & s2 & Hrun & _ & _ & _ & _ & _ & Hdefault & _ & Hafter).
    rewrite Hrun. simpl. rewrite Hdefault. simpl. exact (proj1 Hafter).
  - destruct (Hall listening)
      as (s1 & s2 & Hrun & Hconnection & _ & _ & _ & _ & Hdefault & _ & Hafter).
    rewrite Hrun. simpl. rewrite Hdefault. simpl. split; [exact Hconnection | exact Hafter].
Defined.

(** ** Undo, then redo *)

Lemma undo_then_redo_presence_witness :
  same_presence
    (State.me (final (redo env context (final (undo env context one_update)))))
    (State.me one_update) /\
  State.undoStack (final (redo env context (final (undo env context one_update))))
  = State.undoStack one_update.
Proof.
  assert (Hb : State.isBatching one_update = false) by (vm_compute; reflexivity).
  assert (Hlast : last (State.undoStack one_update)
                  = Some (map HPresence [{[ "x" := None ]}]))
    by (vm_compute; reflexivity).
  destruct (undo_then_redo_presence env context [{[ "x" := None ]}] one_update Hb Hlast)
    as (_ & Hme & Hundo & _).
  split; assumption.
Defined.

(** ** Presence updates and the history *)

Lemma x_is_defined (n : Z) : all_defined (x_is n).
Proof. apply map_Forall_singleton. eexists. reflexivity. Qed.

Lemma fresh_is_ready : flush_ready fresh.
Proof. unfold flush_ready. vm_compute. constructor. Qed.


Lemma undo_restores_presence_witness :
  same_presence
    (State.me (final (undo env context
                        (final (updatePresence env context (x_is 1) (Some true) fresh)))))
    (State.me fresh).
Proof.
  assert (Hb : State.isBatching fresh = false) by reflexivity.
  assert (Hp : State.isHistoryPaused fresh = false) by reflexivity.
  assert (Hs : buffer_shares_me fresh = false) by reflexivity.
  destruct (undo_restores_presence env context (x_is 1) fresh Hb Hp Hs
              (x_is_defined 1) fresh_is_ready) as (_ & Hsame & _).
  exact Hsame.
Defined.



Lemma batch_of_updates_makes_one_entry_witness :
  State.undoStack
    (final (exec env context
              (top_batch (map (fun o => call_updatePresence o (Some true)) two_updates))
              fresh))
  = [map HPresence (pushed_reverses two_updates ∅)].
Proof.
  assert (Hne : two_updates <> []) by discriminate.
  assert (Hb : State.isBatching fresh = false) by reflexivity.
  assert (Hp : State.isHistoryPaused fresh = false) by reflexivity.
  assert (Hbatch : State.batch fresh = Batch.empty) by reflexivity.
  assert (Hs : buffer_shares_me fresh = false) by reflexivity.
  assert (Hd : Forall all_defined two_updates)
    by (repeat constructor; apply x_is_defined).
  destruct (batch_of_updates_makes_one_entry env context two_updates fresh Hne Hb Hp
              Hbatch Hs Hd) as (Hundo & _).
  exact Hundo.
Defined.

Lemma undo_of_two_batched_updates_witness :
  js_get (State.me fresh) "x" = None /\
  js_get
    (State.me
       (final (undo env context
                 (final (exec env context
                           (top_batch [call_updatePresence (x_is 1) (Some true);
                                       call_updatePresence (x_is 2) (Some true)])
                           fresh)))))
    "x"
  = Some (JNumber 1).
Proof.
  assert (Hb : State.isBatching fresh = false) by reflexivity.
  assert (Hp : State.isHistoryPaused fresh = false) by reflexivity.
  assert (Hbatch : State.batch fresh = Batch.empty) by reflexivity.
  assert (Hs : buffer_shares_me fresh = false) by reflexivity.
  split; [vm_compute; reflexivity|].
  destruct (undo_of_two_batched_updates env context (x_is 1) (x_is 2) fresh Hb Hp Hbatch
              Hs (x_is_defined 1) (x_is_defined 2)) as (Hread & _).
  rewrite (Hread "x"). vm_compute. reflexivity.
Defined.

(** ** The others, the flush and the ids of ops *)

Lemma room_state_then_presence_witness :
  exists s1,
    onRoomStateMessage [(7, (Some "user-7", None))] fresh = Returns OE_reset s1 /\
    onUpdatePresenceMessage untargeted s1 = Returns None s1.
Proof.
  assert (Hin : In 7 (map fst [(7, (Some "user-7", @None Json))])) by (left; reflexivity).
  destruct (room_state_then_presence (LiveNode:=Node) (StorageUpdate:=Node)
              [(7, (Some "user-7", None))] 7 (cursor_is 1) fresh Hin)
    as (s1 & u & Hroom & _ & _ & _ & Hignored & _).
  exists s1. split; [exact Hroom | exact Hignored].
Defined.

Lemma tryFlushing_throttle_witness :
  State.trace (final (tryFlushing env context open_with_two_buffered))
  = (State.trace open_with_two_buffered
     ++ [Effect.send (flushDataToMessages open_with_two_buffered)])%list /\
  State.buffer (final (tryFlushing env context open_with_two_buffered)) = Buffer.empty.
Proof.
  assert (Hopen : socket_not_open open_with_two_buffered = false) by reflexivity.
  assert (Hready : flush_ready open_with_two_buffered).
  { repeat constructor; eexists; reflexivity. }
  pose proof (tryFlushing_throttle env context open_with_two_buffered Hopen Hready) as H.
  cbv zeta in H. destruct H as (_ & Hsend & _).
  assert (Hlate : Context.throttleDelay context
                  < Env.Date_now env (State.env_tick open_with_two_buffered)
                    - State.lastFlushTime open_with_two_buffered) by reflexivity.
  assert (Hdata : flushDataToMessages open_with_two_buffered <> []) by discriminate.
  destruct (Hsend Hlate Hdata) as (Htrace & Hbuffer & _).
  split; [exact Htrace | exact Hbuffer].
Defined.

Lemma apply_assigns_opIds_witness :
  exists result s',
    apply [HOp unsent; HPresence (x_is 1); HOp unsent] true with_root
    = Returns (result,
               [HOp (Op.with_opId (Some "1:0") unsent); HPresence (x_is 1);
                HOp (Op.with_opId (Some "1:1") unsent)]) s' /\
    State.opClock s' = 2%nat.
Proof.
  destruct (apply [HOp unsent; HPresence (x_is 1); HOp unsent] true with_root)
    as [[result item'] s' | e s'] eqn:Happly.
  - destruct (apply_assigns_opIds [HOp unsent; HPresence (x_is 1); HOp unsent] true
                with_root result item' s' Happly) as (Hitem & Hclock & _).
    exists result, s'. split; [|exact Hclock].
    rewrite Hitem. reflexivity.
  - vm_compute in Happly. discriminate Happly.
Defined.

Lemma apply_acknowledges_witness :
  JsMap.get (State.offlineOperations two_unacknowledged) "1:0" = Some op_a /\
  JsMap.get (State.offlineOperations (final (apply [HOp op_a] false two_unacknowledged)))
    "1:0" = None /\
  JsMap.get (State.offlineOperations (final (apply [HOp op_a] false two_unacknowledged)))
    "1:1" = Some op_b.
Proof.
  assert (Hdistinct : distinct_keys (State.offlineOperations two_unacknowledged)).
  { apply (bool_decide_unpack _). vm_compute. exact I. }
  split; [reflexivity|].
  destruct (apply [HOp op_a] false two_unacknowledged)
    as [[result item'] s' | e s'] eqn:Happly.
  - destruct (apply_acknowledges [op_a] two_unacknowledged result item' s' Hdistinct Happly)
      as (_ & Hgone & Hrest).
    split.
    + apply (Hgone op_a "1:0"); [left; reflexivity | reflexivity | discriminate].
    + simpl. rewrite (Hrest "1:1"); [reflexivity|].
      intros op Hop. vm_compute in Happly. injection Happly as _ <- _.
      destruct Hop as [<- | []]. discriminate.
  - vm_compute in Happly. discriminate Happly.
Defined.

Lemma waiting_ops_carry_opIds_witness :
  exists s', tryFlushing env context (run env context mutations fresh) = Returns tt s'.
Proof.
  assert (Hcalls : Forall top_with_opIds mutations).
  { repeat first [ exact I | (eexists; reflexivity) | constructor; simpl ]. }
  assert (Hfresh : ops_ready fresh) by (split; constructor).
  exact (proj2 (waiting_ops_carry_opIds env context mutations fresh Hcalls Hfresh)).
Defined.
End Runs.
